(** * Indo-China trade dashboard: acquisition and modelling pipeline

    A shallow embedding of the data-acquisition pipeline (error classes,
    cache, request executor, WITS query planner, normaliser, validators) and
    of the forecasting routines, with the properties of the design document
    stated and settled against it.

    Conventions of the embedding:
    - a JavaScript object used as a dictionary is a [gmap string _]; reading
      an absent key gives [undefined];
    - strings are [string]; case conversion acts on the ASCII letters, which
      is exact for every comparison made here (no other code point folds to
      a letter of the compared words);
    - integers (years, retry counts, HTTP statuses, clock readings in ms) are
      [Z]; the real-valued numbers of the forecasting code are exact
      rationals [Qc];
    - module-level mutable state (cache, telemetry, error log) and the
      environment (network, clock, random source) live in one [World]
      record threaded through the stateful functions. *)

From Stdlib Require Import ZArith QArith Qcanon Qround Ascii String List Bool Lia.
From stdpp Require Import base gmap strings list fin_maps pretty numbers.

Set Warnings "-register-all".

Open Scope string_scope.
Open Scope list_scope.
Open Scope Z_scope.

(** ** Strings *)

Module Str.

Definition lower_char (c : ascii) : ascii :=
  let n := N_of_ascii c in
  if ((65 <=? n) && (n <=? 90))%N then ascii_of_N (n + 32) else c.

Definition upper_char (c : ascii) : ascii :=
  let n := N_of_ascii c in
  if ((97 <=? n) && (n <=? 122))%N then ascii_of_N (n - 32) else c.

(** [s.toLowerCase()] *)
Fixpoint toLowerCase (s : string) : string :=
  match s with
  | EmptyString => EmptyString
  | String c r => String (lower_char c) (toLowerCase r)
  end.

(** [s.toUpperCase()] *)
Fixpoint toUpperCase (s : string) : string :=
  match s with
  | EmptyString => EmptyString
  | String c r => String (upper_char c) (toUpperCase r)
  end.

(** [s.includes(t)] *)
Fixpoint includes (s t : string) : bool :=
  String.prefix t s ||
  match s with
  | EmptyString => false
  | String _ r => includes r t
  end.

(** [arr.includes(x)] on an array of strings *)
Definition arr_includes (arr : list string) (x : string) : bool :=
  existsb (String.eqb x) arr.

End Str.

(** ** JavaScript values *)

Module JS.

(** A number: NaN or a finite value (the infinities are not needed). *)
Inductive number := NaN | Num (q : Qc).

(** The values that flow through the pipeline: JSON data, [undefined], and
    the DOM document [DOMParser] builds from a text. An object keeps its own
    properties in insertion order. *)
Inductive JVal :=
| JUndefined
| JNull
| JBool (b : bool)
| JNum (n : number)
| JStr (s : string)
| JArr (items : list JVal)
| JObj (props : list (string * JVal))
| JDocument (xml : string).

(** An exception that is not an [AppError]: [err.name] and [err.message]. *)
Record NativeExn := mkNativeExn { ex_name : string; ex_message : string }.

(** Built-in functions of the platform that the embedding takes as given. *)
Class Builtins := {
  (** [String(x)] for a number [x] *)
  number_text : number -> string;
  (** [parseFloat(s)] *)
  parseFloat : string -> number;
  (** [Math.sqrt(x)] *)
  Math_sqrt : Qc -> Qc;
  (** [new URL(url).hostname]; [inl] is the [TypeError] of the constructor
      on a text that is not an absolute URL *)
  URL_hostname : string -> NativeExn + string
}.

Definition number_truthy (n : number) : bool :=
  match n with
  | NaN => false
  | Num q => negb (Qc_eq_bool q 0)
  end.

(** Truthiness, as [if (v)], [v && ...], [v || ...] read it. *)
Definition truthy (v : JVal) : bool :=
  match v with
  | JUndefined | JNull => false
  | JBool b => b
  | JNum n => number_truthy n
  | JStr s => negb (String.eqb s "")
  | JArr _ | JObj _ | JDocument _ => true
  end.

(** [a || b] *)
Definition or_else (a b : JVal) : JVal := if truthy a then a else b.

Fixpoint assoc (props : list (string * JVal)) (k : string) : JVal :=
  match props with
  | [] => JUndefined
  | (k', v) :: rest => if String.eqb k k' then v else assoc rest k
  end.

(** [v.k] or [v[k]] for a property name that no primitive wrapper defines:
    [None] is the [TypeError] of reading a property of [null] or
    [undefined]. *)
Definition prop (v : JVal) (k : string) : option JVal :=
  match v with
  | JUndefined | JNull => None
  | JObj props => Some (assoc props k)
  | _ => Some JUndefined
  end.

(** [v === 'text'] *)
Definition is_str (v : JVal) (text : string) : bool :=
  match v with
  | JStr s => String.eqb s text
  | _ => false
  end.

(** [list.includes(v)] for a list of string constants *)
Definition one_of (list : list string) (v : JVal) : bool :=
  existsb (is_str v) list.

(** [v.length], where it is a number *)
Definition js_length (v : JVal) : option nat :=
  match v with
  | JStr s => Some (String.length s)
  | JArr l => Some (length l)
  | _ => None
  end.

Definition is_array (v : JVal) : bool :=
  match v with JArr _ => true | _ => false end.

Fixpoint chars (s : string) : list JVal :=
  match s with
  | EmptyString => []
  | String c r => JStr (String c EmptyString) :: chars r
  end.

(** [Object.values(v)] for a [v] that is neither [null] nor [undefined] *)
Definition Object_values (v : JVal) : list JVal :=
  match v with
  | JObj props => map snd props
  | JArr items => items
  | JStr s => chars s
  | _ => []
  end.

Fixpoint join (sep : string) (parts : list string) : string :=
  match parts with
  | [] => ""
  | [x] => x
  | x :: rest => x +:+ sep +:+ join sep rest
  end.

Section Text.
Context `{Builtins}.

(** [String(v)] *)
Fixpoint to_text (v : JVal) : string :=
  match v with
  | JUndefined => "undefined"
  | JNull => "null"
  | JBool true => "true"
  | JBool false => "false"
  | JNum n => number_text n
  | JStr s => s
  | JArr items =>
      join "," (map (fun x => match x with
                              | JUndefined | JNull => ""
                              | _ => to_text x
                              end) items)
  | JObj _ => "[object Object]"
  | JDocument _ => "[object XMLDocument]"
  end.

End Text.

(** What [JSON.parse(JSON.stringify(v))] gives back for a value stored under
    an object key: [undefined] members of objects are dropped and those of
    arrays become [null], NaN becomes [null], a document becomes [{}]. *)
Fixpoint json_copy (v : JVal) : JVal :=
  match v with
  | JNum NaN => JNull
  | JArr items =>
      JArr (map (fun x => match x with
                          | JUndefined => JNull
                          | _ => json_copy x
                          end) items)
  | JObj props =>
      JObj ((fix copy_props (l : list (string * JVal)) :=
               match l with
               | [] => []
               | (k, JUndefined) :: rest => copy_props rest
               | (k, x) :: rest => (k, json_copy x) :: copy_props rest
               end) props)
  | JDocument _ => JObj []
  | _ => v
  end.

(** Decimal digits and the white space [parseInt] skips. *)
Definition is_digit (c : ascii) : bool :=
  let n := N_of_ascii c in ((48 <=? n) && (n <=? 57))%N.

Definition is_space (c : ascii) : bool :=
  let n := N_of_ascii c in ((9 <=? n) && (n <=? 13) || (n =? 32))%N.

Fixpoint skip_spaces (s : string) : string :=
  match s with
  | String c r => if is_space c then skip_spaces r else s
  | EmptyString => s
  end.

Fixpoint digits_value (acc : Z) (s : string) : Z :=
  match s with
  | String c r =>
      if is_digit c
      then digits_value (10 * acc + Z.of_N (N_of_ascii c) - 48) r
      else acc
  | EmptyString => acc
  end.

Definition starts_with_digit (s : string) : bool :=
  match s with
  | String c _ => is_digit c
  | EmptyString => false
  end.

(** [parseInt(s, 10)]: leading white space, an optional sign, then the
    longest run of digits; [None] is NaN. *)
Definition parseInt10 (s : string) : option Z :=
  let s := skip_spaces s in
  let '(neg, s) :=
    match s with
    | String "-" r => (true, r)
    | String "+" r => (false, r)
    | _ => (false, s)
    end in
  if starts_with_digit s
  then Some (if neg then - digits_value 0 s else digits_value 0 s)
  else None.

End JS.

(** A small instance of the built-ins, used to run the model on examples:
    exact on integers and plain decimals, on perfect squares and on
    http(s) URLs. *)
Module SampleBuiltins.
Import JS.

Fixpoint drop_digits (s : string) : string :=
  match s with
  | String c r => if is_digit c then drop_digits r else s
  | EmptyString => s
  end.

Definition sample_parseFloat (s : string) : number :=
  let s := skip_spaces s in
  let '(neg, s) :=
    match s with
    | String "-" r => (true, r)
    | String "+" r => (false, r)
    | _ => (false, s)
    end in
  if starts_with_digit s then
    let whole := Qc_of_Z (digits_value 0 s) in
    let frac :=
      match drop_digits s with
      | String "." r =>
          let n := (String.length r - String.length (drop_digits r))%nat in
          (Qc_of_Z (digits_value 0 r) / Qc_of_Z (10 ^ Z.of_nat n))%Qc
      | _ => Qc_of_Z 0
      end in
    Num (if neg then (- (whole + frac))%Qc else (whole + frac)%Qc)
  else NaN.

Definition sample_number_text (n : number) : string :=
  match n with
  | NaN => "NaN"
  | Num q =>
      if (Zpos (Qden q) =? 1) then pretty (Qnum q)
      else pretty (Qnum q) +:+ "/" +:+ pretty (Zpos (Qden q))
  end.

Definition sample_sqrt (q : Qc) : Qc :=
  (Qc_of_Z (Z.sqrt (Qnum q)) / Qc_of_Z (Z.sqrt (Zpos (Qden q))))%Qc.

Fixpoint up_to_slash (s : string) : string :=
  match s with
  | String "/" _ => EmptyString
  | String c r => String c (up_to_slash r)
  | EmptyString => EmptyString
  end.

Definition sample_hostname (url : string) : NativeExn + string :=
  if String.prefix "https://" url then inr (up_to_slash (String.substring 8 (String.length url) url))
  else if String.prefix "http://" url then inr (up_to_slash (String.substring 7 (String.length url) url))
  else inl (mkNativeExn "TypeError" "Invalid URL").

Definition sample : Builtins :=
  {| number_text := sample_number_text;
     parseFloat := sample_parseFloat;
     Math_sqrt := sample_sqrt;
     URL_hostname := sample_hostname |}.

End SampleBuiltins.

(** ** assets/services/errors.js *)

Module Errors.

Inductive ErrClass :=
| CAppError | CNetworkError | CCorsError | CRateLimitError | CServerError
| CPayloadTooLargeError | CSchemaValidationError | CWitsLimitError.

(** Fields a subclass adds after [super(...)]. [RetryAfter None] is a
    [retryAfter] of NaN. *)
Inductive ErrExtra :=
| NoExtra
| RetryAfter (seconds : option Z)
| Status (status : Z)
| Details (count : nat).

(** An instance of [AppError]; [cls] is the constructor that built it (what
    [instanceof] inspects), [name] the string stored in [this.name]. The
    [timestamp] field is left out. *)
Record AppError := mkAppError {
  cls : ErrClass;
  name : string;
  message : string;
  code : string;
  source : option string;
  recoverable : bool;
  retryable : bool;
  uiMessage : string;
  extra : ErrExtra
}.

(** [err instanceof NetworkError] and the like: no subclass has subclasses. *)
Definition instanceof (e : AppError) (c : ErrClass) : bool :=
  match c, cls e with
  | CAppError, _ => true
  | CNetworkError, CNetworkError | CCorsError, CCorsError
  | CRateLimitError, CRateLimitError | CServerError, CServerError
  | CPayloadTooLargeError, CPayloadTooLargeError
  | CSchemaValidationError, CSchemaValidationError
  | CWitsLimitError, CWitsLimitError => true
  | _, _ => false
  end.

(** The options object of [new NetworkError(message, opts)]: each key may be
    absent. *)
Record NetOpts := mkNetOpts {
  o_source : option string;
  o_retryable : option bool;
  o_recoverable : option bool
}.

(** [new NetworkError(message, opts)]: the defaults [code: 'NETWORK',
    recoverable: true, retryable: true] are overridden by the keys present in
    [opts] (object spread), nothing else. *)
Definition NetworkError (msg : string) (opts : NetOpts) : AppError :=
  {| cls := CNetworkError; name := "NetworkError"; message := msg;
     code := "NETWORK"; source := o_source opts;
     recoverable := default true (o_recoverable opts);
     retryable := default true (o_retryable opts);
     uiMessage := msg; extra := NoExtra |}.

Definition CorsError (src : string) : AppError :=
  {| cls := CCorsError; name := "CorsError";
     message := "CORS blocked for " +:+ src;
     code := "CORS"; source := Some src; recoverable := true; retryable := false;
     uiMessage := "Live refresh unavailable (CORS) for " +:+ src +:+
                  ". Displaying pre-fetched WITS data.";
     extra := NoExtra |}.

Definition RateLimitError (src : string) (retryAfter : option Z) : AppError :=
  {| cls := CRateLimitError; name := "RateLimitError";
     message := "Rate limited by " +:+ src;
     code := "RATE_LIMIT"; source := Some src; recoverable := true; retryable := true;
     uiMessage := "Rate limited by " +:+ src +:+ ". Retrying...";
     extra := RetryAfter retryAfter |}.

Definition ServerError (src : string) (status : Z) : AppError :=
  {| cls := CServerError; name := "ServerError";
     message := "Server error " +:+ pretty status +:+ " from " +:+ src;
     code := "SERVER_ERROR"; source := Some src; recoverable := true; retryable := true;
     uiMessage := "Server error from " +:+ src +:+ ". Retrying...";
     extra := Status status |}.

Definition PayloadTooLargeError (src : string) : AppError :=
  {| cls := CPayloadTooLargeError; name := "PayloadTooLargeError";
     message := "Payload too large from " +:+ src;
     code := "PAYLOAD_TOO_LARGE"; source := Some src; recoverable := true;
     retryable := false;
     uiMessage := "Request to " +:+ src +:+ " returned too much data. Auto-chunking...";
     extra := NoExtra |}.

(** [details] is [{ count, sample }]; the count is kept. *)
Definition SchemaValidationError (datasetId : string) (count : nat) : AppError :=
  {| cls := CSchemaValidationError; name := "SchemaValidationError";
     message := "Schema validation failed for " +:+ datasetId;
     code := "SCHEMA_DRIFT"; source := Some datasetId; recoverable := true;
     retryable := false;
     uiMessage := "Data schema changed for " +:+ datasetId +:+
                  ". Raw data stored; display may be limited.";
     extra := Details count |}.

Definition WitsLimitError (detail : string) : AppError :=
  {| cls := CWitsLimitError; name := "WitsLimitError";
     message := "WITS request limit: " +:+ detail;
     code := "WITS_LIMIT"; source := Some "wits"; recoverable := true;
     retryable := false;
     uiMessage := "WITS query too broad. Splitting into smaller requests...";
     extra := NoExtra |}.

(** One line of the in-memory error log ([ts] left out). *)
Record LogEntry := mkLogEntry {
  l_name : string; l_message : string; l_code : string
}.

Definition MAX_LOG : nat := 200.

(** [logError(err)] on the log [_log]: push, then drop the oldest entry when
    the cap is exceeded. *)
Definition logError (err : AppError) (log : list LogEntry) : list LogEntry :=
  let log' := log ++ [mkLogEntry (name err) (message err) (code err)] in
  if (MAX_LOG <? length log')%nat then tail log' else log'.

End Errors.

(** ** The browser and the module state *)

Module Runtime.
Import JS.

(** A cache entry [{ value, expires }]. *)
Record CacheEntry := mkEntry { value : JVal; expires : Z }.

(** What a [Response] offers to [robustFetch]: the status, the two headers
    it reads ([None] when [headers.get] gives [null]) and the outcome of
    reading the body as JSON or as text ([inl] when the promise rejects). *)
Record Response := mkResponse {
  status : Z;
  retry_after : option string;
  content_length : option string;
  body_json : NativeExn + JVal;
  body_text : NativeExn + string
}.

(** [resp.ok] *)
Definition ok (r : Response) : bool := (200 <=? status r) && (status r <=? 299).

(** The outcome of [await fetch(url, { mode: 'cors' })]. *)
Inductive FetchOutcome :=
| Responds (r : Response)
| Rejects (e : NativeExn).

(** A telemetry event ([ts] and the elapsed time of a fetch left out). *)
Record Event := mkEvent {
  category : string; action : string; meta : list (string * JVal)
}.

(** The numeric flags a local configuration may override. *)
Record Overrides := mkOverrides {
  ov_maxRetries : option Z;
  ov_retryBaseMs : option Qc
}.

(** The environment of a call: the [k]-th reading of the clock, the [k]-th
    answer of the network, the [k]-th draw of [Math.random()], whether the
    browser is online, whether [sessionStorage] can be read and written (it
    throws otherwise), and the overrides loaded from the local
    configuration. None of it is changed by the code. *)
Record Env := mkEnv {
  clock : nat -> Z;
  net : nat -> string -> FetchOutcome;
  random : nat -> Qc;
  online : bool;
  session_reads : bool;
  session_writes : bool;
  overrides : Overrides
}.

(** The environment together with the module-level state: [_mem],
    [sessionStorage], how many times the clock, the network and the random
    source have been used, the delay of every [sleep(ms)] so far, the event
    log and the error log. *)
Record World := mkWorld {
  env : Env;
  mem : gmap string CacheEntry;
  session : gmap string CacheEntry;
  ticks : nat;
  fetches : nat;
  randoms : nat;
  sleeps : list Qc;
  events : list Event;
  errlog : list Errors.LogEntry
}.

Definition with_mem (f : gmap string CacheEntry -> gmap string CacheEntry)
    (w : World) : World :=
  mkWorld (env w) (f (mem w)) (session w) (ticks w) (fetches w) (randoms w)
          (sleeps w) (events w) (errlog w).

Definition with_session (f : gmap string CacheEntry -> gmap string CacheEntry)
    (w : World) : World :=
  mkWorld (env w) (mem w) (f (session w)) (ticks w) (fetches w) (randoms w)
          (sleeps w) (events w) (errlog w).

Definition with_ticks (k : nat) (w : World) : World :=
  mkWorld (env w) (mem w) (session w) k (fetches w) (randoms w)
          (sleeps w) (events w) (errlog w).

Definition with_fetches (k : nat) (w : World) : World :=
  mkWorld (env w) (mem w) (session w) (ticks w) k (randoms w)
          (sleeps w) (events w) (errlog w).

Definition with_randoms (k : nat) (w : World) : World :=
  mkWorld (env w) (mem w) (session w) (ticks w) (fetches w) k
          (sleeps w) (events w) (errlog w).

Definition with_sleeps (l : list Qc) (w : World) : World :=
  mkWorld (env w) (mem w) (session w) (ticks w) (fetches w) (randoms w)
          l (events w) (errlog w).

Definition with_events (l : list Event) (w : World) : World :=
  mkWorld (env w) (mem w) (session w) (ticks w) (fetches w) (randoms w)
          (sleeps w) l (errlog w).

Definition with_errlog (l : list Errors.LogEntry) (w : World) : World :=
  mkWorld (env w) (mem w) (session w) (ticks w) (fetches w) (randoms w)
          (sleeps w) (events w) l.

(** Stateful code: a function of the world returning a result and the world
    it leaves. *)
Definition M (A : Type) : Type := World -> A * World.

Definition ret {A} (a : A) : M A := fun w => (a, w).

Definition bind {A B} (m : M A) (k : A -> M B) : M B :=
  fun w => let '(a, w') := m w in k a w'.

Definition reads {A} (f : World -> A) : M A := fun w => (f w, w).

Definition writes (f : World -> World) : M unit := fun w => (tt, f w).

End Runtime.

Notation "'let*' x ':=' m 'in' k" :=
  (Runtime.bind m (fun x => k))
  (at level 10, x name, m at level 100, k at level 200).
Notation "m ';;' k" :=
  (Runtime.bind m (fun _ => k))
  (at level 100, k at level 200, right associativity).

(** The stateful primitives: the platform calls and the two logging
    modules. *)
Module Platform.
Import JS Runtime.

(** [Date.now()] *)
Definition Date_now : M Z :=
  fun w => (clock (env w) (ticks w), with_ticks (S (ticks w)) w).

(** [Math.random()] *)
Definition Math_random : M Qc :=
  fun w => (random (env w) (randoms w), with_randoms (S (randoms w)) w).

(** [await fetch(url, { mode: 'cors' })] *)
Definition fetch (url : string) : M FetchOutcome :=
  fun w => (net (env w) (fetches w) url, with_fetches (S (fetches w)) w).

(** [await sleep(ms)] *)
Definition sleep (ms : Qc) : M unit :=
  writes (fun w => with_sleeps (sleeps w ++ [ms]) w).

Definition MAX_EVENTS : nat := 500.

(** telemetry.js:
    [_events.push(evt); if (_events.length > MAX_EVENTS) _events.shift()] *)
Definition push_event (evt : Event) (log : list Event) : list Event :=
  let log' := log ++ [evt] in
  if (MAX_EVENTS <? length log')%nat then tail log' else log'.

(** telemetry.js: [track(category, action, meta)] *)
Definition track (category action : string) (meta : list (string * JVal))
  : M unit :=
  writes (fun w =>
    with_events (push_event (mkEvent category action meta) (events w)) w).

(** errors.js: [logError(err)] *)
Definition logError (err : Errors.AppError) : M unit :=
  writes (fun w => with_errlog (Errors.logError err (errlog w)) w).

(** featureFlags.js: [flag('maxRetries')] and [flag('retryBaseMs')], an
    override if there is one and the default otherwise. *)
Definition flag_maxRetries (w : World) : Z :=
  default 3 (ov_maxRetries (overrides (env w))).

Definition flag_retryBaseMs (w : World) : Qc :=
  default (Qc_of_Z 1000) (ov_retryBaseMs (overrides (env w))).

(** A number as a JSON value. *)
Definition jint (z : Z) : JVal := JNum (Num (Qc_of_Z z)).

End Platform.

(** ** assets/services/cache.js *)

Module Cache.
Import JS Runtime Platform.

Definition DEFAULT_TTL_MS : Z := 30 * 60 * 1000.

(** [fingerprint(url)], the parameters being absent *)
Definition fingerprint (url : string) : string := url +:+ "|{}".

(** The [sessionStorage] fallback of [get]; any exception inside the [try]
    ends it. *)
Definition get_session (key : string) : M (option JVal) :=
  let* readable := reads (fun w => session_reads (env w)) in
  if negb readable then ret None
  else
    let* raw := reads (fun w => session w !! ("cache:" +:+ key)) in
    match raw with
    | None => ret None
    | Some parsed =>
        let* now := Date_now in
        if now <? expires parsed then
          track "cache" "cache_hit"
                [("store", JStr "session"); ("key", JStr key)];;
          writes (with_mem (fun m => <[key := parsed]> m));;
          ret (Some (value parsed))
        else
          writes (with_session (fun s => delete ("cache:" +:+ key) s));;
          ret None
    end.

(** The rest of [get] once the memory tier has not answered. *)
Definition get_fallback (key : string) : M JVal :=
  let* found := get_session key in
  match found with
  | Some v => ret v
  | None => track "cache" "cache_miss" [("key", JStr key)];; ret JUndefined
  end.

(** [get(key)]; [undefined] is a miss. *)
Definition get (key : string) : M JVal :=
  let* m := reads (fun w => mem w !! key) in
  match m with
  | Some entry =>
      let* now := Date_now in
      if now <? expires entry then
        track "cache" "cache_hit" [("store", JStr "memory"); ("key", JStr key)];;
        ret (value entry)
      else get_fallback key
  | None => get_fallback key
  end.

(** [set(key, value, ttlMs)]; what [sessionStorage] keeps is the JSON text
    of the entry, read back by [JSON.parse]. *)
Definition set (key : string) (v : JVal) (ttlMs : Z) : M unit :=
  let* now := Date_now in
  let entry := mkEntry v (now + ttlMs) in
  writes (with_mem (fun m => <[key := entry]> m));;
  let* writable := reads (fun w => session_writes (env w)) in
  if writable then
    writes (with_session
              (fun s => <["cache:" +:+ key := mkEntry (json_copy v) (now + ttlMs)]> s))
  else ret tt.

End Cache.

(** ** assets/services/fetchers.js *)

Module Fetchers.
Import Str JS Runtime Platform.

Definition MAX_PAYLOAD_BYTES : Z := 10 * 1024 * 1024.

(** The [opts] argument: each key may be absent. *)
Record Options := mkOptions {
  cacheTtlMs : option Z;
  maxRetries : option Z;
  responseType : option string;
  cacheKey : option string
}.

Definition no_options : Options := mkOptions None None None None.

(** What [robustFetch] throws: an [AppError], an exception of the platform,
    or [undefined] (the initial [lastErr]). *)
Inductive Thrown :=
| ThApp (e : Errors.AppError)
| ThNative (e : NativeExn)
| ThUndefined.

(** An exception raised inside the [try] block. *)
Inductive Exn :=
| ExApp (e : Errors.AppError)
| ExNative (e : NativeExn).

Definition exn_name (e : Exn) : string :=
  match e with ExApp a => Errors.name a | ExNative n => ex_name n end.

Definition exn_message (e : Exn) : string :=
  match e with ExApp a => Errors.message a | ExNative n => ex_message n end.

(** How one turn of the [try] block ends. *)
Inductive TryResult :=
| TryReturn (data : JVal)
| TryContinue (lastErr : Errors.AppError)
| TryThrow (e : Exn).

(** How the [catch] block ends: by throwing, or by falling through to the
    next turn of the loop with [lastErr] set. *)
Inductive CatchResult :=
| Threw (t : Thrown)
| Again (lastErr : Errors.AppError).

Section Fetch.
Context `{Builtins}.

(** [backoff(attempt)] *)
Definition backoff (attempt : Z) : M Qc :=
  let* base := reads flag_retryBaseMs in
  let* r := Math_random in
  ret (base * Qc_of_Z (2 ^ attempt) + r * Qc_of_Z 500)%Qc.

(** [h || '0'] for a header value *)
Definition header_or_zero (h : option string) : string :=
  match h with
  | Some v => if String.eqb v "" then "0" else v
  | None => "0"
  end.

(** [retryAfter > 0 ? retryAfter * 1000 : backoff(attempt)] *)
Definition rate_limit_wait (retryAfter : option Z) (attempt : Z) : M Qc :=
  match retryAfter with
  | Some n => if 0 <? n then ret (Qc_of_Z (n * 1000)) else backoff attempt
  | None => backoff attempt
  end.

(** [cl && parseInt(cl, 10) > MAX_PAYLOAD_BYTES] *)
Definition too_large (cl : option string) : bool :=
  match cl with
  | Some v =>
      negb (String.eqb v "") &&
      match parseInt10 v with
      | Some n => MAX_PAYLOAD_BYTES <? n
      | None => false
      end
  | None => false
  end.

(** Reading the body as [responseType] asks. *)
Definition read_body (responseType : string) (resp : Response)
  : NativeExn + JVal :=
  if String.eqb responseType "json" then body_json resp
  else if String.eqb responseType "xml" then
    match body_text resp with
    | inl e => inl e
    | inr text => inr (JDocument text)
    end
  else
    match body_text resp with
    | inl e => inl e
    | inr text => inr (JStr text)
    end.

(** The body of the [try] block for one attempt. Where the source builds an
    error from [new URL(url).hostname], a URL the constructor rejects makes
    the [try] block throw its [TypeError] instead. *)
Definition try_block (url key : string) (ttl : Z) (responseType : string)
    (attempt : Z) : M TryResult :=
  track "fetch" "attempt" [("url", JStr url); ("attempt", jint attempt)];;
  let* out := fetch url in
  match out with
  | Rejects e => ret (TryThrow (ExNative e))
  | Responds resp =>
      track "fetch" "response" [("url", JStr url); ("status", jint (status resp))];;
      if status resp =? 429 then
        let retryAfter := parseInt10 (header_or_zero (retry_after resp)) in
        match URL_hostname url with
        | inl e => ret (TryThrow (ExNative e))
        | inr host =>
            let err := Errors.RateLimitError host retryAfter in
            logError err;;
            let* wait := rate_limit_wait retryAfter attempt in
            sleep wait;;
            ret (TryContinue err)
        end
      else if 500 <=? status resp then
        match URL_hostname url with
        | inl e => ret (TryThrow (ExNative e))
        | inr host =>
            let err := Errors.ServerError host (status resp) in
            logError err;;
            let* wait := backoff attempt in
            sleep wait;;
            ret (TryContinue err)
        end
      else if negb (ok resp) then
        match URL_hostname url with
        | inl e => ret (TryThrow (ExNative e))
        | inr host =>
            ret (TryThrow (ExApp (Errors.NetworkError
                   ("HTTP " +:+ pretty (status resp) +:+ " from " +:+ url)
                   (Errors.mkNetOpts (Some host) (Some false) None))))
        end
      else if too_large (content_length resp) then
        match URL_hostname url with
        | inl e => ret (TryThrow (ExNative e))
        | inr host => ret (TryThrow (ExApp (Errors.PayloadTooLargeError host)))
        end
      else
        match read_body responseType resp with
        | inl e => ret (TryThrow (ExNative e))
        | inr data => Cache.set key data ttl;; ret (TryReturn data)
        end
  end.

(** [if (attempt < maxRetries) await sleep(backoff(attempt))] *)
Definition sleep_before_retry (attempt maxRetries : Z) : M unit :=
  if attempt <? maxRetries then
    let* wait := backoff attempt in sleep wait
  else ret tt.

(** The [catch (err)] block. *)
Definition catch_block (url : string) (attempt maxRetries : Z) (err : Exn)
  : M CatchResult :=
  match err with
  | ExApp e =>
      if Errors.instanceof e Errors.CPayloadTooLargeError then ret (Threw (ThApp e))
      else if String.eqb (exn_name err) "TypeError"
              && includes (exn_message err) "Failed to fetch" then
        let* on := reads (fun w => online (env w)) in
        if negb on then
          let lastErr := Errors.NetworkError "Offline"
                           (Errors.mkNetOpts (Some url) None None) in
          logError lastErr;; ret (Threw (ThApp lastErr))
        else
          match URL_hostname url with
          | inl t => ret (Threw (ThNative t))
          | inr host =>
              let lastErr := Errors.CorsError host in
              logError lastErr;; ret (Threw (ThApp lastErr))
          end
      else if negb (Errors.retryable e) then ret (Threw (ThApp e))
      else sleep_before_retry attempt maxRetries;; ret (Again e)
  | ExNative n =>
      if String.eqb (exn_name err) "TypeError"
         && includes (exn_message err) "Failed to fetch" then
        let* on := reads (fun w => online (env w)) in
        if negb on then
          let lastErr := Errors.NetworkError "Offline"
                           (Errors.mkNetOpts (Some url) None None) in
          logError lastErr;; ret (Threw (ThApp lastErr))
        else
          match URL_hostname url with
          | inl t => ret (Threw (ThNative t))
          | inr host =>
              let lastErr := Errors.CorsError host in
              logError lastErr;; ret (Threw (ThApp lastErr))
          end
      else
        let lastErr := Errors.NetworkError (ex_message n)
                         (Errors.mkNetOpts (Some url) None None) in
        logError lastErr;;
        sleep_before_retry attempt maxRetries;; ret (Again lastErr)
  end.

(** [throw lastErr] after the loop *)
Definition throw_last (lastErr : option Errors.AppError) : Thrown :=
  match lastErr with
  | Some e => ThApp e
  | None => ThUndefined
  end.

(** The loop [for (let attempt = 0; attempt <= maxRetries; attempt++)],
    from the turn [attempt] on; [fuel] bounds the number of turns. *)
Fixpoint retry_loop (fuel : nat) (url key : string) (ttl : Z)
    (responseType : string) (maxRetries attempt : Z)
    (lastErr : option Errors.AppError) : M (Thrown + JVal) :=
  match fuel with
  | O => ret (inl (throw_last lastErr))
  | S fuel' =>
      if attempt <=? maxRetries then
        let* r := try_block url key ttl responseType attempt in
        match r with
        | TryReturn data => ret (inr data)
        | TryContinue e =>
            retry_loop fuel' url key ttl responseType maxRetries (attempt + 1) (Some e)
        | TryThrow ex =>
            let* c := catch_block url attempt maxRetries ex in
            match c with
            | Threw t => ret (inl t)
            | Again e =>
                retry_loop fuel' url key ttl responseType maxRetries
                           (attempt + 1) (Some e)
            end
        end
      else ret (inl (throw_last lastErr))
  end.

(** The cache key: [customCacheKey || fingerprint(url)]. *)
Definition cache_key (url : string) (opts : Options) : string :=
  match cacheKey opts with
  | Some k => if String.eqb k "" then Cache.fingerprint url else k
  | None => Cache.fingerprint url
  end.

(** The retry bound in force: [opts.maxRetries], else the flag. *)
Definition max_retries (opts : Options) (w : World) : Z :=
  default (flag_maxRetries w) (maxRetries opts).

(** [robustFetch(url, opts)]: [inr] is the returned payload, [inl] what is
    thrown. The loop runs [maxRetries + 1] turns at most, which is the fuel
    it gets ([retry_loop_fuel] below: more changes nothing). *)
Definition robustFetch (url : string) (opts : Options) : M (Thrown + JVal) :=
  let ttl := default (30 * 60 * 1000) (cacheTtlMs opts) in
  let* maxRetries := reads (max_retries opts) in
  let responseType := default "json" (responseType opts) in
  let key := cache_key url opts in
  let* cached := Cache.get key in
  match cached with
  | JUndefined =>
      retry_loop (Z.to_nat (maxRetries + 1)) url key ttl responseType
                 maxRetries 0 None
  | _ => ret (inr cached)
  end.

(** *** Vocabulary for the properties of [robustFetch] *)

(** The network answers the next requests for [url] with the responses
    [rs], in this order. *)
Definition answers (w : World) (url : string) (rs : list Response) : Prop :=
  forall k r, rs !! k = Some r ->
    net (env w) (fetches w + k)%nat url = Responds r.

(** A response the loop retries after sleeping: 429 or 5xx. *)
Definition retried (r : Response) : bool :=
  (status r =? 429) || (500 <=? status r).

(** The error the loop keeps in [lastErr] for such a response. *)
Definition retry_error (host : string) (r : Response) : Errors.AppError :=
  if status r =? 429
  then Errors.RateLimitError host (parseInt10 (header_or_zero (retry_after r)))
  else Errors.ServerError host (status r).

(** The delay [backoff(attempt)] computes when [Math.random()] gives its
    [k]-th draw. *)
Definition backoff_delay (e : Env) (attempt : Z) (k : nat) : Qc :=
  (default (Qc_of_Z 1000) (ov_retryBaseMs (overrides e)) * Qc_of_Z (2 ^ attempt)
   + random e k * Qc_of_Z 500)%Qc.

(** The positive [Retry-After] of a 429 response, in seconds. *)
Definition retry_after_seconds (r : Response) : option Z :=
  if status r =? 429 then
    match parseInt10 (header_or_zero (retry_after r)) with
    | Some n => if 0 <? n then Some n else None
    | None => None
    end
  else None.

(** The delays slept for a run of retried responses, starting at turn
    [attempt] with [k] draws of the random source already made. *)
Fixpoint retry_delays (e : Env) (rs : list Response) (attempt : Z) (k : nat)
  : list Qc :=
  match rs with
  | [] => []
  | r :: rest =>
      match retry_after_seconds r with
      | Some n => Qc_of_Z (n * 1000) :: retry_delays e rest (attempt + 1) k
      | None =>
          backoff_delay e attempt k :: retry_delays e rest (attempt + 1) (S k)
      end
  end.

(** [lastErr] after a run of retried responses. *)
Fixpoint last_retry_error (host : string) (rs : list Response)
    (lastErr : option Errors.AppError) : option Errors.AppError :=
  match rs with
  | [] => lastErr
  | r :: rest => last_retry_error host rest (Some (retry_error host r))
  end.

(** The number of those delays that are back-off delays. *)
Definition backoff_count (rs : list Response) : nat :=
  length (List.filter (fun r => match retry_after_seconds r with
                                | Some _ => false
                                | None => true
                                end) rs).

(** The second world has the environment, the network and random counters
    and the sleep and error logs of the first. *)
Definition quiet (w w' : World) : Prop :=
  env w' = env w /\ fetches w' = fetches w /\ randoms w' = randoms w /\
  sleeps w' = sleeps w /\ errlog w' = errlog w.

(** What a run of retried turns changes: the network and random counters
    and the sleep log; the caches and the clock are untouched. *)
Definition after_retries (w w' : World) (n draws : nat) (delays : list Qc)
  : Prop :=
  env w' = env w /\ mem w' = mem w /\ session w' = session w /\
  ticks w' = ticks w /\ fetches w' = (fetches w + n)%nat /\
  randoms w' = (randoms w + draws)%nat /\ sleeps w' = sleeps w ++ delays.

(** A response [robustFetch] accepts and whose body reads as [data]. *)
Definition delivers (responseType : string) (r : Response) (data : JVal) : Prop :=
  retried r = false /\ ok r = true /\ too_large (content_length r) = false /\
  read_body responseType r = inr data.

(** A 4xx response other than 429. *)
Definition client_failure (r : Response) : Prop :=
  400 <= status r <= 499 /\ status r <> 429.

(** The error the design document expects for such a response: neither
    recoverable nor retryable. *)
Definition client_error_flags (e : Errors.AppError) : Prop :=
  Errors.recoverable e = false /\ Errors.retryable e = false.

(** The cache has no live entry under [key]: [get] misses. *)
Definition cold (w : World) (key : string) : Prop :=
  (Cache.get key w).1 = JUndefined.

(** A response with the given status, no headers and the given JSON body. *)
Definition plain (status : Z) (body : JVal) : Response :=
  mkResponse status None None (inr body) (inr "").

End Fetch.

(** A world with empty caches and logs in which the network answers with
    [script], one entry per request, and then fails; the clock advances by
    one millisecond per reading and [Math.random()] always gives 1/2. *)
Definition scripted (script : list FetchOutcome) : World :=
  mkWorld
    (mkEnv (fun k => 1000 + Z.of_nat k)
           (fun k _ => nth k script
                         (Rejects (mkNativeExn "TypeError" "Failed to fetch")))
           (fun _ => Q2Qc (1 # 2)) true true true (mkOverrides None None))
    ∅ ∅ 0 0 0 [] [] [].

Definition wits_url : string :=
  "https://wits.worldbank.org/API/V1/SDMX/V21/datasource/tradestats-trade".

Definition sample_payload : JVal :=
  JArr [JObj [("ReporterISO3", JStr "IND"); ("Value", JStr "58799.5")]].

Definition world_429_429_200 : World :=
  scripted [Responds (plain 429 JNull); Responds (plain 429 JNull);
            Responds (plain 200 sample_payload)].

Definition world_500_x4 : World :=
  scripted [Responds (plain 500 JNull); Responds (plain 500 JNull);
            Responds (plain 500 JNull); Responds (plain 500 JNull)].

Definition world_200 : World := scripted [Responds (plain 200 sample_payload)].

Definition world_429_200 : World :=
  scripted [Responds (plain 429 JNull); Responds (plain 200 sample_payload)].

Definition world_404 : World := scripted [Responds (plain 404 JNull)].

End Fetchers.

(** ** assets/services/wits.js: QueryPlanner *)

Module QueryPlanner.
Import Str.

(** The [params] object of a WITS query. *)
Abbreviation Params := (gmap string string).

(** [String(params[d])]: the values are strings; an absent key reads as
    [undefined], whose text is "undefined". *)
Definition param_text (params : Params) (d : string) : string :=
  default "undefined" (params !! d).

Definition DIMS : list string :=
  ["reporter"; "year"; "partner"; "product"; "indicator"].

(** [String(params[d]).toLowerCase() === 'all'] *)
Definition is_all (params : Params) (d : string) : bool :=
  String.eqb (toLowerCase (param_text params d)) "all".

Record Check := mkCheck { valid : bool; reason : option string }.

Definition validate (params : Params) : Check :=
  let allDims := List.filter (is_all params) DIMS in
  if (2 <? length allDims)%nat then
    mkCheck false (Some (pretty (length allDims) +:+
                         " dimensions set to ALL; max 2 allowed."))
  else if arr_includes allDims "reporter" && arr_includes allDims "partner" then
    mkCheck false (Some "reporter=ALL + partner=ALL is not allowed.")
  else if (length allDims =? 2)%nat then
    let specificDims := List.filter (fun d => negb (arr_includes allDims d)) DIMS in
    match List.find (is_all params) specificDims with
    | Some sd =>
        mkCheck false (Some ("When 2 dims are ALL, " +:+ sd +:+ " must be specific."))
    | None => mkCheck true None
    end
  else mkCheck true None.

Record Query := mkQuery { datasource : string; params : Params }.

(** [{ ...params, year: String(yr) }] *)
Definition with_year (params : Params) (yr : Z) : Params :=
  <["year" := pretty yr]> params.

(** The inner loop [for (let yr = y; yr <= endY; yr++)]; [fuel] bounds the
    number of iterations. *)
Fixpoint year_loop (fuel : nat) (ds : string) (params : Params)
    (yr endY : Z) (chunks : list Query) : list Query :=
  match fuel with
  | O => chunks
  | S fuel' =>
      if yr <=? endY then
        let p := with_year params yr in
        let chunks' :=
          if valid (validate p) then chunks ++ [mkQuery ds p] else chunks in
        year_loop fuel' ds params (yr + 1) endY chunks'
      else chunks
  end.

(** The outer loop [for (let y = yearRange[0]; y <= yearRange[1]; y += 5)]. *)
Fixpoint block_loop (fuel : nat) (ds : string) (params : Params)
    (y y1 : Z) (chunks : list Query) : list Query :=
  match fuel with
  | O => chunks
  | S fuel' =>
      if y <=? y1 then
        let endY := Z.min (y + 4) y1 in
        let chunks' :=
          year_loop (Z.to_nat (endY - y + 1)) ds params y endY chunks in
        block_loop fuel' ds params (y + 5) y1 chunks'
      else chunks
  end.

(** [QueryPlanner.chunk(datasource, params, yearRange)]; [inl] is the thrown
    error. The year range is a pair of integers. Each loop gets as much fuel
    as it can use: [year_loop_fuel] and [block_loop_fuel] below show that
    more changes nothing. *)
Definition chunk (ds : string) (params : Params) (yearRange : Z * Z)
  : Errors.AppError + list Query :=
  let check := validate params in
  if valid check then inr [mkQuery ds params]
  else
    let chunks :=
      block_loop (Z.to_nat (yearRange.2 - yearRange.1 + 1)) ds params
                 yearRange.1 yearRange.2 [] in
    if (length chunks =? 0)%nat then
      inl (Errors.WitsLimitError (default "undefined" (reason check)))
    else inr chunks.

(** The default [yearRange = [2000, 2024]]. *)
Definition default_yearRange : Z * Z := (2000, 2024).

(** Number of dimensions set to ALL. *)
Definition count_all (params : Params) : nat :=
  length (List.filter (is_all params) DIMS).

(** The years [y0, y0+1, ..., y1] in increasing order. *)
Definition years (y0 y1 : Z) : list Z :=
  map (fun i => y0 + Z.of_nat i) (seq 0 (Z.to_nat (y1 - y0 + 1))).

(** The sub-queries the two loops keep, for a list of years. *)
Definition legal_sub_queries (ds : string) (params : Params) (ys : list Z)
  : list Query :=
  map (fun yr => mkQuery ds (with_year params yr))
      (List.filter (fun yr => valid (validate (with_year params yr))) ys).

(** What the design document asks of [chunk] on a query it has to split: a
    plan with one sub-query per year of the range, in order, each being the
    query with that year substituted and each passing [validate]. *)
Definition per_year_plan (ds : string) (params : Params) (yearRange : Z * Z)
    (plan : list Query) : Prop :=
  plan = map (fun yr => mkQuery ds (with_year params yr))
             (years yearRange.1 yearRange.2) /\
  Forall (fun q => valid (validate (QueryPlanner.params q)) = true) plan.

(** The query [reporter=all, year=all, partner=all] on total trade. *)
Definition all_all_all : Params :=
  {[ "reporter" := "all"; "year" := "all"; "partner" := "all";
     "product" := "999999"; "indicator" := "XPRT-TRD-VL" ]}.

(** The query the dashboard issues: India's trade with China, all years, all
    indicators. *)
Definition ind_chn : Params :=
  {[ "reporter" := "IND"; "year" := "all"; "partner" := "CHN";
     "product" := "999999"; "indicator" := "all" ]}.

End QueryPlanner.

(** ** assets/services/validators.js *)

Module Validators.
Import JS.

(** A canonical record: an object read by field name. *)
Abbreviation Row := (gmap string JVal).

(** [row[field]] *)
Definition field (row : Row) (f : string) : JVal := default JUndefined (row !! f).

Definition TRADE_FACT_REQUIRED : list string :=
  ["date"; "frequency"; "reporter_iso3"; "partner_iso3"; "flow"; "product_level";
   "product_code"; "value_usd"; "source_id"; "retrieval_ts"; "request_fingerprint"].

Definition MACRO_FACT_REQUIRED : list string :=
  ["date"; "country_iso3"; "indicator_code"; "indicator_name"; "value"; "unit";
   "source_id"; "retrieval_ts"; "request_fingerprint"].

Definition VALID_FREQUENCIES : list string := ["A"; "M"].
Definition VALID_FLOWS : list string := ["IMPORT"; "EXPORT"].
Definition VALID_PRODUCT_LEVELS : list string := ["TOTAL"; "GROUP"; "HS2"; "HS4"].

Record Verdict := mkVerdict { valid : bool; errors : list string }.

Definition is_undefined (v : JVal) : bool :=
  match v with JUndefined => true | _ => false end.

Definition is_null (v : JVal) : bool :=
  match v with JNull => true | _ => false end.

(** One turn of [for (const field of REQUIRED)]; [nullable] is the field the
    inner test names. *)
Definition check_required (nullable : string) (row : Row)
    (errors : list string) (f : string) : list string :=
  if is_undefined (field row f) || is_str (field row f) "" then
    if String.eqb f nullable && is_null (field row f) then errors
    else errors ++ ["Missing required field: " +:+ f]
  else errors.

(** [v.length !== 3] *)
Definition length_not_3 (v : JVal) : bool :=
  match js_length v with
  | Some n => negb (n =? 3)%nat
  | None => true
  end.

Section Validate.
Context `{Builtins}.

(** [if (row.f && !LIST.includes(row.f)) errors.push(`${label}${row.f}`)] *)
Definition check_enum (row : Row) (f : string) (allowed : list string)
    (label : string) (errors : list string) : list string :=
  if truthy (field row f) && negb (one_of allowed (field row f))
  then errors ++ [label +:+ to_text (field row f)]
  else errors.

(** [if (row.f && row.f.length !== 3) errors.push(...)] *)
Definition check_iso3 (row : Row) (f : string) (errors : list string)
  : list string :=
  if truthy (field row f) && length_not_3 (field row f)
  then errors ++ [f +:+ " must be 3 chars: " +:+ to_text (field row f)]
  else errors.

Definition validateTradeFact (row : Row) : Verdict :=
  let errors := fold_left (check_required "value_usd" row) TRADE_FACT_REQUIRED [] in
  let errors := check_enum row "frequency" VALID_FREQUENCIES "Invalid frequency: " errors in
  let errors := check_enum row "flow" VALID_FLOWS "Invalid flow: " errors in
  let errors := check_enum row "product_level" VALID_PRODUCT_LEVELS
                           "Invalid product_level: " errors in
  let errors := check_iso3 row "reporter_iso3" errors in
  let errors := check_iso3 row "partner_iso3" errors in
  mkVerdict (length errors =? 0)%nat errors.

Definition validateMacroFact (row : Row) : Verdict :=
  let errors := fold_left (check_required "value" row) MACRO_FACT_REQUIRED [] in
  let errors := check_iso3 row "country_iso3" errors in
  mkVerdict (length errors =? 0)%nat errors.

Record Batch := mkBatch {
  b_valid : list Row;
  b_invalid : list (Row * list string);
  totalValid : nat;
  totalInvalid : nat
}.

(** [validateBatch(rows, type)]; the second component is the error log after
    the call. *)
Definition validateBatch (rows : list Row) (type : string)
    (log : list Errors.LogEntry) : Batch * list Errors.LogEntry :=
  let validator :=
    if String.eqb type "trade_fact" then validateTradeFact else validateMacroFact in
  let '(valid, invalid) :=
    fold_left (fun acc row =>
                 let result := validator row in
                 if Validators.valid result
                 then (acc.1 ++ [row], acc.2)
                 else (acc.1, acc.2 ++ [(row, errors result)]))
              rows ([], []) in
  let log' :=
    if (0 <? length invalid)%nat
    then Errors.logError (Errors.SchemaValidationError type (length invalid)) log
    else log in
  (mkBatch valid invalid (length valid) (length invalid), log').

(** The report each check contributes, on its own. *)
Definition missing (row : Row) (f : string) : list string :=
  if is_undefined (field row f) || is_str (field row f) ""
  then ["Missing required field: " +:+ f] else [].

Definition enum_error (row : Row) (f : string) (allowed : list string)
    (label : string) : list string :=
  if truthy (field row f) && negb (one_of allowed (field row f))
  then [label +:+ to_text (field row f)] else [].

Definition iso3_error (row : Row) (f : string) : list string :=
  if truthy (field row f) && length_not_3 (field row f)
  then [f +:+ " must be 3 chars: " +:+ to_text (field row f)] else [].

End Validate.

(** A complete trade record and a complete macro record, as the normalisers
    emit them. *)
Definition sample_trade : Row :=
  list_to_map
    [("date", JStr "2020"); ("frequency", JStr "A"); ("reporter_iso3", JStr "IND");
     ("partner_iso3", JStr "CHN"); ("flow", JStr "IMPORT");
     ("product_level", JStr "TOTAL"); ("product_code", JStr "999999");
     ("product_name", JStr ""); ("value_usd", JNum (Num (Qc_of_Z 58799)));
     ("unit", JStr "USD"); ("source_id", JStr "wits:tradestats-trade");
     ("retrieval_ts", JStr "2024-01-01T00:00:00.000Z");
     ("request_fingerprint", JStr "https://wits.worldbank.org/API/V1/SDMX/V21")].

Definition sample_macro : Row :=
  list_to_map
    [("date", JStr "2020"); ("country_iso3", JStr "IND");
     ("indicator_code", JStr "NY.GDP.MKTP.CD"); ("indicator_name", JStr "GDP");
     ("value", JNum (Num (Qc_of_Z 2671595))); ("unit", JStr "USD");
     ("source_id", JStr "worldbank"); ("retrieval_ts", JStr "2024-01-01T00:00:00.000Z");
     ("request_fingerprint", JStr "https://api.worldbank.org/v2")].

End Validators.

(** ** assets/services/wits.js: normalisation *)

Module Wits.
Import Str JS.

(** [v.k] where [v] has been found truthy, so the read cannot throw. *)
Definition prop_of (v : JVal) (k : string) : JVal := default JUndefined (prop v k).

(** [typeof v === 'object'] for a truthy [v] *)
Definition is_object (v : JVal) : bool :=
  match v with JArr _ | JObj _ | JDocument _ => true | _ => false end.

(** [arr[0]] *)
Definition first (v : JVal) : JVal :=
  match v with
  | JArr (x :: _) => x
  | _ => JUndefined
  end.

(** The loop over [Object.values(ds.series)]; [None] is the [TypeError] of
    [s.observations] on a series that is [null]. *)
Fixpoint series_observations (series : list JVal) (obs : list JVal)
  : option (list JVal) :=
  match series with
  | [] => Some obs
  | s :: rest =>
      match prop s "observations" with
      | None => None
      | Some so =>
          series_observations rest
            (if truthy so then obs ++ Object_values so else obs)
      end
  end.

Definition extractObservations (data : JVal) : option (list JVal) :=
  match data with
  | JArr items => Some items
  | _ =>
      let wrapped :=
        match List.find (fun key => is_array (prop_of data key))
                        ["Dataset"; "data"; "wits"; "Data"] with
        | Some key => Some (Object_values (prop_of data key))
        | None => Some []
        end in
      let fallback :=
        if truthy data && is_object data then wrapped else Some [] in
      if truthy data && truthy (prop_of data "dataSets")
         && is_array (prop_of data "dataSets") then
        let ds := first (prop_of data "dataSets") in
        if truthy ds && truthy (prop_of ds "observations") then
          Some (Object_values (prop_of ds "observations"))
        else if truthy ds && truthy (prop_of ds "series") then
          series_observations (Object_values (prop_of ds "series")) []
        else fallback
      else fallback
  end.

(** An observation that is an object, or any value other than [null] and
    [undefined]: one whose properties can be read. *)
Definition readable (obs : JVal) : Prop := obs <> JNull /\ obs <> JUndefined.

Section Normalise.
Context `{Builtins}.

Definition mapFlow (code : JVal) : string :=
  let c := toUpperCase (to_text code) in
  if includes c "EXPORT" || String.eqb c "X" || String.eqb c "2" then "EXPORT"
  else if includes c "IMPORT" || String.eqb c "M" || String.eqb c "1" then "IMPORT"
  else c.

(** [parseFloat(obs.Value) || null] *)
Definition value_or_null (v : JVal) : JVal :=
  or_else (JNum (parseFloat (to_text v))) JNull.

(** The object literal pushed for one observation; [None] is the
    [TypeError] of reading a property of an observation that is [null] or
    [undefined]. *)
Definition normalise_row (obs : JVal) (datasource url ts : string)
  : option Validators.Row :=
  match obs with
  | JUndefined | JNull => None
  | _ =>
      let get := prop_of obs in
      Some (list_to_map
        [("date", or_else (get "year") (or_else (get "TimePeriod") (JStr "")));
         ("frequency", JStr "A");
         ("reporter_iso3",
            or_else (get "ReporterISO3") (or_else (get "reporter") (JStr "")));
         ("partner_iso3",
            or_else (get "PartnerISO3") (or_else (get "partner") (JStr "")));
         ("flow",
            JStr (mapFlow (or_else (get "TradeFlowCode")
                                   (or_else (get "Indicator") (JStr "")))));
         ("product_level",
            JStr (if is_str (get "ProductCode") "TOTAL"
                     || is_str (get "ProductCode") "999999"
                  then "TOTAL" else "GROUP"));
         ("product_code", or_else (get "ProductCode") (JStr "TOTAL"));
         ("product_name",
            or_else (get "ProductDescription") (or_else (get "Product") (JStr "")));
         ("value_usd", value_or_null (get "Value"));
         ("unit", JStr "USD");
         ("source_id", JStr ("wits:" +:+ datasource));
         ("retrieval_ts", JStr ts);
         ("request_fingerprint", JStr url)])
  end.

(** The loop [for (const obs of observations) rows.push({...})]. *)
Fixpoint push_rows (observations : list JVal) (datasource url ts : string)
    (rows : list Validators.Row) : option (list Validators.Row) :=
  match observations with
  | [] => Some rows
  | obs :: rest =>
      match normalise_row obs datasource url ts with
      | None => None
      | Some row => push_rows rest datasource url ts (rows ++ [row])
      end
  end.

(** [normaliseWitsResponse(rawData, datasource, url)]; [ts] is the text of
    the current time, [None] an uncaught [TypeError]. *)
Definition normaliseWitsResponse (rawData : JVal) (datasource url ts : string)
  : option (list Validators.Row) :=
  if negb (truthy rawData) then Some []
  else
    match extractObservations rawData with
    | None => None
    | Some observations => push_rows observations datasource url ts []
    end.

End Normalise.

End Wits.

(** ** assets/workers/model.worker.js: the forecasting routines

    The worker's copies of [seasonalNaive], [holtWinters], [rollingEval],
    [calcRMSE] and [calcMAPE] (the same code as assets/services/modeling.js,
    up to [!=] for [!==]). A series is a list whose entries are numbers or
    [null]; numbers are exact rationals. The season length is a positive
    integer: the properties below assume [1 <= seasonPeriod]. *)

Module Modeling.
Import JS.
Open Scope Qc_scope.

Abbreviation Series := (list (option Qc)).

(** [values[i]]; every index the routines read is within the array. *)
Definition item (values : Series) (i : nat) : option Qc :=
  default None (values !! i).

(** Number of a loop counter. *)
Definition num (k : nat) : Qc := Qc_of_Z (Z.of_nat k).

(** [Math.ceil(x)] *)
Definition Math_ceil (x : Qc) : Qc := Qc_of_Z (Qceiling x).

(** [arr.slice(start, end)], with the clamping of negative and oversized
    bounds. *)
Definition slice {A} (arr : list A) (start stop : Z) : list A :=
  let len := Z.of_nat (length arr) in
  let clamp i := if (i <? 0)%Z then Z.max (len + i) 0 else Z.min i len in
  let a := clamp start in
  let b := clamp stop in
  take (Z.to_nat (b - a)) (drop (Z.to_nat a) arr).

(** [arr.slice(start)] *)
Definition slice_from {A} (arr : list A) (start : Z) : list A :=
  slice arr start (Z.of_nat (length arr)).

(** [diffs.reduce((a, b) => a + b, 0)] *)
Definition sum (l : list Qc) : Qc := fold_left Qcplus l 0.

(** The body of the first loop of [seasonalNaive]. *)
Definition push_diff (values : Series) (seasonPeriod : nat)
    (diffs : list Qc) (i : nat) : list Qc :=
  match item values i, item values (i - seasonPeriod) with
  | Some a, Some b => diffs ++ [a - b]
  | _, _ => diffs
  end.

Definition avg_trend (diffs : list Qc) : Qc :=
  if (0 <? length diffs)%nat then sum diffs / num (length diffs) else 0.

(** The body of the forecast loop of [seasonalNaive]. *)
Definition push_naive (values : Series) (seasonPeriod : nat) (avgTrend : Qc)
    (forecast : Series) (h : nat) : Series :=
  let n := length values in
  let sIdx := (Z.of_nat n - Z.of_nat seasonPeriod
               + (Z.of_nat h - 1) `mod` Z.of_nat seasonPeriod)%Z in
  let base :=
    if ((0 <=? sIdx) && (sIdx <? Z.of_nat n))%Z
    then item values (Z.to_nat sIdx) else item values (n - 1) in
  forecast ++ [match base with
               | Some b => Some (b + avgTrend * Math_ceil (num h / num seasonPeriod))
               | None => None
               end].

Definition seasonalNaive (values : Series) (seasonPeriod horizon : nat) : Series :=
  let n := length values in
  if (n <? seasonPeriod + 1)%nat then replicate horizon None
  else
    let diffs :=
      fold_left (push_diff values seasonPeriod)
                (seq seasonPeriod (n - seasonPeriod)) [] in
    let avgTrend := avg_trend diffs in
    fold_left (push_naive values seasonPeriod avgTrend) (seq 1 horizon) [].

(** [b || 0] for an array entry *)
Definition or_zero (b : option Qc) : Qc :=
  match b with
  | Some x => if Qc_eq_bool x 0 then 0 else x
  | None => 0
  end.

(** [arr.reduce((a, b) => a + (b || 0), 0)] *)
Definition sum_or_zero (arr : Series) : Qc :=
  fold_left (fun a b => a + or_zero b) arr 0.

Record Smoothing := mkSmoothing {
  alpha : Qc; beta : Qc; gamma : Qc; seasonPeriod : nat; horizon : nat
}.

(** The worker's defaults [{ alpha = 0.3, beta = 0.1, gamma = 0.2,
    seasonPeriod = 1, horizon = 5 }]. *)
Definition default_smoothing : Smoothing :=
  mkSmoothing (Q2Qc (3 # 10)) (Q2Qc (1 # 10)) (Q2Qc (2 # 10)) 1 5.

(** The variables [level], [trend] and [seasonal] of [holtWinters]. *)
Record HW := mkHW { level : Qc; trend : Qc; seasonal : list Qc }.

(** [seasonal[i]], for [i] below the season length *)
Definition season_at (seasonal : list Qc) (i : nat) : Qc :=
  default 0 (seasonal !! i).

(** The state before the fitting loop. *)
Definition hw_init (values : Series) (s : nat) : HW :=
  let n := length values in
  let level := sum_or_zero (slice values 0 (Z.of_nat s)) / num s in
  let trend :=
    if (2 * s <=? n)%nat then
      let a1 := sum_or_zero (slice values 0 (Z.of_nat s)) / num s in
      let a2 := sum_or_zero (slice values (Z.of_nat s) (2 * Z.of_nat s)) / num s in
      (a2 - a1) / num s
    else 0 in
  let seasonal :=
    if (1 <? s)%nat
    then fold_left (fun seasonal i => <[i := or_zero (item values i) - level]> seasonal)
                   (seq 0 s) (replicate s 0)
    else replicate s 0 in
  mkHW level trend seasonal.

(** One turn of the fitting loop [for (let t = 0; t < n; t++)]. *)
Definition hw_step (p : Smoothing) (values : Series) (st : HW) (t : nat) : HW :=
  match item values t with
  | None => st
  | Some v =>
      let s := seasonPeriod p in
      let sIdx := (t mod s)%nat in
      let pL := level st in
      let level' :=
        alpha p * (v - season_at (seasonal st) sIdx)
        + (1 - alpha p) * (level st + trend st) in
      let trend' := beta p * (level' - pL) + (1 - beta p) * trend st in
      let seasonal' :=
        if (1 <? s)%nat
        then <[sIdx := gamma p * (v - level')
                       + (1 - gamma p) * season_at (seasonal st) sIdx]> (seasonal st)
        else seasonal st in
      mkHW level' trend' seasonal'
  end.

Definition hw_fit (p : Smoothing) (values : Series) : HW :=
  fold_left (hw_step p values) (seq 0 (length values))
            (hw_init values (seasonPeriod p)).

(** The body of the forecast loop of [holtWinters]. *)
Definition push_hw (p : Smoothing) (n : nat) (st : HW) (fc : Series) (h : nat)
  : Series :=
  let s := seasonPeriod p in
  fc ++ [Some (level st + trend st * num h
               + (if (1 <? s)%nat
                  then season_at (seasonal st) ((n + h - 1) mod s)
                  else 0))].

Definition holtWinters (values : Series) (p : Smoothing) : Series :=
  let n := length values in
  if (n <? 2 * seasonPeriod p)%nat
  then seasonalNaive values (seasonPeriod p) (horizon p)
  else fold_left (push_hw p n (hw_fit p values)) (seq 1 (horizon p)) [].

(** [Math.abs(x)] *)
Definition Math_abs (x : Qc) : Qc := if Qclt_le_dec x 0 then - x else x.

(** The loops of [calcRMSE] and [calcMAPE] carry the pair [(s, c)]; a
    prediction read past the end of [p] is [undefined], which [!= null]
    rejects like [null]. *)
Definition rmse_step (a p : Series) (sc : Qc * nat) (i : nat) : Qc * nat :=
  match item a i, item p i with
  | Some x, Some y => (sc.1 + (x - y) * (x - y), S sc.2)
  | _, _ => sc
  end.

Definition mape_step (a p : Series) (sc : Qc * nat) (i : nat) : Qc * nat :=
  match item a i, item p i with
  | Some x, Some y =>
      if Qc_eq_bool x 0 then sc else (sc.1 + Math_abs ((x - y) / x), S sc.2)
  | _, _ => sc
  end.

Section Metrics.
Context `{Builtins}.

Definition calcRMSE (a p : Series) : option Qc :=
  let sc := fold_left (rmse_step a p) (seq 0 (length a)) (0, 0%nat) in
  if (0 <? sc.2)%nat then Some (Math_sqrt (sc.1 / num sc.2)) else None.

Definition calcMAPE (a p : Series) : option Qc :=
  let sc := fold_left (mape_step a p) (seq 0 (length a)) (0, 0%nat) in
  if (0 <? sc.2)%nat then Some (sc.1 / num sc.2 * Qc_of_Z 100) else None.

Record Diagnostics := mkDiagnostics {
  rmse : option Qc; mape : option Qc; residuals : list Qc
}.

(** [values.filter(v => v !== null)] *)
Definition clean_of (values : Series) : list Qc := omap id values.

(** [rollingEval(values, testSize, fcFn)]. The forecast function is a
    callback that may throw ([None]); the outer [None] is that exception
    passing through [rollingEval]. *)
Definition rollingEval (values : Series) (testSize : Z)
    (fcFn : Series -> option Series) : option Diagnostics :=
  let clean := clean_of values in
  let len := Z.of_nat (length clean) in
  if (len <? testSize + 3)%Z then Some (mkDiagnostics None None [])
  else
    let train := slice clean 0 (len - testSize) in
    let test := slice_from clean (len - testSize) in
    match fcFn (map Some train) with
    | None => None
    | Some pred =>
        Some (mkDiagnostics
                (calcRMSE (map Some test) pred)
                (calcMAPE (map Some test) pred)
                (imap (fun i v => v - or_zero (item pred i)) test))
    end.

End Metrics.

(** *** The seasonal-naive forecast in the words of the design document *)

(** The valid period-over-period-by-season differences: each observation
    minus the one a season earlier, where both are present. *)
Definition season_differences (values : Series) (s : nat) : list Qc :=
  omap (fun pair => match pair with
                    | (Some later, Some earlier) => Some (later - earlier)
                    | _ => None
                    end)
       (zip (drop s values) values).

(** The mean of a list of numbers, 0 for the empty list. *)
Definition mean (l : list Qc) : Qc :=
  match l with
  | [] => 0
  | _ => fold_right Qcplus 0 l / num (length l)
  end.

(** The last season of the history. *)
Definition last_season (values : Series) (s : nat) : Series :=
  drop (length values - s) values.

(** Forecast step [h] (from 1): the base value of the same season, taken
    cyclically from the last season, plus the trend times
    [ceil(h / s)]; no forecast where the base value is missing. *)
Definition naive_step (values : Series) (s : nat) (h : nat) : option Qc :=
  match item (last_season values s) ((h - 1) mod s) with
  | Some base =>
      Some (base + mean (season_differences values s)
                   * Qc_of_Z (Qceiling (num h / num s)%Qc))
  | None => None
  end.

(** *** Random walk with drift *)

(** Forecast step [h] of a random walk with drift: the last observation
    plus [h] times the drift. *)
Definition random_walk_with_drift (last drift : Qc) (horizon : nat) : Series :=
  map (fun h => Some (last + drift * num h)) (seq 1 horizon).

(** The series and the smoothing constants of the worked example. *)
Definition example_series : Series :=
  [Some (Qc_of_Z 100); Some (Qc_of_Z 110); Some (Qc_of_Z 121);
   Some (Q2Qc (1331 # 10))].

Definition example_smoothing (horizon : nat) : Smoothing :=
  mkSmoothing 1 0 0 1 horizon.

End Modeling.

(** ** assets/services/cache.js: invalidation *)

Module CacheAdmin.
Import JS Runtime Platform.

(** [invalidate(key)]; a [sessionStorage] that throws is ignored. *)
Definition invalidate (key : string) : M unit :=
  writes (with_mem (fun m => delete key m));;
  let* readable := reads (fun w => session_reads (env w)) in
  if readable
  then writes (with_session (fun s => delete ("cache:" +:+ key) s))
  else ret tt.

(** [clear()]: the memory tier is emptied and every stored item whose key
    starts with "cache:" is removed. *)
Definition clear : M unit :=
  writes (with_mem (fun _ => ∅));;
  let* readable := reads (fun w => session_reads (env w)) in
  if readable
  then writes (with_session
                 (fun s => filter (fun kv => String.prefix "cache:" kv.1 = false) s))
  else ret tt.

End CacheAdmin.

(** ** assets/services/errors.js: banners *)

Module ErrorBanner.
Import JS.

Record Banner := mkBanner { level : string; text : string; dismissible : bool }.

(** [err.message || 'An unexpected error occurred.'] *)
Definition message_or_default (msg : string) : string :=
  if String.eqb msg "" then "An unexpected error occurred." else msg.

(** [errorToBanner(err)] for an [AppError] ([inl]) or another exception
    ([inr]). *)
Definition errorToBanner (err : Errors.AppError + NativeExn) : Banner :=
  match err with
  | inl e =>
      if Errors.instanceof e Errors.CCorsError
      then mkBanner "warn" (Errors.uiMessage e) true
      else if Errors.instanceof e Errors.CRateLimitError
      then mkBanner "info" (Errors.uiMessage e) false
      else if Errors.instanceof e Errors.CServerError
      then mkBanner "warn" (Errors.uiMessage e) true
      else if Errors.instanceof e Errors.CNetworkError
      then mkBanner "error"
             "You appear to be offline. Showing pre-fetched WITS data." true
      else if Errors.instanceof e Errors.CSchemaValidationError
      then mkBanner "warn" (Errors.uiMessage e) true
      else if Errors.instanceof e Errors.CPayloadTooLargeError
      then mkBanner "info" (Errors.uiMessage e) true
      else mkBanner "error" (message_or_default (Errors.message e)) true
  | inr n => mkBanner "error" (message_or_default (ex_message n)) true
  end.

End ErrorBanner.

(** ** More vocabulary for [robustFetch] *)

Module FetchCases.
Import Str JS Runtime Platform Fetchers.

(** The network gives the next requests for [url] the outcomes [os], in
    this order. *)
Definition replies (w : World) (url : string) (os : list FetchOutcome) : Prop :=
  forall k o, os !! k = Some o -> net (env w) (fetches w + k)%nat url = o.

(** The exception the [catch] block takes for a blocked or offline request:
    a [TypeError] whose message contains "Failed to fetch". *)
Definition transport_failure (e : NativeExn) : bool :=
  String.eqb (ex_name e) "TypeError" && includes (ex_message e) "Failed to fetch".

(** A successful response whose declared length exceeds the ceiling. *)
Definition oversized (r : Response) : Prop :=
  retried r = false /\ ok r = true /\ too_large (content_length r) = true.

(** An attempt that ends in an exception [e] of the platform other than a
    transport failure: the request is rejected with it, or the body of an
    accepted response cannot be read. *)
Definition fails_with (responseType : string) (o : FetchOutcome) (e : NativeExn)
  : Prop :=
  transport_failure e = false /\
  (o = Rejects e \/
   exists r, o = Responds r /\ retried r = false /\ ok r = true /\
             too_large (content_length r) = false /\
             read_body responseType r = inl e).

(** The back-off delays of the turns [attempt], [attempt + 1], ... of [n]
    turns, the random source having been drawn [k] times before. *)
Fixpoint backoff_delays (e : Env) (n : nat) (attempt : Z) (k : nat) : list Qc :=
  match n with
  | O => []
  | S n' => backoff_delay e attempt k :: backoff_delays e n' (attempt + 1) (S k)
  end.

(** The error the [catch] block makes of such an exception. *)
Definition soft_error (url : string) (e : NativeExn) : Errors.AppError :=
  Errors.NetworkError (ex_message e) (Errors.mkNetOpts (Some url) None None).

(** [lastErr] after a run of such attempts. *)
Fixpoint last_soft_error (url : string) (es : list NativeExn)
    (lastErr : option Errors.AppError) : option Errors.AppError :=
  match es with
  | [] => lastErr
  | e :: rest => last_soft_error url rest (Some (soft_error url e))
  end.

(** A response whose JSON body cannot be parsed. *)
Definition unparsable (status : Z) : Response :=
  mkResponse status None None
             (inl (mkNativeExn "SyntaxError" "Unexpected token < in JSON"))
             (inr "<html>").

Definition world_offline : World :=
  mkWorld
    (mkEnv (fun k => 1000 + Z.of_nat k)
           (fun _ _ => Rejects (mkNativeExn "TypeError" "Failed to fetch"))
           (fun _ => Q2Qc (1 # 2)) false true true (mkOverrides None None))
    ∅ ∅ 0 0 0 [] [] [].

(** A browser whose [sessionStorage] throws on every access. *)
Definition world_no_storage : World :=
  mkWorld
    (mkEnv (fun k => 1000 + Z.of_nat k)
           (fun _ _ => Rejects (mkNativeExn "TypeError" "Failed to fetch"))
           (fun _ => Q2Qc (1 # 2)) true false false (mkOverrides None None))
    ∅ ∅ 0 0 0 [] [] [].

(** A request that is blocked while the browser is online. *)
Definition world_blocked : World := scripted [].

(** A response that declares a body of 20 MB. *)
Definition huge : Response :=
  mkResponse 200 None (Some "20000000") (inr sample_payload) (inr "").

Definition world_huge : World := scripted [Responds huge].

(** A 429 that asks for seven seconds, then the payload. *)
Definition slow_down : Response :=
  mkResponse 429 (Some "7") None (inr JNull) (inr "").

Definition world_slow_down : World :=
  scripted [Responds slow_down; Responds (plain 200 sample_payload)].

(** Four responses whose body is HTML, not JSON. *)
Definition html_pages : list FetchOutcome :=
  [Responds (unparsable 200); Responds (unparsable 200);
   Responds (unparsable 200); Responds (unparsable 200)].

(** An entry that expired before the clock started. *)
Definition world_stale : World :=
  with_mem (fun _ => {[ "k" := mkEntry (JStr "old") 500 ]}) world_offline.

End FetchCases.


(** ** assets/services/wits.js: the WITS client *)

Module WitsClient.
Import JS Runtime Platform Fetchers QueryPlanner.

Definition BASE : string := "https://wits.worldbank.org/API/V1/SDMX/V21".

(** A destructured parameter with its default ['all'], which an absent key
    takes. *)
Definition dim (params : Params) (d : string) : string :=
  default "all" (params !! d).

(** [WITS.DATA.json(datasource, params)] of endpoints.js *)
Definition json (ds : string) (params : Params) : string :=
  BASE +:+ "/datasource/" +:+ ds +:+
  "/reporter/" +:+ dim params "reporter" +:+
  "/year/" +:+ dim params "year" +:+
  "/partner/" +:+ dim params "partner" +:+
  "/product/" +:+ dim params "product" +:+
  "/indicator/" +:+ dim params "indicator" +:+ "?format=JSON".

(** One entry of the array [fetchWitsData] returns; [error] is present on
    failed entries only. *)
Record Result := mkResult {
  r_url : string; r_data : JVal; r_status : string; r_error : option string
}.

(** [{ responseType: 'json', cacheTtlMs: 60 * 60 * 1000 }] *)
Definition fetch_opts : Options :=
  mkOptions (Some (60 * 60 * 1000)) None (Some "json") None.

(** Reading [err.name] of [undefined] *)
Definition undefined_has_no_name : NativeExn :=
  mkNativeExn "TypeError" "Cannot read properties of undefined (reading 'name')".

Section Client.
Context `{Builtins}.

(** The [catch (err)] block of the loop: [logError(err)], then the failed
    entry. An exception of the platform has no [code]; its log line reads
    undefined there. Logging [undefined] throws. *)
Definition failed (url : string) (err : Thrown) : M (NativeExn + Result) :=
  match err with
  | ThApp e =>
      logError e;;
      ret (inr (mkResult url JNull "failed" (Some (Errors.message e))))
  | ThNative n =>
      writes (fun w =>
        with_errlog
          (let log' := errlog w ++
                       [Errors.mkLogEntry (ex_name n) (ex_message n) "undefined"] in
           if (Errors.MAX_LOG <? length log')%nat then tail log' else log') w);;
      ret (inr (mkResult url JNull "failed" (Some (ex_message n))))
  | ThUndefined => ret (inl undefined_has_no_name)
  end.

(** The loop [for (const q of queries)]. *)
Fixpoint fetch_queries (queries : list Query) (results : list Result)
  : M (Thrown + list Result) :=
  match queries with
  | [] => ret (inr results)
  | q :: rest =>
      let url := json (datasource q) (QueryPlanner.params q) in
      track "wits" "fetch" [("url", JStr url)];;
      let* r := robustFetch url fetch_opts in
      match r with
      | inr data => fetch_queries rest (results ++ [mkResult url data "ok" None])
      | inl err =>
          let* entry := failed url err in
          match entry with
          | inl e => ret (inl (ThNative e))
          | inr res => fetch_queries rest (results ++ [res])
          end
      end
  end.

(** [fetchWitsData(datasource, params, yearRange)]; [inl] is what the
    promise is rejected with. *)
Definition fetchWitsData (ds : string) (params : Params) (yearRange : Z * Z)
  : M (Thrown + list Result) :=
  match chunk ds params yearRange with
  | inl e => ret (inl (ThApp e))
  | inr queries => fetch_queries queries []
  end.

End Client.

(** A settled entry: delivered, or failed with the error's message and no
    data. *)
Definition settled (r : Result) : Prop :=
  (r_status r = "ok" /\ r_error r = None) \/
  (r_status r = "failed" /\ r_data r = JNull /\ is_Some (r_error r)).

End WitsClient.

(** ** Vocabulary for the accuracy metrics *)

Module Metrics.
Import Modeling.
Open Scope Qc_scope.

(** A position where [calcRMSE] finds both an actual and a predicted
    value. *)
Definition comparable_at (a p : Series) (i : nat) : bool :=
  match item a i, item p i with
  | Some _, Some _ => true
  | _, _ => false
  end.

(** An actual value that [calcMAPE] can divide by. *)
Definition nonzero (v : option Qc) : bool :=
  match v with
  | Some x => negb (Qc_eq_bool x 0)
  | None => false
  end.

End Metrics.

(** * Properties *)

(** ** Cache and request executor *)

Section FetchFacts.
Import JS Runtime Platform Fetchers.
Context `{Builtins}.

(** Symbolic execution of the stateful primitives. *)
Ltac run :=
  repeat first
    [ progress unfold bind, ret, reads, writes, track, fetch, sleep, logError,
        Math_random, Date_now, backoff, sleep_before_retry
    | progress cbn [rate_limit_wait flag_retryBaseMs flag_maxRetries
                    with_mem with_session with_ticks with_fetches with_randoms
                    with_sleeps with_events with_errlog
                    env mem session ticks fetches randoms sleeps events errlog
                    fst snd negb] ].

(** *** The cache *)

(** [get] touches neither the network nor the sleep and error logs. *)
Lemma get_session_quiet key w r w' :
  Cache.get_session key w = (r, w') -> quiet w w'.
Proof.
  unfold Cache.get_session, quiet. run.
  destruct (session_reads (env w)); run; [|by intros [= _ <-]].
  destruct (session w !! ("cache:" +:+ key)) as [parsed|]; run;
    [|by intros [= _ <-]].
  destruct (clock (env w) (ticks w) <? expires parsed); run;
    by intros [= _ <-].
Qed.

Lemma get_fallback_quiet key w v w' :
  Cache.get_fallback key w = (v, w') -> quiet w w'.
Proof.
  unfold Cache.get_fallback, bind.
  destruct (Cache.get_session key w) as [[x|] w1] eqn:Hs;
    apply get_session_quiet in Hs; run; by intros [= _ <-].
Qed.

Lemma get_quiet key w v w' : Cache.get key w = (v, w') -> quiet w w'.
Proof.
  unfold Cache.get. run.
  destruct (mem w !! key) as [entry|]; run; [|apply get_fallback_quiet].
  destruct (clock (env w) (ticks w) <? expires entry); run.
  - by intros [= _ <-].
  - intros Hfb. by apply get_fallback_quiet in Hfb.
Qed.

(** A live entry of the memory tier answers at once. *)
Lemma get_memory_hit key w entry :
  mem w !! key = Some entry ->
  clock (env w) (ticks w) < expires entry ->
  Cache.get key w =
  (value entry,
   with_events (push_event (mkEvent "cache" "cache_hit"
                              [("store", JStr "memory"); ("key", JStr key)])
                           (events w))
               (with_ticks (S (ticks w)) w)).
Proof.
  intros Hmem Hlive. unfold Cache.get. run. rewrite Hmem. run.
  apply Z.ltb_lt in Hlive. rewrite Hlive. run. reflexivity.
Qed.

(** What [get] returns is the value the memory tier then holds, unless it
    is a miss. *)
Lemma get_returns_memory key w v w' :
  Cache.get key w = (v, w') -> v <> JUndefined ->
  exists entry, mem w' !! key = Some entry /\ value entry = v.
Proof.
  intros Hget Hv.
  assert (Hfb : forall w0, Cache.get_fallback key w0 = (v, w') ->
            exists entry, mem w' !! key = Some entry /\ value entry = v).
  { intros w0. unfold Cache.get_fallback, Cache.get_session. run.
    destruct (session_reads (env w0)); run; [|by intros [= <- _]].
    destruct (session w0 !! ("cache:" +:+ key)) as [parsed|]; run;
      [|by intros [= <- _]].
    destruct (clock (env w0) (ticks w0) <? expires parsed); run;
      [|by intros [= <- _]].
    intros [= <- <-]. exists parsed. run. by rewrite lookup_insert_eq. }
  revert Hget. unfold Cache.get. run.
  destruct (mem w !! key) as [entry|] eqn:Hmem; run; [|apply Hfb].
  destruct (clock (env w) (ticks w) <? expires entry); run; [|apply Hfb].
  intros [= <- <-]. exists entry. run. done.
Qed.

(** *** One turn of the retry loop *)

Lemma try_block_retried w url key ttl rt attempt r host :
  net (env w) (fetches w) url = Responds r ->
  retried r = true ->
  URL_hostname url = inr host ->
  exists w',
    try_block url key ttl rt attempt w = (TryContinue (retry_error host r), w') /\
    after_retries w w' 1 (backoff_count [r])
                  (retry_delays (env w) [r] attempt (randoms w)).
Proof.
  intros Hnet Hr Hhost. unfold try_block. run. rewrite Hnet. run.
  unfold retried in Hr.
  unfold retry_error, backoff_count, retry_delays, retry_after_seconds.
  cbn [List.filter].
  destruct (status r =? 429) eqn:E429.
  - rewrite Hhost. run.
    destruct (parseInt10 (header_or_zero (retry_after r))) as [n|]; run.
    + destruct (0 <? n); run; eexists; (split; [reflexivity|]);
        repeat split; try reflexivity; cbn; lia.
    + eexists; (split; [reflexivity|]);
        repeat split; try reflexivity; cbn; lia.
  - simpl in Hr. rewrite Hr, Hhost. run.
    eexists; (split; [reflexivity|]); repeat split; try reflexivity; cbn; lia.
Qed.

(** An accepted response: the payload is cached and returned, nothing is
    slept. *)
Lemma try_block_delivers w url key ttl rt attempt r data :
  net (env w) (fetches w) url = Responds r ->
  delivers rt r data ->
  exists w',
    try_block url key ttl rt attempt w = (TryReturn data, w') /\
    env w' = env w /\ fetches w' = S (fetches w) /\
    randoms w' = randoms w /\ sleeps w' = sleeps w /\ errlog w' = errlog w /\
    mem w' = <[key := mkEntry data (clock (env w) (ticks w) + ttl)]> (mem w).
Proof.
  intros Hnet (Hr & Hok & Hsize & Hbody). unfold try_block. run.
  rewrite Hnet. run. unfold retried in Hr.
  apply orb_false_elim in Hr as [-> ->]. rewrite Hok, Hsize, Hbody.
  unfold Cache.set. run.
  destruct (session_writes (env w)); run; eexists; (split; [reflexivity|]);
    repeat split; reflexivity.
Qed.

(** [try_block] returns a payload only after storing it under [key]. *)
Lemma try_block_return_cached w url key ttl rt attempt data w' :
  try_block url key ttl rt attempt w = (TryReturn data, w') ->
  exists entry, mem w' !! key = Some entry /\ value entry = data.
Proof.
  unfold try_block. run.
  destruct (net (env w) (fetches w) url) as [r|e]; run; [|discriminate].
  destruct (status r =? 429).
  { destruct (URL_hostname url); run; [discriminate|].
    destruct (parseInt10 (header_or_zero (retry_after r))) as [n|]; run;
      [destruct (0 <? n); run|]; discriminate. }
  destruct (500 <=? status r).
  { destruct (URL_hostname url); run; discriminate. }
  destruct (negb (ok r)).
  { destruct (URL_hostname url); run; discriminate. }
  destruct (too_large (content_length r)).
  { destruct (URL_hostname url); run; discriminate. }
  destruct (read_body rt r) as [e|d]; run; [discriminate|].
  unfold Cache.set. run.
  destruct (session_writes (env w)); run; intros [= <- <-]; run;
    eexists; (split; [apply lookup_insert_eq | reflexivity]).
Qed.

(** A 4xx response other than 429: the [try] block throws a
    [NetworkError] built with [retryable: false] and nothing else. *)
Lemma try_block_client_failure w url key ttl rt attempt r host :
  net (env w) (fetches w) url = Responds r ->
  client_failure r ->
  URL_hostname url = inr host ->
  exists w',
    try_block url key ttl rt attempt w =
      (TryThrow (ExApp (Errors.NetworkError
                   ("HTTP " +:+ pretty (status r) +:+ " from " +:+ url)
                   (Errors.mkNetOpts (Some host) (Some false) None))), w') /\
    env w' = env w /\ mem w' = mem w /\ fetches w' = S (fetches w) /\
    randoms w' = randoms w /\ sleeps w' = sleeps w /\ errlog w' = errlog w.
Proof.
  intros Hnet [[Hlo Hhi] H429] Hhost. unfold try_block. run. rewrite Hnet. run.
  replace (status r =? 429) with false by (symmetry; apply Z.eqb_neq; lia).
  replace (500 <=? status r) with false by (symmetry; apply Z.leb_gt; lia).
  unfold ok.
  replace (status r <=? 299) with false by (symmetry; apply Z.leb_gt; lia).
  rewrite andb_false_r. cbn [negb]. rewrite Hhost. run.
  eexists; (split; [reflexivity|]); repeat split; reflexivity.
Qed.

(** The [catch] block rethrows an error that is not retryable at once. *)
Lemma catch_block_not_retryable w url attempt maxRetries msg opts :
  Errors.o_retryable opts = Some false ->
  catch_block url attempt maxRetries (ExApp (Errors.NetworkError msg opts)) w
  = (Threw (ThApp (Errors.NetworkError msg opts)), w).
Proof.
  intros Hopts. unfold catch_block. cbn [Errors.instanceof Errors.NetworkError
    Errors.cls exn_name Errors.name Errors.retryable].
  rewrite Hopts. reflexivity.
Qed.

(** *** The retry loop *)

(** Once the bound is passed, or without fuel, the loop throws
    [lastErr]. *)
Lemma retry_loop_done fuel url key ttl rt maxRetries attempt lastErr w :
  maxRetries < attempt ->
  retry_loop fuel url key ttl rt maxRetries attempt lastErr w
  = (inl (throw_last lastErr), w).
Proof.
  intros Hgt. destruct fuel; [reflexivity|]. cbn [retry_loop].
  replace (attempt <=? maxRetries) with false by (symmetry; apply Z.leb_gt; lia).
  reflexivity.
Qed.

(** The loop has all the fuel it can use. *)
Lemma retry_loop_fuel fuel extra url key ttl rt maxRetries attempt lastErr w :
  (Z.to_nat (maxRetries + 1 - attempt) <= fuel)%nat ->
  retry_loop (fuel + extra) url key ttl rt maxRetries attempt lastErr w
  = retry_loop fuel url key ttl rt maxRetries attempt lastErr w.
Proof.
  revert attempt lastErr w.
  induction fuel as [|fuel IH]; intros attempt lastErr w Hfuel.
  - rewrite !retry_loop_done by lia. reflexivity.
  - cbn [retry_loop Nat.add]. destruct (attempt <=? maxRetries) eqn:Hle;
      [|reflexivity].
    apply Z.leb_le in Hle. unfold bind.
    destruct (try_block url key ttl rt attempt w) as [[data|e|ex] w1];
      [reflexivity | apply IH; lia |].
    destruct (catch_block url attempt maxRetries ex w1) as [[t|e] w2];
      [reflexivity | apply IH; lia].
Qed.

Lemma answers_head w url r rs :
  answers w url (r :: rs) -> net (env w) (fetches w) url = Responds r.
Proof.
  intros Hans. specialize (Hans 0%nat r eq_refl).
  by rewrite Nat.add_0_r in Hans.
Qed.

Lemma answers_tail w w' url r rs :
  answers w url (r :: rs) -> env w' = env w -> fetches w' = (fetches w + 1)%nat ->
  answers w' url rs.
Proof.
  intros Hans Henv Hf k x Hk. rewrite Henv, Hf.
  replace (fetches w + 1 + k)%nat with (fetches w + S k)%nat by lia.
  by apply Hans.
Qed.

Lemma answers_app_l w url rs rs' :
  answers w url (rs ++ rs') -> answers w url rs.
Proof.
  intros Hans k x Hk. apply Hans. by apply lookup_app_l_Some.
Qed.

(** A run of retried responses: one fetch and one sleep per response, and
    the loop goes on after them. *)
Lemma retry_loop_retries rs :
  forall fuel url key ttl rt maxRetries attempt lastErr w host,
  URL_hostname url = inr host ->
  answers w url rs ->
  Forall (fun r => retried r = true) rs ->
  (length rs <= fuel)%nat ->
  attempt + Z.of_nat (length rs) - 1 <= maxRetries ->
  exists w',
    retry_loop fuel url key ttl rt maxRetries attempt lastErr w
    = retry_loop (fuel - length rs) url key ttl rt maxRetries
                 (attempt + Z.of_nat (length rs))
                 (last_retry_error host rs lastErr) w' /\
    after_retries w w' (length rs) (backoff_count rs)
                  (retry_delays (env w) rs attempt (randoms w)).
Proof.
  induction rs as [|r rs IH];
    intros fuel url key ttl rt maxRetries attempt lastErr w host
           Hhost Hans Hall Hfuel Hbound.
  - exists w. cbn [length last_retry_error backoff_count retry_delays List.filter].
    rewrite Nat.sub_0_r, Z.add_0_r. split; [reflexivity|].
    unfold after_retries. rewrite !Nat.add_0_r, app_nil_r. done.
  - cbn [length] in *. destruct fuel as [|fuel]; [lia|].
    inversion Hall as [|? ? Hr Hrest]; subst.
    cbn [retry_loop].
    replace (attempt <=? maxRetries) with true by (symmetry; apply Z.leb_le; lia).
    destruct (try_block_retried w url key ttl rt attempt r host
                (answers_head _ _ _ _ Hans) Hr Hhost) as (w1 & Htry & Hw1).
    unfold bind at 1. rewrite Htry.
    destruct Hw1 as (Henv & Hmem & Hsess & Hticks & Hfetch & Hrand & Hsleep).
    destruct (IH fuel url key ttl rt maxRetries (attempt + 1)
                 (Some (retry_error host r)) w1 host Hhost
                 (answers_tail _ _ _ _ _ Hans Henv Hfetch) Hrest
                 ltac:(lia) ltac:(lia))
      as (w2 & Hloop & Hw2).
    exists w2. split.
    + rewrite Hloop. cbn [last_retry_error Nat.sub].
      replace (attempt + 1 + Z.of_nat (length rs))
        with (attempt + Z.of_nat (S (length rs))) by lia.
      reflexivity.
    + destruct Hw2 as (Henv2 & Hmem2 & Hsess2 & Hticks2 & Hfetch2 & Hrand2 & Hsleep2).
      unfold after_retries. rewrite Henv2, Hmem2, Hsess2, Hticks2, Hfetch2,
        Hrand2, Hsleep2, Henv, Hmem, Hsess, Hticks, Hfetch, Hrand, Hsleep.
      repeat split; try lia.
      * unfold backoff_count. cbn [List.filter].
        destruct (retry_after_seconds r); cbn [length]; lia.
      * rewrite <- app_assoc. f_equal.
        unfold backoff_count. cbn [retry_delays List.filter].
        destruct (retry_after_seconds r); cbn [length app];
          do 2 f_equal; lia.
Qed.

(** *** [robustFetch] *)

Lemma cold_get w key :
  cold w key -> exists w0, Cache.get key w = (JUndefined, w0) /\ quiet w w0.
Proof.
  unfold cold. destruct (Cache.get key w) as [v w0] eqn:Hget. simpl.
  intros ->. exists w0. split; [reflexivity|]. by eapply get_quiet.
Qed.

(** After a miss [robustFetch] is the retry loop from turn 0. *)
Lemma robustFetch_miss url opts w w0 :
  Cache.get (cache_key url opts) w = (JUndefined, w0) ->
  robustFetch url opts w =
  retry_loop (Z.to_nat (max_retries opts w + 1)) url (cache_key url opts)
             (default (30 * 60 * 1000) (cacheTtlMs opts))
             (default "json" (responseType opts))
             (max_retries opts w) 0 None w0.
Proof.
  intros Hget. unfold robustFetch, bind, reads. by rewrite Hget.
Qed.

Lemma answers_quiet w w0 url rs :
  answers w url rs -> quiet w w0 -> answers w0 url rs.
Proof.
  intros Hans (Henv & Hf & _) k r Hk. rewrite Henv, Hf. by apply Hans.
Qed.

(** Retried responses within the bound, then an accepted one: the payload
    is returned after one sleep per retried response. *)
Theorem robustFetch_retries_then_delivers url opts w host rs r data :
  URL_hostname url = inr host ->
  cold w (cache_key url opts) ->
  answers w url (rs ++ [r]) ->
  Forall (fun r => retried r = true) rs ->
  Z.of_nat (length rs) <= max_retries opts w ->
  delivers (default "json" (responseType opts)) r data ->
  exists w',
    robustFetch url opts w = (inr data, w') /\
    fetches w' = (fetches w + length rs + 1)%nat /\
    sleeps w' = sleeps w ++ retry_delays (env w) rs 0 (randoms w) /\
    exists entry, mem w' !! cache_key url opts = Some entry /\ value entry = data.
Proof.
  intros Hhost Hcold Hans Hall Hbound Hdel.
  destruct (cold_get _ _ Hcold) as (w0 & Hget & Hq).
  rewrite (robustFetch_miss _ _ _ _ Hget).
  pose proof (answers_quiet _ _ _ _ Hans Hq) as Hans0.
  destruct Hq as (Henv0 & Hf0 & Hr0 & Hs0 & _).
  destruct (retry_loop_retries rs (Z.to_nat (max_retries opts w + 1)) url
              (cache_key url opts) (default (30 * 60 * 1000) (cacheTtlMs opts))
              (default "json" (responseType opts)) (max_retries opts w) 0 None
              w0 host Hhost (answers_app_l _ _ _ _ Hans0) Hall
              ltac:(lia) ltac:(lia))
    as (w1 & -> & Hw1).
  destruct Hw1 as (Henv1 & _ & _ & _ & Hf1 & Hr1 & Hs1).
  assert (Hnet : net (env w1) (fetches w1) url = Responds r).
  { rewrite Henv1, Hf1. apply Hans0. rewrite lookup_app_r by lia.
    by rewrite Nat.sub_diag. }
  destruct (Z.to_nat (max_retries opts w + 1) - length rs)%nat as [|fuel] eqn:Hfuel;
    [lia|].
  cbn [retry_loop].
  replace (0 + Z.of_nat (length rs) <=? max_retries opts w) with true
    by (symmetry; apply Z.leb_le; lia).
  destruct (try_block_delivers w1 url (cache_key url opts)
              (default (30 * 60 * 1000) (cacheTtlMs opts))
              (default "json" (responseType opts)) (0 + Z.of_nat (length rs))
              r data Hnet Hdel)
    as (w2 & Htry & Henv2 & Hf2 & Hr2 & Hs2 & _ & Hmem2).
  unfold bind. rewrite Htry. exists w2. split; [reflexivity|].
  split; [lia|]. split.
  - rewrite Hs2, Hs1, Hs0, Henv0, Hr0. reflexivity.
  - eexists. rewrite Hmem2. split; [apply lookup_insert_eq | reflexivity].
Qed.

Lemma last_retry_error_last host rs r lastErr :
  last_retry_error host (rs ++ [r]) lastErr = Some (retry_error host r).
Proof.
  revert lastErr. induction rs as [|x rs IH]; intros lastErr; [reflexivity|].
  cbn [app last_retry_error]. apply IH.
Qed.

(** One more retried response than the bound allows retries: the loop runs
    out and the error of the last response is thrown. *)
Theorem robustFetch_retries_exhausted url opts w host rs r :
  URL_hostname url = inr host ->
  cold w (cache_key url opts) ->
  answers w url (rs ++ [r]) ->
  Forall (fun r => retried r = true) (rs ++ [r]) ->
  Z.of_nat (length rs) = max_retries opts w ->
  exists w',
    robustFetch url opts w = (inl (ThApp (retry_error host r)), w') /\
    fetches w' = (fetches w + length rs + 1)%nat /\
    sleeps w' = sleeps w ++ retry_delays (env w) (rs ++ [r]) 0 (randoms w).
Proof.
  intros Hhost Hcold Hans Hall Hbound.
  destruct (cold_get _ _ Hcold) as (w0 & Hget & Hq).
  rewrite (robustFetch_miss _ _ _ _ Hget).
  pose proof (answers_quiet _ _ _ _ Hans Hq) as Hans0.
  destruct Hq as (Henv0 & Hf0 & Hr0 & Hs0 & _).
  destruct (retry_loop_retries (rs ++ [r]) (Z.to_nat (max_retries opts w + 1)) url
              (cache_key url opts) (default (30 * 60 * 1000) (cacheTtlMs opts))
              (default "json" (responseType opts)) (max_retries opts w) 0 None
              w0 host Hhost Hans0 Hall
              ltac:(rewrite length_app; simpl; lia)
              ltac:(rewrite length_app; simpl; lia))
    as (w1 & -> & Hw1).
  destruct Hw1 as (Henv1 & _ & _ & _ & Hf1 & Hr1 & Hs1).
  rewrite retry_loop_done by (rewrite length_app; simpl; lia).
  rewrite last_retry_error_last. exists w1. split; [reflexivity|].
  rewrite length_app in Hf1. simpl in Hf1. split; [lia|].
  rewrite Hs1, Hs0, Henv0, Hr0. reflexivity.
Qed.

(** C2. With [maxRetries = 3] (the option, or the flag when the option is
    absent), a URL the [URL] constructor accepts and a cache that misses:
    on the answers 429, 429, 200 (the last one accepted, its body reading
    as [data]) [robustFetch] returns [data] after three requests and
    exactly two sleeps, which are the back-off delays of turns 0 and 1
    unless a 429 carries a positive Retry-After; on the answers 500, 500,
    500, 500 the loop is exhausted after four requests and the
    [ServerError] of the last answer is thrown. *)
Theorem retry_scenarios url opts host (wa wb : World)
    (r0 r1 r2 s0 s1 s2 s3 : Response) (data : JVal) :
  URL_hostname url = inr host ->
  max_retries opts wa = 3 -> max_retries opts wb = 3 ->
  cold wa (cache_key url opts) -> cold wb (cache_key url opts) ->
  answers wa url [r0; r1; r2] ->
  status r0 = 429 -> status r1 = 429 -> status r2 = 200 ->
  delivers (default "json" (responseType opts)) r2 data ->
  answers wb url [s0; s1; s2; s3] ->
  status s0 = 500 -> status s1 = 500 -> status s2 = 500 -> status s3 = 500 ->
  (exists wa',
     robustFetch url opts wa = (inr data, wa') /\
     fetches wa' = (fetches wa + 3)%nat /\
     sleeps wa' = sleeps wa ++ retry_delays (env wa) [r0; r1] 0 (randoms wa) /\
     length (sleeps wa') = (length (sleeps wa) + 2)%nat /\
     (retry_after r0 = None -> retry_after r1 = None ->
      sleeps wa' = sleeps wa ++ [backoff_delay (env wa) 0 (randoms wa);
                                 backoff_delay (env wa) 1 (S (randoms wa))])) /\
  (exists wb' e,
     robustFetch url opts wb = (inl (ThApp e), wb') /\
     e = Errors.ServerError host 500 /\
     Errors.name e = "ServerError" /\
     fetches wb' = (fetches wb + 4)%nat /\
     length (sleeps wb') = (length (sleeps wb) + 4)%nat).
Proof.
  intros Hhost Hma Hmb Hca Hcb Hansa H0 H1 H2 Hdel Hansb Hs0 Hs1 Hs2 Hs3.
  split.
  - destruct (robustFetch_retries_then_delivers url opts wa host [r0; r1] r2 data
                Hhost Hca Hansa) as (wa' & Hrun & Hf & Hs & _).
    { repeat constructor; unfold retried; by rewrite ?H0, ?H1. }
    { rewrite Hma. simpl. lia. }
    { exact Hdel. }
    exists wa'. split; [exact Hrun|]. split; [simpl in Hf; lia|].
    split; [exact Hs|].
    assert (Hlen : forall l, length (retry_delays (env wa) [r0; r1] 0 l) = 2%nat).
    { intros l. cbn [retry_delays].
      destruct (retry_after_seconds r0), (retry_after_seconds r1); reflexivity. }
    split.
    + rewrite Hs, length_app, Hlen. reflexivity.
    + intros Hn0 Hn1. rewrite Hs. f_equal. cbn [retry_delays].
      unfold retry_after_seconds. rewrite H0, H1, Hn0, Hn1. reflexivity.
  - destruct (robustFetch_retries_exhausted url opts wb host [s0; s1; s2] s3
                Hhost Hcb Hansb) as (wb' & Hrun & Hf & Hs).
    { repeat constructor; unfold retried; by rewrite ?Hs0, ?Hs1, ?Hs2, ?Hs3. }
    { rewrite Hmb. reflexivity. }
    exists wb', (Errors.ServerError host 500). split.
    { rewrite Hrun. unfold retry_error. by rewrite Hs3. }
    split; [reflexivity|]. split; [reflexivity|]. split; [simpl in Hf; lia|].
    rewrite Hs, length_app. f_equal. cbn [app retry_delays].
    unfold retry_after_seconds. by rewrite Hs0, Hs1, Hs2, Hs3.
Qed.

(** C5, as the code has it. For a URL the [URL] constructor accepts, a
    cache that misses and a retry bound of at least 0, a 4xx answer other
    than 429 makes [robustFetch] throw at once, after that single request
    and without sleeping, drawing a random number or logging. What it throws
    is a [NetworkError] with code NETWORK that is not retryable but is
    recoverable: there is no class of its own for client errors. *)
Theorem robustFetch_client_failure url opts w host r :
  URL_hostname url = inr host ->
  cold w (cache_key url opts) ->
  0 <= max_retries opts w ->
  net (env w) (fetches w) url = Responds r ->
  client_failure r ->
  exists w' e,
    robustFetch url opts w = (inl (ThApp e), w') /\
    e = Errors.NetworkError
          ("HTTP " +:+ pretty (status r) +:+ " from " +:+ url)
          (Errors.mkNetOpts (Some host) (Some false) None) /\
    Errors.name e = "NetworkError" /\ Errors.code e = "NETWORK" /\
    Errors.recoverable e = true /\ Errors.retryable e = false /\
    fetches w' = S (fetches w) /\ sleeps w' = sleeps w /\
    randoms w' = randoms w /\ errlog w' = errlog w.
Proof.
  intros Hhost Hcold Hbound Hnet Hcf.
  destruct (cold_get _ _ Hcold) as (w0 & Hget & Hq).
  rewrite (robustFetch_miss _ _ _ _ Hget).
  destruct Hq as (Henv0 & Hf0 & Hr0 & Hs0 & He0).
  destruct (Z.to_nat (max_retries opts w + 1)) as [|fuel] eqn:Hfuel; [lia|].
  cbn [retry_loop].
  replace (0 <=? max_retries opts w) with true by (symmetry; apply Z.leb_le; lia).
  rewrite <- Henv0, <- Hf0 in Hnet.
  destruct (try_block_client_failure w0 url (cache_key url opts)
              (default (30 * 60 * 1000) (cacheTtlMs opts))
              (default "json" (responseType opts)) 0 r host Hnet Hcf Hhost)
    as (w1 & Htry & _ & _ & Hf1 & Hr1 & Hs1 & He1).
  unfold bind. rewrite Htry. rewrite catch_block_not_retryable by reflexivity.
  eexists w1, _. split; [reflexivity|].
  repeat split; try reflexivity; congruence.
Qed.

(** A payload [robustFetch] returns is the value the memory tier holds
    under the key when it returns. *)
Lemma robustFetch_returns_cached url opts w w1 data :
  robustFetch url opts w = (inr data, w1) ->
  exists entry, mem w1 !! cache_key url opts = Some entry /\ value entry = data.
Proof.
  unfold robustFetch, bind, reads.
  destruct (Cache.get (cache_key url opts) w) as [cached w0] eqn:Hget.
  assert (Hloop : forall fuel attempt lastErr wx,
            retry_loop fuel url (cache_key url opts)
              (default (30 * 60 * 1000) (cacheTtlMs opts))
              (default "json" (responseType opts)) (max_retries opts w)
              attempt lastErr wx = (inr data, w1) ->
            exists entry,
              mem w1 !! cache_key url opts = Some entry /\ value entry = data).
  { induction fuel as [|fuel IH]; intros attempt lastErr wx;
      cbn [retry_loop]; [discriminate|].
    destruct (attempt <=? max_retries opts w); [|discriminate].
    unfold bind.
    destruct (try_block url (cache_key url opts)
                (default (30 * 60 * 1000) (cacheTtlMs opts))
                (default "json" (responseType opts)) attempt wx)
      as [[d|e|ex] wy] eqn:Htry.
    - intros [= -> ->]. by eapply try_block_return_cached.
    - apply IH.
    - destruct (catch_block url attempt (max_retries opts w) ex wy)
        as [[t|e] wz]; [discriminate | apply IH]. }
  destruct cached; try (intros [= <- <-];
    eapply get_returns_memory; [exact Hget | discriminate]).
  apply Hloop.
Qed.

(** Whenever a first call returns a payload, a second call with the same
    URL and options that finds the memory tier as the first call left it,
    and reads the clock before the entry expires, returns the same payload
    from the memory tier: no request, no sleep, no random draw, no error
    logged and no attempt event, only a cache-hit event. However many
    requests the first call needed, the second adds none. *)
Lemma second_call_served_from_cache url opts w w1 w2 data :
  robustFetch url opts w = (inr data, w1) ->
  data <> JUndefined ->
  mem w2 = mem w1 ->
  (forall entry, mem w1 !! cache_key url opts = Some entry ->
                 clock (env w2) (ticks w2) < expires entry) ->
  exists w2',
    robustFetch url opts w2 = (inr data, w2') /\
    fetches w2' = fetches w2 /\ sleeps w2' = sleeps w2 /\
    randoms w2' = randoms w2 /\ errlog w2' = errlog w2 /\
    events w2' = push_event
                   (mkEvent "cache" "cache_hit"
                      [("store", JStr "memory");
                       ("key", JStr (cache_key url opts))])
                   (events w2).
Proof.
  intros Hfirst Hdata Hmem Hlive.
  destruct (robustFetch_returns_cached _ _ _ _ _ Hfirst)
    as (entry & Hentry & Hvalue).
  assert (Hhit := get_memory_hit (cache_key url opts) w2 entry
                    ltac:(by rewrite Hmem) (Hlive entry Hentry)).
  eexists. split.
  - unfold robustFetch, bind, reads. rewrite Hhit, Hvalue.
    destruct data; try reflexivity. by destruct Hdata.
  - repeat split; reflexivity.
Qed.

(** A miss followed by an accepted first answer: one request, no sleep. *)
Lemma robustFetch_first_answer_delivers url opts w r data :
  cold w (cache_key url opts) ->
  0 <= max_retries opts w ->
  net (env w) (fetches w) url = Responds r ->
  delivers (default "json" (responseType opts)) r data ->
  exists w1,
    robustFetch url opts w = (inr data, w1) /\
    fetches w1 = S (fetches w) /\ sleeps w1 = sleeps w.
Proof.
  intros Hcold Hbound Hnet Hdel.
  destruct (cold_get _ _ Hcold) as (w0 & Hget & Hq).
  rewrite (robustFetch_miss _ _ _ _ Hget).
  destruct Hq as (Henv0 & Hf0 & _ & Hs0 & _).
  destruct (Z.to_nat (max_retries opts w + 1)) as [|fuel] eqn:Hfuel; [lia|].
  cbn [retry_loop].
  replace (0 <=? max_retries opts w) with true by (symmetry; apply Z.leb_le; lia).
  rewrite <- Henv0, <- Hf0 in Hnet.
  destruct (try_block_delivers w0 url (cache_key url opts)
              (default (30 * 60 * 1000) (cacheTtlMs opts))
              (default "json" (responseType opts)) 0 r data Hnet Hdel)
    as (w1 & Htry & _ & Hf1 & _ & Hs1 & _).
  unfold bind. rewrite Htry. exists w1. split; [reflexivity|].
  split; congruence.
Qed.

(** C3, as the code has it. Let a first call miss the cache and have its
    first answer accepted, the payload [data] not being [undefined]; let a
    second call with the same URL and options find the memory tier as the
    first call left it, with no request issued in between, and read the
    clock before the entry expires. Then both calls return [data] and
    exactly one request is issued in total: the second call is answered
    from the memory tier with no request, no sleep, no random draw, no
    error logged and no attempt event. *)
Theorem two_calls_one_request url opts w r data w2 :
  cold w (cache_key url opts) ->
  0 <= max_retries opts w ->
  net (env w) (fetches w) url = Responds r ->
  delivers (default "json" (responseType opts)) r data ->
  data <> JUndefined ->
  mem w2 = mem (robustFetch url opts w).2 ->
  fetches w2 = fetches (robustFetch url opts w).2 ->
  (forall entry,
     mem (robustFetch url opts w).2 !! cache_key url opts = Some entry ->
     clock (env w2) (ticks w2) < expires entry) ->
  (robustFetch url opts w).1 = inr data /\
  exists w2',
    robustFetch url opts w2 = (inr data, w2') /\
    fetches w2' = S (fetches w) /\
    fetches w2' = fetches w2 /\ sleeps w2' = sleeps w2 /\
    randoms w2' = randoms w2 /\ errlog w2' = errlog w2 /\
    events w2' = push_event
                   (mkEvent "cache" "cache_hit"
                      [("store", JStr "memory");
                       ("key", JStr (cache_key url opts))])
                   (events w2).
Proof.
  intros Hcold Hbound Hnet Hdel Hdata.
  destruct (robustFetch_first_answer_delivers url opts w r data
              Hcold Hbound Hnet Hdel) as (w1 & Hfirst & Hf1 & _).
  rewrite Hfirst. cbn [fst snd]. intros Hmem Hfetch Hlive.
  split; [reflexivity|].
  destruct (second_call_served_from_cache url opts w w1 w2 data
              Hfirst Hdata Hmem Hlive)
    as (w2' & Hsecond & Hf2 & Hrest).
  exists w2'. split; [exact Hsecond|]. split; [congruence|].
  split; [exact Hf2 | exact Hrest].
Qed.

End FetchFacts.

Section FetchExamples.
Import JS Runtime Platform Fetchers.

#[local] Existing Instance SampleBuiltins.sample.

Lemma sample_answers (script : list Response) :
  answers (scripted (map Responds script)) wits_url script.
Proof.
  intros k r Hk. cbn [scripted env net fetches Nat.add].
  revert k Hk. induction script as [|x xs IH]; intros [|k] Hk;
    try discriminate; simpl in *.
  - by injection Hk as ->.
  - by apply IH.
Qed.

Lemma retry_scenarios_witness :
  (robustFetch wits_url no_options world_429_429_200).1 = inr sample_payload /\
  length (sleeps (robustFetch wits_url no_options world_429_429_200).2) = 2%nat /\
  fetches (robustFetch wits_url no_options world_429_429_200).2 = 3%nat /\
  (robustFetch wits_url no_options world_500_x4).1
  = inl (ThApp (Errors.ServerError "wits.worldbank.org" 500)).
Proof.
  assert (Hhost : URL_hostname wits_url = inr "wits.worldbank.org")
    by (vm_compute; reflexivity).
  assert (Hca : cold world_429_429_200 (cache_key wits_url no_options))
    by (vm_compute; reflexivity).
  assert (Hcb : cold world_500_x4 (cache_key wits_url no_options))
    by (vm_compute; reflexivity).
  assert (Hdel : delivers (default "json" (responseType no_options))
                   (plain 200 sample_payload) sample_payload)
    by (repeat split; reflexivity).
  destruct (retry_scenarios wits_url no_options "wits.worldbank.org"
              world_429_429_200 world_500_x4
              (plain 429 JNull) (plain 429 JNull) (plain 200 sample_payload)
              (plain 500 JNull) (plain 500 JNull) (plain 500 JNull)
              (plain 500 JNull) sample_payload
              Hhost eq_refl eq_refl Hca Hcb
              (sample_answers [plain 429 JNull; plain 429 JNull;
                               plain 200 sample_payload])
              eq_refl eq_refl eq_refl Hdel
              (sample_answers [plain 500 JNull; plain 500 JNull;
                               plain 500 JNull; plain 500 JNull])
              eq_refl eq_refl eq_refl eq_refl)
    as [(wa' & Ha & Hfa & _ & Hla & _) (wb' & e & Hb & -> & _)].
  rewrite Ha, Hb. cbn [fst snd]. rewrite Hla, Hfa. repeat split.
Defined.

Lemma robustFetch_client_failure_witness :
  exists w' e,
    robustFetch wits_url no_options world_404 = (inl (ThApp e), w') /\
    Errors.name e = "NetworkError" /\ Errors.code e = "NETWORK" /\
    Errors.recoverable e = true /\ Errors.retryable e = false /\
    fetches w' = 1%nat /\ sleeps w' = [].
Proof.
  assert (Hhost : URL_hostname wits_url = inr "wits.worldbank.org")
    by (vm_compute; reflexivity).
  assert (Hcold : cold world_404 (cache_key wits_url no_options))
    by (vm_compute; reflexivity).
  assert (Hbound : 0 <= max_retries no_options world_404)
    by (vm_compute; discriminate).
  assert (Hcf : client_failure (plain 404 JNull))
    by (unfold client_failure; simpl; lia).
  destruct (robustFetch_client_failure wits_url no_options world_404
              "wits.worldbank.org" (plain 404 JNull)
              Hhost Hcold Hbound eq_refl Hcf)
    as (w' & e & Hrun & _ & Hname & Hcode & Hrec & Hret & Hf & Hs & _).
  exists w', e. repeat split; assumption.
Defined.

(** C5, as the design document states it, fails: the error thrown for a
    404 is recoverable, and it is a [NetworkError]. *)
Lemma client_error_is_recoverable :
  exists e,
    (robustFetch wits_url no_options world_404).1 = inl (ThApp e) /\
    Errors.name e = "NetworkError" /\
    Errors.recoverable e = true /\
    ~ client_error_flags e.
Proof.
  eexists. split; [vm_compute; reflexivity|].
  split; [reflexivity|]. split; [reflexivity|].
  intros [Hrec _]. discriminate Hrec.
Qed.

Lemma two_calls_one_request_witness :
  let first := robustFetch wits_url no_options world_200 in
  let second := robustFetch wits_url no_options first.2 in
  first.1 = inr sample_payload /\ second.1 = inr sample_payload /\
  fetches second.2 = 1%nat.
Proof.
  intros first second.
  assert (Hcold : cold world_200 (cache_key wits_url no_options))
    by (vm_compute; reflexivity).
  assert (Hbound : 0 <= max_retries no_options world_200)
    by (vm_compute; discriminate).
  assert (Hdel : delivers (default "json" (responseType no_options))
                   (plain 200 sample_payload) sample_payload)
    by (repeat split; reflexivity).
  assert (Hdata : sample_payload <> JUndefined) by discriminate.
  assert (Hlive : forall entry,
            mem first.2 !! cache_key wits_url no_options = Some entry ->
            clock (env first.2) (ticks first.2) < expires entry).
  { intros entry Hentry. vm_compute in Hentry. injection Hentry as <-.
    vm_compute. reflexivity. }
  destruct (two_calls_one_request wits_url no_options world_200
              (plain 200 sample_payload) sample_payload first.2
              Hcold Hbound eq_refl Hdel Hdata eq_refl eq_refl Hlive)
    as (Hfirst & w2' & Hsecond & Hone & _).
  split; [exact Hfirst|]. unfold second. rewrite Hsecond. cbn [fst snd].
  split; [reflexivity | exact Hone].
Defined.

(** C3, as the design document states it, fails: a first call that
    succeeds after one retry and a second call within the TTL issue two
    requests in total, not one. *)
Lemma two_calls_two_requests :
  let first := robustFetch wits_url no_options world_429_200 in
  let second := robustFetch wits_url no_options first.2 in
  first.1 = inr sample_payload /\
  (exists entry,
     mem first.2 !! cache_key wits_url no_options = Some entry /\
     clock (env first.2) (ticks first.2) < expires entry) /\
  second.1 = inr sample_payload /\
  fetches second.2 = 2%nat /\
  fetches second.2 <> 1%nat.
Proof.
  intros first second.
  split; [vm_compute; reflexivity|]. split.
  { eexists. split; [vm_compute; reflexivity | vm_compute; reflexivity]. }
  split; [vm_compute; reflexivity|].
  split; [vm_compute; reflexivity | vm_compute; discriminate].
Qed.

End FetchExamples.

(** ** QueryPlanner *)

Section PlannerFacts.
Import Str QueryPlanner.

Lemma legal_sub_queries_app ds params ys zs :
  legal_sub_queries ds params (ys ++ zs) =
  legal_sub_queries ds params ys ++ legal_sub_queries ds params zs.
Proof.
  unfold legal_sub_queries. by rewrite List.filter_app, map_app.
Qed.

Lemma years_nil y0 y1 : y1 < y0 -> years y0 y1 = [].
Proof.
  intros H. unfold years. replace (Z.to_nat (y1 - y0 + 1)) with 0%nat by lia.
  reflexivity.
Qed.

Lemma years_cons y0 y1 : y0 <= y1 -> years y0 y1 = y0 :: years (y0 + 1) y1.
Proof.
  intros H. unfold years.
  replace (Z.to_nat (y1 - y0 + 1)) with (S (Z.to_nat (y1 - (y0 + 1) + 1))) by lia.
  simpl. f_equal; [lia|].
  rewrite <- seq_shift, map_map. apply map_ext. intros i. lia.
Qed.

Lemma years_split y0 m y1 :
  y0 <= m + 1 -> m <= y1 -> years y0 y1 = years y0 m ++ years (m + 1) y1.
Proof.
  intros H0 H1.
  remember (Z.to_nat (m + 1 - y0)) as k eqn:Hk.
  revert y0 H0 Hk. induction k as [|k IH]; intros y0 H0 Hk.
  - assert (y0 = m + 1) as -> by lia. rewrite (years_nil (m + 1) m) by lia.
    reflexivity.
  - rewrite (years_cons y0 y1), (years_cons y0 m) by lia. simpl. f_equal.
    apply IH; lia.
Qed.

Lemma length_years y0 y1 : length (years y0 y1) = Z.to_nat (y1 - y0 + 1).
Proof. unfold years. by rewrite length_map, length_seq. Qed.

Lemma elem_of_years y0 y1 y : y ∈ years y0 y1 <-> y0 <= y <= y1.
Proof.
  unfold years. rewrite list_elem_of_fmap. split.
  - intros (i & -> & Hi). apply elem_of_seq in Hi. lia.
  - intros H. exists (Z.to_nat (y - y0)). split; [lia|].
    apply elem_of_seq. lia.
Qed.

(** The inner loop visits the years [yr..endY] in order; fuel beyond
    [endY - yr + 1] is never used. *)
Lemma year_loop_years fuel ds params yr endY chunks :
  (Z.to_nat (endY - yr + 1) <= fuel)%nat ->
  year_loop fuel ds params yr endY chunks =
  chunks ++ legal_sub_queries ds params (years yr endY).
Proof.
  revert yr chunks. induction fuel as [|fuel IH]; intros yr chunks Hf; simpl.
  - rewrite years_nil by lia. by rewrite app_nil_r.
  - destruct (Z.leb_spec yr endY) as [Hle|Hgt].
    + rewrite IH by lia. rewrite (years_cons yr endY) by lia.
      unfold legal_sub_queries at 2. simpl.
      destruct (valid (validate (with_year params yr))); simpl.
      * by rewrite <- app_assoc.
      * reflexivity.
    + rewrite years_nil by lia. by rewrite app_nil_r.
Qed.

Lemma year_loop_fuel fuel k ds params yr endY chunks :
  (Z.to_nat (endY - yr + 1) <= fuel)%nat ->
  year_loop (fuel + k) ds params yr endY chunks =
  year_loop fuel ds params yr endY chunks.
Proof. intros H. rewrite !year_loop_years by lia. reflexivity. Qed.

(** The outer loop walks the range in blocks of five years; together the
    blocks are the whole range, in order. *)
Lemma block_loop_years fuel ds params y y1 chunks :
  (Z.to_nat (y1 - y + 1) <= fuel)%nat ->
  block_loop fuel ds params y y1 chunks =
  chunks ++ legal_sub_queries ds params (years y y1).
Proof.
  revert y chunks. induction fuel as [|fuel IH]; intros y chunks Hf; simpl.
  - rewrite years_nil by lia. by rewrite app_nil_r.
  - destruct (Z.leb_spec y y1) as [Hle|Hgt].
    + rewrite year_loop_years by lia. rewrite IH by lia.
      rewrite <- app_assoc, <- legal_sub_queries_app. do 2 f_equal.
      destruct (Z.min_spec (y + 4) y1) as [[Hlt ->]|[Hge ->]].
      * replace (y + 5) with (y + 4 + 1) by lia. symmetry.
        apply years_split; lia.
      * rewrite (years_nil (y + 5) y1) by lia. by rewrite app_nil_r.
    + rewrite years_nil by lia. by rewrite app_nil_r.
Qed.

Lemma block_loop_fuel fuel k ds params y y1 chunks :
  (Z.to_nat (y1 - y + 1) <= fuel)%nat ->
  block_loop (fuel + k) ds params y y1 chunks =
  block_loop fuel ds params y y1 chunks.
Proof. intros H. rewrite !block_loop_years by lia. reflexivity. Qed.

(** [chunk] on a query that fails validation, in closed form. *)
Lemma chunk_invalid ds params y0 y1 :
  valid (validate params) = false ->
  chunk ds params (y0, y1) =
  match legal_sub_queries ds params (years y0 y1) with
  | [] => inl (Errors.WitsLimitError (default "undefined" (reason (validate params))))
  | q :: qs => inr (q :: qs)
  end.
Proof.
  intros Hv. unfold chunk. rewrite Hv. simpl.
  rewrite block_loop_years by lia. simpl.
  by destruct (legal_sub_queries ds params (years y0 y1)).
Qed.

(** Substituting the year leaves the other dimensions as they were. *)
Lemma is_all_with_year params yr d :
  d <> "year" -> is_all (with_year params yr) d = is_all params d.
Proof.
  intros Hd. unfold is_all, param_text, with_year.
  by rewrite lookup_insert_ne.
Qed.

(** The text of an integer starts with a digit or a minus sign. *)
Lemma pretty_N_go_head x s :
  (0 < x)%N ->
  exists c r, pretty_N_go x s = String c r /\ (48 <= N_of_ascii c <= 57)%N.
Proof.
  revert s. induction (N.lt_wf_0 x) as [x _ IH]. intros s Hx.
  rewrite pretty_N_go_step by done.
  destruct (decide (x `div` 10 = 0)%N) as [Hz|Hnz].
  - rewrite Hz, pretty_N_go_0. eexists _, _. split; [reflexivity|].
    unfold pretty_N_char. repeat case_match; vm_compute; split; discriminate.
  - apply IH; [apply N.div_lt; lia | by apply N.neq_0_lt_0].
Qed.

Lemma pretty_Z_head (z : Z) :
  exists c r, pretty z = String c r /\
    ((48 <= N_of_ascii c <= 57)%N \/ c = "-"%char).
Proof.
  destruct z as [|p|p]; unfold pretty, pretty_Z.
  - exists "0"%char, "". split; [reflexivity|]. left. simpl. lia.
  - unfold pretty, pretty_positive, pretty, pretty_N.
    destruct (decide (N.pos p = 0%N)); [lia|].
    destruct (pretty_N_go_head (N.pos p) "") as (c & r & -> & Hc); [lia|].
    eauto.
  - exists "-"%char. eexists. split; [reflexivity|]. by right.
Qed.

(** [String(yr)] is never the wildcard. *)
Lemma year_text_not_all (yr : Z) : toLowerCase (pretty yr) <> "all".
Proof.
  destruct (pretty_Z_head yr) as (c & r & -> & Hc). simpl. intros [= Hl _].
  unfold lower_char in Hl.
  destruct Hc as [Hc| ->]; [|discriminate].
  destruct ((65 <=? N_of_ascii c)%N && (N_of_ascii c <=? 90)%N) eqn:E.
  - apply andb_prop in E as [E1 E2]. apply N.leb_le in E1. lia.
  - subst c. simpl in Hc. lia.
Qed.

Lemma is_all_year_with_year params yr : is_all (with_year params yr) "year" = false.
Proof.
  unfold is_all, param_text, with_year. rewrite lookup_insert_eq. simpl.
  apply String.eqb_neq, year_text_not_all.
Qed.

(** [validate] in terms of the five wildcard flags: the third rule of the
    source can never fire, since the dimensions it inspects are those already
    found not to be ALL. *)
Lemma validate_valid params :
  valid (validate params) =
  (count_all params <=? 2)%nat &&
  negb (is_all params "reporter" && is_all params "partner").
Proof.
  unfold validate, count_all, DIMS. simpl.
  destruct (is_all params "reporter") eqn:Er, (is_all params "year") eqn:Ey,
    (is_all params "partner") eqn:Ep, (is_all params "product") eqn:Eo,
    (is_all params "indicator") eqn:Ei; simpl;
    rewrite ?Er, ?Ey, ?Ep, ?Eo, ?Ei; reflexivity.
Qed.

Lemma validate_reason_too_many params :
  (2 < count_all params)%nat ->
  reason (validate params) =
  Some (pretty (count_all params) +:+ " dimensions set to ALL; max 2 allowed.").
Proof.
  intros H. unfold validate. fold (count_all params).
  apply Nat.ltb_lt in H. by rewrite H.
Qed.

(** C4. A query with at most two of the five dimensions set to ALL (in any
    letter case, as the planner reads them) and not both reporter and partner
    set to ALL passes validation, and [chunk] returns it unchanged as a
    one-element plan, whatever the year range. *)
Theorem chunk_legal_query_unchanged ds params yearRange :
  (count_all params <= 2)%nat ->
  ~ (is_all params "reporter" = true /\ is_all params "partner" = true) ->
  chunk ds params yearRange = inr [mkQuery ds params].
Proof.
  intros Hc Hrp. unfold chunk. rewrite validate_valid.
  apply Nat.leb_le in Hc. rewrite Hc. simpl.
  destruct (is_all params "reporter"), (is_all params "partner"); simpl;
    try reflexivity.
  exfalso. by apply Hrp.
Qed.

Lemma chunk_legal_query_unchanged_witness :
  (count_all ind_chn <= 2)%nat /\
  ~ (is_all ind_chn "reporter" = true /\ is_all ind_chn "partner" = true) /\
  chunk "tradestats-trade" ind_chn (2000, 2024)
  = inr [mkQuery "tradestats-trade" ind_chn].
Proof.
  assert (H1 : (count_all ind_chn <= 2)%nat) by (vm_compute; lia).
  assert (H2 : ~ (is_all ind_chn "reporter" = true /\
                  is_all ind_chn "partner" = true))
    by (vm_compute; intros [H _]; discriminate H).
  split; [exact H1|]. split; [exact H2|].
  exact (chunk_legal_query_unchanged "tradestats-trade" ind_chn (2000, 2024) H1 H2).
Defined.

(** With reporter and partner both ALL no substitution of the year makes the
    query legal. *)
Lemma validate_reporter_partner_all params :
  is_all params "reporter" = true -> is_all params "partner" = true ->
  valid (validate params) = false.
Proof.
  intros Hr Hp. rewrite validate_valid, Hr, Hp. simpl. apply andb_false_r.
Qed.

Lemma legal_sub_queries_reporter_partner_all ds params ys :
  is_all params "reporter" = true -> is_all params "partner" = true ->
  legal_sub_queries ds params ys = [].
Proof.
  intros Hr Hp. unfold legal_sub_queries.
  induction ys as [|y ys IH]; simpl; [reflexivity|].
  rewrite validate_reporter_partner_all; [exact IH| |];
    by rewrite is_all_with_year.
Qed.

(** C1, as the code has it. A query with reporter = ALL and partner = ALL
    (year = ALL or not) is never decomposed: every per-year sub-query keeps
    both wildcards and fails [validate], the plan stays empty, and [chunk]
    throws [WitsLimitError] with the reason of the first validation, for
    every year range. *)
Theorem chunk_reporter_partner_all_throws ds params yearRange :
  is_all params "reporter" = true ->
  is_all params "partner" = true ->
  chunk ds params yearRange =
  inl (Errors.WitsLimitError (default "undefined" (reason (validate params)))) /\
  forall yr, valid (validate (with_year params yr)) = false.
Proof.
  intros Hr Hp. destruct yearRange as [y0 y1]. split.
  - rewrite chunk_invalid by by apply validate_reporter_partner_all.
    by rewrite legal_sub_queries_reporter_partner_all.
  - intros yr. apply validate_reporter_partner_all; by rewrite is_all_with_year.
Qed.

Lemma chunk_reporter_partner_all_throws_witness :
  is_all all_all_all "reporter" = true /\
  is_all all_all_all "partner" = true /\
  chunk "tradestats-trade" all_all_all (2000, 2024) =
  inl (Errors.WitsLimitError "3 dimensions set to ALL; max 2 allowed.").
Proof.
  assert (H1 : is_all all_all_all "reporter" = true) by reflexivity.
  assert (H2 : is_all all_all_all "partner" = true) by reflexivity.
  split; [exact H1|]. split; [exact H2|].
  exact (proj1 (chunk_reporter_partner_all_throws
                  "tradestats-trade" all_all_all (2000, 2024) H1 H2)).
Defined.

(** C1, as the design document states it, fails: on
    [reporter=all, year=all, partner=all] with the range 2000..2002 [chunk]
    returns no plan at all. *)
Lemma chunk_all_all_all_no_plan :
  is_all all_all_all "reporter" = true /\
  is_all all_all_all "partner" = true /\
  is_all all_all_all "year" = true /\
  chunk "tradestats-trade" all_all_all (2000, 2002) =
    inl (Errors.WitsLimitError "3 dimensions set to ALL; max 2 allowed.") /\
  ~ exists plan,
      chunk "tradestats-trade" all_all_all (2000, 2002) = inr plan /\
      per_year_plan "tradestats-trade" all_all_all (2000, 2002) plan.
Proof.
  assert (E : chunk "tradestats-trade" all_all_all (2000, 2002) =
    inl (Errors.WitsLimitError "3 dimensions set to ALL; max 2 allowed."))
    by (vm_compute; reflexivity).
  repeat split; try reflexivity; try exact E.
  intros (plan & Hplan & _). rewrite E in Hplan. discriminate Hplan.
Qed.

(** X19. Where the year is the wildcard in excess (three dimensions ALL, the year
    among them, reporter and partner not both), the decomposition is the one
    the design document describes: one legal sub-query per year of the
    range, in order. *)
Theorem chunk_splits_by_year ds params y0 y1 :
  count_all params = 3%nat ->
  is_all params "year" = true ->
  ~ (is_all params "reporter" = true /\ is_all params "partner" = true) ->
  y0 <= y1 ->
  exists plan, chunk ds params (y0, y1) = inr plan /\
               per_year_plan ds params (y0, y1) plan.
Proof.
  intros Hc Hy Hrp Hle.
  assert (Hsub : forall yr, valid (validate (with_year params yr)) = true).
  { intros yr. rewrite validate_valid.
    rewrite !is_all_with_year by discriminate.
    assert (count_all (with_year params yr) = 2%nat) as ->.
    { revert Hc. unfold count_all, DIMS. simpl.
      rewrite (is_all_with_year params yr "reporter"),
        (is_all_with_year params yr "partner"),
        (is_all_with_year params yr "product"),
        (is_all_with_year params yr "indicator") by discriminate.
      rewrite is_all_year_with_year, Hy.
      destruct (is_all params "reporter"), (is_all params "partner"),
        (is_all params "product"), (is_all params "indicator"); simpl; lia. }
    simpl. destruct (is_all params "reporter"), (is_all params "partner");
      try reflexivity. exfalso. by apply Hrp. }
  assert (Hl : legal_sub_queries ds params (years y0 y1) =
               map (fun yr => mkQuery ds (with_year params yr)) (years y0 y1)).
  { unfold legal_sub_queries. f_equal.
    induction (years y0 y1) as [|y ys IH]; simpl; [reflexivity|].
    by rewrite Hsub, IH. }
  exists (map (fun yr => mkQuery ds (with_year params yr)) (years y0 y1)).
  split.
  - rewrite chunk_invalid.
    + rewrite Hl, (years_cons y0 y1) by lia. reflexivity.
    + rewrite validate_valid, Hc. reflexivity.
  - split; [reflexivity|]. apply Forall_forall. intros q Hq.
    apply list_elem_of_In, list_elem_of_fmap in Hq as (yr & -> & _). apply Hsub.
Qed.

(** The dashboard's query with the product wildcarded as well: three
    wildcards, split into the years of the range. *)
Example chunk_three_wildcards :
  chunk "tradestats-trade" (<["product" := "ALL"]> ind_chn) (2000, 2002)
  = inr [mkQuery "tradestats-trade"
           (<["year" := "2000"]> (<["product" := "ALL"]> ind_chn));
         mkQuery "tradestats-trade"
           (<["year" := "2001"]> (<["product" := "ALL"]> ind_chn));
         mkQuery "tradestats-trade"
           (<["year" := "2002"]> (<["product" := "ALL"]> ind_chn))].
Proof. vm_compute. reflexivity. Qed.

(** Four wildcards: a year leaves three, every sub-query is dropped and the
    planner gives up. *)
Example chunk_four_wildcards :
  chunk "tradestats-trade"
        (<["product" := "all"]> (<["partner" := "all"]> ind_chn)) (2000, 2024)
  = inl (Errors.WitsLimitError "4 dimensions set to ALL; max 2 allowed.").
Proof. vm_compute. reflexivity. Qed.

End PlannerFacts.

(** ** Validators *)

Section ValidatorFacts.
Import JS Validators.
Context `{Builtins}.

(** The inner test of the required-field loop never succeeds: it asks for
    [null] of a value just found to be [undefined] or empty. *)
Lemma check_required_app nullable row errors f :
  check_required nullable row errors f =
  errors ++ (if is_undefined (field row f) || is_str (field row f) ""
             then ["Missing required field: " +:+ f] else []).
Proof.
  unfold check_required.
  destruct (field row f) as [| |b|n|s|l|o|x]; simpl;
    rewrite ?andb_false_r, ?app_nil_r; try reflexivity.
  destruct (String.eqb s ""); by rewrite ?andb_false_r, ?app_nil_r.
Qed.

Lemma required_loop nullable row fs errors :
  fold_left (check_required nullable row) fs errors =
  errors ++ flat_map (missing row) fs.
Proof.
  revert errors. induction fs as [|f fs IH]; intros errors; simpl.
  - by rewrite app_nil_r.
  - rewrite IH, check_required_app. by rewrite <- app_assoc.
Qed.

Lemma check_enum_app row f allowed label errors :
  check_enum row f allowed label errors = errors ++ enum_error row f allowed label.
Proof.
  unfold check_enum, enum_error.
  destruct (truthy (field row f) && negb (one_of allowed (field row f)));
    by rewrite ?app_nil_r.
Qed.

Lemma check_iso3_app row f errors :
  check_iso3 row f errors = errors ++ iso3_error row f.
Proof.
  unfold check_iso3, iso3_error.
  destruct (truthy (field row f) && length_not_3 (field row f));
    by rewrite ?app_nil_r.
Qed.

(** The error list of a trade record, piece by piece. *)
Lemma trade_errors row :
  errors (validateTradeFact row) =
  flat_map (missing row) TRADE_FACT_REQUIRED
  ++ enum_error row "frequency" VALID_FREQUENCIES "Invalid frequency: "
  ++ enum_error row "flow" VALID_FLOWS "Invalid flow: "
  ++ enum_error row "product_level" VALID_PRODUCT_LEVELS "Invalid product_level: "
  ++ iso3_error row "reporter_iso3" ++ iso3_error row "partner_iso3".
Proof.
  unfold validateTradeFact. cbn [errors].
  rewrite !check_iso3_app, !check_enum_app, required_loop.
  by rewrite <- !app_assoc.
Qed.

Lemma macro_errors row :
  errors (validateMacroFact row) =
  flat_map (missing row) MACRO_FACT_REQUIRED ++ iso3_error row "country_iso3".
Proof.
  unfold validateMacroFact. cbn [errors].
  by rewrite check_iso3_app, required_loop.
Qed.

Lemma valid_iff_no_errors_trade row :
  valid (validateTradeFact row) = true <-> errors (validateTradeFact row) = [].
Proof.
  unfold validateTradeFact. cbn [valid errors].
  rewrite Nat.eqb_eq. apply length_zero_iff_nil.
Qed.

Lemma valid_iff_no_errors_macro row :
  valid (validateMacroFact row) = true <-> errors (validateMacroFact row) = [].
Proof.
  unfold validateMacroFact. cbn [valid errors].
  rewrite Nat.eqb_eq. apply length_zero_iff_nil.
Qed.

Lemma field_insert_ne row k v f : k <> f -> field (<[k := v]> row) f = field row f.
Proof. intros Hne. unfold field. by rewrite lookup_insert_ne. Qed.

Lemma field_insert row k v : field (<[k := v]> row) k = v.
Proof. unfold field. by rewrite lookup_insert_eq. Qed.

Lemma field_delete row k : field (delete k row) k = JUndefined.
Proof. unfold field. by rewrite lookup_delete_eq. Qed.

(** Giving a field the value [null] can only remove its "missing" report and
    leaves those of the other fields alone. *)
Lemma missing_insert_null row k f :
  missing row f = [] -> missing (<[k := JNull]> row) f = [].
Proof.
  unfold missing. destruct (decide (k = f)) as [->|Hne].
  - by rewrite field_insert.
  - by rewrite field_insert_ne.
Qed.

Lemma flat_map_nil {A B} (g : A -> list B) (l : list A) :
  flat_map g l = [] <-> Forall (fun x => g x = []) l.
Proof.
  induction l as [|x l IH]; simpl.
  - split; [constructor | reflexivity].
  - split.
    + intros Hnil. apply app_eq_nil in Hnil as [Hx Hl].
      constructor; [exact Hx | by apply IH].
    + intros Hall. inversion Hall as [|? ? Hx Hl]; subst.
      rewrite Hx. simpl. by apply IH.
Qed.

Lemma missing_all_insert_null row k fs :
  flat_map (missing row) fs = [] ->
  flat_map (missing (<[k := JNull]> row)) fs = [].
Proof.
  rewrite !flat_map_nil. apply Forall_impl. intros f. apply missing_insert_null.
Qed.

(** C6. Take any record that passes validation: with its value field
    ([value_usd] of a trade record, [value] of a macro record) set to [null]
    it still passes. Take any record without a [source_id]: it fails, as a
    trade record and as a macro record, and the reported errors contain
    "Missing required field: source_id". *)
Theorem null_value_valid_missing_source_id_invalid (trade macro row : Row) :
  valid (validateTradeFact trade) = true ->
  valid (validateMacroFact macro) = true ->
  row !! "source_id" = None ->
  valid (validateTradeFact (<["value_usd" := JNull]> trade)) = true /\
  valid (validateMacroFact (<["value" := JNull]> macro)) = true /\
  (valid (validateTradeFact row) = false /\
   In "Missing required field: source_id" (errors (validateTradeFact row))) /\
  (valid (validateMacroFact row) = false /\
   In "Missing required field: source_id" (errors (validateMacroFact row))).
Proof.
  intros Ht Hm Hnone.
  apply valid_iff_no_errors_trade in Ht. apply valid_iff_no_errors_macro in Hm.
  rewrite trade_errors in Ht. rewrite macro_errors in Hm.
  repeat (apply app_eq_nil in Ht as [? Ht]). apply app_eq_nil in Hm as [? Hm].
  assert (Hmiss : missing row "source_id" = ["Missing required field: source_id"]).
  { unfold missing, field. by rewrite Hnone. }
  assert (Hin_t : In "Missing required field: source_id"
            (errors (validateTradeFact row))).
  { rewrite trade_errors. apply in_or_app. left. apply in_flat_map.
    exists "source_id". split; [unfold TRADE_FACT_REQUIRED; simpl; tauto|].
    rewrite Hmiss. by left. }
  assert (Hin_m : In "Missing required field: source_id"
            (errors (validateMacroFact row))).
  { rewrite macro_errors. apply in_or_app. left. apply in_flat_map.
    exists "source_id". split; [unfold MACRO_FACT_REQUIRED; simpl; tauto|].
    rewrite Hmiss. by left. }
  split; [|split; [|split; split]]; try assumption.
  - apply valid_iff_no_errors_trade. rewrite trade_errors.
    rewrite missing_all_insert_null by assumption.
    unfold enum_error, iso3_error in *.
    rewrite !field_insert_ne by discriminate.
    repeat match goal with Hx : _ = [] |- _ => rewrite Hx; clear Hx end.
    reflexivity.
  - apply valid_iff_no_errors_macro. rewrite macro_errors.
    rewrite missing_all_insert_null by assumption.
    unfold iso3_error in *. rewrite !field_insert_ne by discriminate.
    repeat match goal with Hx : _ = [] |- _ => rewrite Hx; clear Hx end.
    reflexivity.
  - destruct (valid (validateTradeFact row)) eqn:E; [|reflexivity].
    apply valid_iff_no_errors_trade in E. rewrite E in Hin_t. destruct Hin_t.
  - destruct (valid (validateMacroFact row)) eqn:E; [|reflexivity].
    apply valid_iff_no_errors_macro in E. rewrite E in Hin_m. destruct Hin_m.
Qed.

End ValidatorFacts.

Lemma null_value_valid_missing_source_id_invalid_witness :
  let H := SampleBuiltins.sample in
  let trade := Validators.sample_trade in
  let macro := Validators.sample_macro in
  Validators.valid (Validators.validateTradeFact
                      (<["value_usd" := JS.JNull]> trade)) = true /\
  Validators.valid (Validators.validateMacroFact
                      (<["value" := JS.JNull]> macro)) = true /\
  Validators.valid (Validators.validateTradeFact (delete "source_id" trade))
    = false /\
  Validators.errors (Validators.validateTradeFact (delete "source_id" trade))
    = ["Missing required field: source_id"].
Proof.
  intros H trade macro.
  assert (Ht : Validators.valid (Validators.validateTradeFact trade) = true)
    by (vm_compute; reflexivity).
  assert (Hm : Validators.valid (Validators.validateMacroFact macro) = true)
    by (vm_compute; reflexivity).
  assert (Hnone : delete "source_id" trade !! "source_id" = None)
    by apply lookup_delete_eq.
  destruct (null_value_valid_missing_source_id_invalid
              trade macro (delete "source_id" trade) Ht Hm Hnone)
    as (H1 & H2 & (H3 & _) & _).
  split; [exact H1|]. split; [exact H2|]. split; [exact H3|].
  vm_compute; reflexivity.
Defined.

(** ** WITS normalisation *)

Section WitsFacts.
Import JS Wits.
Context `{Builtins}.

Lemma normalise_row_readable obs datasource url ts :
  readable obs -> is_Some (normalise_row obs datasource url ts).
Proof. intros [Hn Hu]. destruct obs; try done; eexists; reflexivity. Qed.

(** The [value_usd] of the row built for a readable observation. *)
Lemma normalise_row_value obs datasource url ts row :
  normalise_row obs datasource url ts = Some row ->
  Validators.field row "value_usd" = value_or_null (prop_of obs "Value").
Proof.
  unfold normalise_row. intros Hrow.
  assert (forall v1 v2 v3 v4 v5 v6 v7 v8 v9 v10 v11 v12 v13 : JVal,
    Validators.field (list_to_map
      [("date", v1); ("frequency", v2); ("reporter_iso3", v3);
       ("partner_iso3", v4); ("flow", v5); ("product_level", v6);
       ("product_code", v7); ("product_name", v8); ("value_usd", v9);
       ("unit", v10); ("source_id", v11); ("retrieval_ts", v12);
       ("request_fingerprint", v13)]) "value_usd" = v9) as Hget
    by (intros; reflexivity).
  destruct obs; try discriminate Hrow; injection Hrow as <-; apply Hget.
Qed.

(** The push loop keeps one row per observation, in order. *)
Lemma push_rows_readable observations datasource url ts rows :
  Forall readable observations ->
  exists new,
    push_rows observations datasource url ts rows = Some (rows ++ new) /\
    Forall2 (fun obs row => normalise_row obs datasource url ts = Some row)
            observations new.
Proof.
  intros Hall. revert rows.
  induction Hall as [|obs rest Hobs _ IH]; intros rows; simpl.
  - exists []. split; [by rewrite app_nil_r | constructor].
  - destruct (normalise_row_readable obs datasource url ts Hobs) as [row Hrow].
    rewrite Hrow. destruct (IH (rows ++ [row])) as (new & Hpush & Hnew).
    exists (row :: new). split.
    + rewrite Hpush. by rewrite <- app_assoc.
    + by constructor.
Qed.

(** A value that is zero or not a number is falsy, so [|| null] replaces
    it. *)
Lemma value_or_null_zero v :
  parseFloat (to_text v) = Num (Qc_of_Z 0) \/ parseFloat (to_text v) = NaN ->
  value_or_null v = JNull.
Proof. unfold value_or_null, or_else. intros [-> | ->]; reflexivity. Qed.

(** C10. Let the payload hold a list of readable observations. The call
    returns one row per observation, and wherever [parseFloat] of the
    observation's [Value] is exactly 0 or NaN the row has
    [value_usd = null]: a reported zero is stored as missing. *)
Theorem normalise_zero_value_is_null
    (rawData : JVal) (datasource url ts : string)
    (observations : list JVal) (i : nat) (obs : JVal) :
  truthy rawData = true ->
  extractObservations rawData = Some observations ->
  Forall readable observations ->
  observations !! i = Some obs ->
  parseFloat (to_text (prop_of obs "Value")) = Num (Qc_of_Z 0) \/
  parseFloat (to_text (prop_of obs "Value")) = NaN ->
  exists rows row,
    normaliseWitsResponse rawData datasource url ts = Some rows /\
    length rows = length observations /\
    rows !! i = Some row /\
    Validators.field row "value_usd" = JNull.
Proof.
  intros Htruthy Hobs Hall Hi Hzero.
  destruct (push_rows_readable observations datasource url ts [] Hall)
    as (rows & Hpush & Hrows).
  destruct (Forall2_lookup_l _ _ _ _ _ Hrows Hi) as (row & Hrow & Hnorm).
  exists rows, row. unfold normaliseWitsResponse.
  rewrite Htruthy, Hobs. simpl. split; [exact Hpush|].
  split; [symmetry; by eapply Forall2_length|]. split; [exact Hrow|].
  rewrite (normalise_row_value _ _ _ _ _ Hnorm). by apply value_or_null_zero.
Qed.

End WitsFacts.

Lemma normalise_zero_value_is_null_witness :
  let H := SampleBuiltins.sample in
  let zero := JS.JObj [("ReporterISO3", JS.JStr "IND"); ("Value", JS.JStr "0")] in
  let blank := JS.JObj [("ReporterISO3", JS.JStr "CHN"); ("Value", JS.JStr "n/a")] in
  exists rows row0 row1,
    Wits.normaliseWitsResponse (JS.JArr [zero; blank]) "tradestats-trade"
      "https://wits.worldbank.org" "2024-01-01T00:00:00.000Z" = Some rows /\
    rows !! 0%nat = Some row0 /\ Validators.field row0 "value_usd" = JS.JNull /\
    rows !! 1%nat = Some row1 /\ Validators.field row1 "value_usd" = JS.JNull.
Proof.
  intros H zero blank.
  assert (Hall : Forall Wits.readable [zero; blank])
    by (repeat constructor; discriminate).
  assert (Hz : JS.parseFloat (JS.to_text (Wits.prop_of zero "Value"))
               = JS.Num (Qc_of_Z 0) \/
               JS.parseFloat (JS.to_text (Wits.prop_of zero "Value")) = JS.NaN)
    by (left; vm_compute; f_equal; apply Qc_is_canon; reflexivity).
  assert (Hb : JS.parseFloat (JS.to_text (Wits.prop_of blank "Value"))
               = JS.Num (Qc_of_Z 0) \/
               JS.parseFloat (JS.to_text (Wits.prop_of blank "Value")) = JS.NaN)
    by (right; reflexivity).
  destruct (normalise_zero_value_is_null (JS.JArr [zero; blank])
              "tradestats-trade" "https://wits.worldbank.org"
              "2024-01-01T00:00:00.000Z" [zero; blank] 0 zero
              eq_refl eq_refl Hall eq_refl Hz)
    as (rows & row0 & Hrows & _ & Hr0 & Hv0).
  destruct (normalise_zero_value_is_null (JS.JArr [zero; blank])
              "tradestats-trade" "https://wits.worldbank.org"
              "2024-01-01T00:00:00.000Z" [zero; blank] 1 blank
              eq_refl eq_refl Hall eq_refl Hb)
    as (rows' & row1 & Hrows' & _ & Hr1 & Hv1).
  rewrite Hrows in Hrows'. injection Hrows' as <-.
  exists rows, row0, row1. repeat split; assumption.
Defined.

(** ** Forecasting routines *)

Section ModelingFacts.
Import JS Modeling.
Open Scope Qc_scope.

Lemma fold_left_same_body {A B} (f g : A -> B -> A) (l : list B) (a : A) :
  (forall a x, f a x = g a x) -> fold_left f l a = fold_left g l a.
Proof.
  intros Hfg. revert a. induction l as [|x l IH]; intros a; simpl;
    [reflexivity | by rewrite Hfg, IH].
Qed.

(** A loop that pushes one element per turn builds the mapped list. *)
Lemma fold_left_push {A B} (g : A -> B) (l : list A) (acc : list B) :
  fold_left (fun acc x => acc ++ [g x]) l acc = acc ++ map g l.
Proof.
  revert acc. induction l as [|x l IH]; intros acc; simpl.
  - by rewrite app_nil_r.
  - rewrite IH. by rewrite <- app_assoc.
Qed.

(** A loop that pushes at most one element per turn. *)
Lemma fold_left_push_opt {A B} (g : A -> option B) (l : list A) (acc : list B) :
  fold_left (fun acc x => match g x with Some y => acc ++ [y] | None => acc end)
            l acc
  = acc ++ omap g l.
Proof.
  revert acc. induction l as [|x l IH]; intros acc; simpl.
  - by rewrite app_nil_r.
  - rewrite IH. destruct (g x); simpl; [by rewrite <- app_assoc | reflexivity].
Qed.

Lemma omap_same_body {A B} (f g : A -> option B) (l : list A) :
  (forall x, f x = g x) -> omap f l = omap g l.
Proof.
  intros Hfg. induction l as [|x l IH]; csimpl; [reflexivity|].
  by rewrite Hfg, IH.
Qed.

Lemma sum_fold_right (l : list Qc) (a : Qc) :
  fold_left Qcplus l a = a + fold_right Qcplus 0 l.
Proof.
  revert a. induction l as [|x l IH]; intros a; simpl.
  - ring.
  - rewrite IH. ring.
Qed.

Lemma avg_trend_mean (diffs : list Qc) : avg_trend diffs = mean diffs.
Proof.
  unfold avg_trend, mean, sum. destruct diffs as [|d diffs]; [reflexivity|].
  cbn [length Nat.ltb Nat.leb]. rewrite sum_fold_right. f_equal. ring.
Qed.

(** The pairs the difference loop inspects are the series shifted by one
    season against the series itself. *)
Lemma season_pairs (values : Series) (s : nat) :
  (s <= length values)%nat ->
  map (fun i => (item values i, item values (i - s)))
      (seq s (length values - s))
  = zip (drop s values) values.
Proof.
  intros Hs. apply list_eq. intros i.
  rewrite list_lookup_fmap, lookup_zip_with, lookup_drop.
  destruct (decide (i < length values - s)%nat) as [Hlt|Hge].
  - rewrite lookup_seq_lt by done. simpl.
    destruct (lookup_lt_is_Some_2 values (s + i)) as [a Ha]; [lia|].
    destruct (lookup_lt_is_Some_2 values i) as [b Hb]; [lia|].
    unfold item. replace (s + i - s)%nat with i by lia.
    rewrite Ha, Hb. reflexivity.
  - rewrite lookup_seq_ge by lia. simpl.
    rewrite (lookup_ge_None_2 values (s + i)) by lia. reflexivity.
Qed.

(** The difference loop collects the valid seasonal differences. *)
Lemma diffs_loop (values : Series) (s : nat) :
  (s <= length values)%nat ->
  fold_left (push_diff values s) (seq s (length values - s)) []
  = season_differences values s.
Proof.
  intros Hs. unfold season_differences. rewrite <- season_pairs by done.
  pose (g := fun i : nat =>
               match item values i, item values (i - s) with
               | Some a, Some b => Some (a - b)
               | _, _ => None
               end).
  transitivity (fold_left
    (fun acc x => match g x with Some y => acc ++ [y] | None => acc end)
    (seq s (length values - s)) []).
  - apply fold_left_same_body. intros diffs i. unfold push_diff, g.
    by destruct (item values i), (item values (i - s)).
  - rewrite fold_left_push_opt. simpl.
    generalize (seq s (length values - s)) as turns.
    induction turns as [|i turns IH]; csimpl; [reflexivity|].
    rewrite <- IH. unfold g.
    by destruct (item values i), (item values (i - s)).
Qed.

(** The base value the forecast loop reads is the entry of the last season
    at the cyclic position of the step; the fallback to the last value is
    never taken. *)
Lemma naive_base (values : Series) (s h : nat) :
  (1 <= s)%nat -> (s < length values)%nat -> (1 <= h)%nat ->
  let n := length values in
  let sIdx := (Z.of_nat n - Z.of_nat s
               + (Z.of_nat h - 1) `mod` Z.of_nat s)%Z in
  (if ((0 <=? sIdx) && (sIdx <? Z.of_nat n))%Z
   then item values (Z.to_nat sIdx) else item values (n - 1))
  = item (last_season values s) ((h - 1) mod s).
Proof.
  intros Hs Hn Hh n sIdx.
  assert (Hmod : ((Z.of_nat h - 1) `mod` Z.of_nat s
                  = Z.of_nat ((h - 1) mod s))%Z).
  { replace (Z.of_nat h - 1)%Z with (Z.of_nat (h - 1)) by lia.
    by rewrite Nat2Z.inj_mod. }
  assert (Hlt : ((h - 1) mod s < s)%nat) by (apply Nat.mod_upper_bound; lia).
  subst sIdx. rewrite Hmod.
  replace ((0 <=? _) && (_ <? Z.of_nat n))%Z with true
    by (symmetry; apply andb_true_intro; split;
        [apply Z.leb_le | apply Z.ltb_lt]; lia).
  unfold last_season, item. rewrite lookup_drop. f_equal. f_equal. lia.
Qed.

Lemma length_seasonalNaive (values : Series) (s horizon : nat) :
  length (seasonalNaive values s horizon) = horizon.
Proof.
  unfold seasonalNaive. destruct (length values <? s + 1)%nat.
  - apply length_replicate.
  - unfold push_naive. rewrite fold_left_push. simpl.
    by rewrite length_map, length_seq.
Qed.

(** C7. For a season length of at least one: the forecast has the requested
    length; when the history is not longer than the season every entry is
    [null]; otherwise step [h] is the same-season base value taken
    cyclically from the last season plus the mean of the valid seasonal
    differences times [ceil(h / season length)]. Where that base value is
    [null] the step is [null], and with no valid difference the mean counts
    as 0. *)
Theorem seasonalNaive_meets_description (values : Series) (s horizon : nat) :
  (1 <= s)%nat ->
  length (seasonalNaive values s horizon) = horizon /\
  ((length values <= s)%nat ->
   seasonalNaive values s horizon = replicate horizon None) /\
  ((s < length values)%nat ->
   forall h, (1 <= h <= horizon)%nat ->
     seasonalNaive values s horizon !! (h - 1)%nat = Some (naive_step values s h)).
Proof.
  intros Hs. split; [apply length_seasonalNaive|]. split.
  - intros Hshort. unfold seasonalNaive.
    replace (length values <? s + 1)%nat with true
      by (symmetry; apply Nat.ltb_lt; lia).
    reflexivity.
  - intros Hlong h Hh. unfold seasonalNaive.
    replace (length values <? s + 1)%nat with false
      by (symmetry; apply Nat.ltb_ge; lia).
    rewrite diffs_loop by lia. rewrite avg_trend_mean.
    unfold push_naive. rewrite fold_left_push, app_nil_l.
    rewrite list_lookup_fmap, lookup_seq_lt by lia.
    replace (1 + (h - 1))%nat with h by lia. simpl.
    rewrite naive_base by lia. reflexivity.
Qed.

(** *** Holt-Winters without a season *)

(** [slice] with bounds inside the array. *)
Lemma slice_in_range {A} (arr : list A) (a b : nat) :
  (a <= b <= length arr)%nat ->
  slice arr (Z.of_nat a) (Z.of_nat b) = take (b - a) (drop a arr).
Proof.
  intros Hab. unfold slice.
  replace (Z.of_nat a <? 0)%Z with false by (symmetry; apply Z.ltb_ge; lia).
  replace (Z.of_nat b <? 0)%Z with false by (symmetry; apply Z.ltb_ge; lia).
  rewrite !Z.min_l by lia. f_equal; [lia|]. f_equal. lia.
Qed.

Lemma or_zero_Some (x : Qc) : or_zero (Some x) = x.
Proof.
  unfold or_zero. destruct (Qc_eq_bool x 0) eqn:E; [|reflexivity].
  symmetry. by apply Qc_eq_bool_correct.
Qed.

(** With [alpha = 1], [beta = 0] and no season, a fitting step on an
    observation moves the level onto it and leaves the trend alone. *)
Lemma hw_step_random_walk (p : Smoothing) (values : Series) (st : HW)
    (t : nat) (v : Qc) :
  alpha p = 1 -> beta p = 0 -> seasonPeriod p = 1%nat ->
  seasonal st = [0] -> item values t = Some v ->
  hw_step p values st t = mkHW v (trend st) [0].
Proof.
  intros Ha Hb Hs Hseas Hv. unfold hw_step. rewrite Hv, Ha, Hb, Hs, Hseas.
  simpl. f_equal.
  - unfold season_at. simpl. ring.
  - ring.
Qed.

Lemma hw_fit_random_walk (p : Smoothing) (values : Series) (k : nat) (st : HW) :
  alpha p = 1 -> beta p = 0 -> seasonPeriod p = 1%nat ->
  seasonal st = [0] ->
  (forall t, (t < k)%nat -> is_Some (item values t)) ->
  let st' := fold_left (hw_step p values) (seq 0 k) st in
  trend st' = trend st /\ seasonal st' = [0] /\
  (forall v, (0 < k)%nat -> item values (k - 1) = Some v -> level st' = v).
Proof.
  intros Ha Hb Hs Hseas. induction k as [|k IH]; intros Hall; cbv zeta.
  - simpl. repeat split; try done. intros v Hk. lia.
  - rewrite seq_S, fold_left_app. cbv zeta in IH. simpl.
    destruct IH as (Ht & Hse & _); [intros t Ht; apply Hall; lia|].
    destruct (Hall k) as [v Hv]; [lia|].
    rewrite (hw_step_random_walk p values _ k v) by done. simpl.
    repeat split; try done. intros v' _. replace (k - 0)%nat with k by lia.
    rewrite Hv. by intros [= ->].
Qed.

(** The forecast loop of [holtWinters] without a season. *)
Lemma hw_forecast_no_season (p : Smoothing) (n : nat) (st : HW) :
  seasonPeriod p = 1%nat ->
  fold_left (push_hw p n st) (seq 1 (horizon p)) []
  = random_walk_with_drift (level st) (trend st) (horizon p).
Proof.
  intros Hs. unfold push_hw, random_walk_with_drift.
  rewrite fold_left_push, app_nil_l. apply map_ext. intros h.
  rewrite Hs. simpl. f_equal. ring.
Qed.

(** On any series without gaps, of two observations or more, Holt-Winters
    with [alpha = 1], [beta = 0] and season length 1 is the random walk
    with drift from the last observation, the drift being the initial
    trend: the difference of the first two observations. *)
Lemma holtWinters_random_walk (p : Smoothing) (values : Series)
    (v0 v1 last : Qc) :
  alpha p = 1 -> beta p = 0 -> seasonPeriod p = 1%nat ->
  (2 <= length values)%nat ->
  (forall t, (t < length values)%nat -> is_Some (item values t)) ->
  item values 0 = Some v0 -> item values 1 = Some v1 ->
  item values (length values - 1) = Some last ->
  trend (hw_init values 1) = v1 - v0 /\
  level (hw_fit p values) = last /\
  trend (hw_fit p values) = trend (hw_init values 1) /\
  holtWinters values p = random_walk_with_drift last (v1 - v0) (horizon p).
Proof.
  intros Ha Hb Hs Hlen Hall H0 H1 Hlast.
  assert (Hinit : trend (hw_init values 1) = v1 - v0).
  { destruct values as [|a [|b rest]]; simpl in Hlen; try lia.
    unfold item in H0, H1. simpl in H0, H1. subst a b.
    unfold hw_init. cbn [trend].
    replace (2 * Z.of_nat 1)%Z with (Z.of_nat 2) by lia.
    change 0%Z with (Z.of_nat 0).
    rewrite !slice_in_range by (simpl; lia).
    replace (2 * 1 <=? length (Some v0 :: Some v1 :: rest))%nat with true
      by (symmetry; apply Nat.leb_le; simpl; lia).
    unfold sum_or_zero. cbn [take drop fold_left Nat.sub].
    rewrite !or_zero_Some, take_0. unfold num. cbn [fold_left].
    change (Z.of_nat 1) with 1%Z.
    assert (Qc_of_Z 1 = 1) as -> by (apply Qc_is_canon; reflexivity).
    field. discriminate. }
  assert (Hseas : seasonal (hw_init values 1) = [0]) by reflexivity.
  destruct (hw_fit_random_walk p values (length values) (hw_init values 1)
              Ha Hb Hs Hseas Hall) as (Ht & _ & Hl).
  assert (Hfit : hw_fit p values
                 = fold_left (hw_step p values) (seq 0 (length values))
                             (hw_init values 1))
    by (unfold hw_fit; by rewrite Hs).
  split; [exact Hinit|]. rewrite Hfit.
  split; [apply Hl; [lia | exact Hlast]|]. split; [exact Ht|].
  unfold holtWinters. rewrite Hs.
  replace (length values <? 2 * 1)%nat with false
    by (symmetry; apply Nat.ltb_ge; lia).
  rewrite hw_forecast_no_season by done. rewrite Hfit, Ht, Hinit.
  f_equal. apply Hl; [lia | exact Hlast].
Qed.

(** C8. Holt-Winters with season length 1 on [100, 110, 121, 133.1] and
    [alpha = 1, beta = 0, gamma = 0] is the random walk with drift: the
    fitted level is the last observation 133.1, the trend is still the
    initial one, 10, and forecast step [h] is [133.1 + 10 h], for every
    horizon. *)
Theorem holtWinters_example_is_random_walk (horizon : nat) :
  let p := example_smoothing horizon in
  level (hw_fit p example_series) = Q2Qc (1331 # 10) /\
  trend (hw_fit p example_series) = trend (hw_init example_series 1) /\
  trend (hw_init example_series 1) = Qc_of_Z 10 /\
  holtWinters example_series p
  = random_walk_with_drift (Q2Qc (1331 # 10)) (Qc_of_Z 10) horizon /\
  forall h, (1 <= h <= horizon)%nat ->
    holtWinters example_series p !! (h - 1)%nat
    = Some (Some (Q2Qc (1331 # 10) + Qc_of_Z 10 * num h)).
Proof.
  intros p.
  destruct (holtWinters_random_walk p example_series
              (Qc_of_Z 100) (Qc_of_Z 110) (Q2Qc (1331 # 10)))
    as (Hinit & Hlevel & Htrend & Hfc); try reflexivity.
  { simpl. lia. }
  { intros t Ht. simpl in Ht.
    destruct t as [|[|[|[|t]]]]; try (eexists; reflexivity). lia. }
  assert (Hten : Qc_of_Z 110 - Qc_of_Z 100 = Qc_of_Z 10)
    by (apply Qc_is_canon; reflexivity).
  rewrite Hten in Hinit, Hfc. subst p.
  cbn [Modeling.horizon example_smoothing] in Hfc.
  split; [exact Hlevel|]. split; [exact Htrend|]. split; [exact Hinit|].
  split; [exact Hfc|]. intros h Hh. rewrite Hfc.
  unfold random_walk_with_drift.
  rewrite list_lookup_fmap, lookup_seq_lt by lia.
  replace (1 + (h - 1))%nat with h by lia. reflexivity.
Qed.

(** *** Rolling-origin evaluation *)

Section Rolling.
Context `{Builtins}.

(** C9. When the series without its [null] entries is shorter than
    [testSize + 3], [rollingEval] returns [{ rmse: null, mape: null,
    residuals: [] }]: it returns before the forecast function is called, so
    nothing can throw, even with a forecast function that always throws. *)
Theorem rollingEval_short_series (values : Series) (testSize : Z)
    (fcFn : Series -> option Series) :
  (Z.of_nat (length (clean_of values)) < testSize + 3)%Z ->
  rollingEval values testSize fcFn = Some (mkDiagnostics None None []).
Proof.
  intros Hshort. unfold rollingEval.
  apply Z.ltb_lt in Hshort. by rewrite Hshort.
Qed.

End Rolling.

End ModelingFacts.

Lemma seasonalNaive_meets_description_witness :
  let values := [Some (Qc_of_Z 10); Some (Qc_of_Z 12); None; Some (Qc_of_Z 15)] in
  Modeling.seasonalNaive values 2 4 !! 1%nat
    = Some (Modeling.naive_step values 2 2) /\
  Modeling.seasonalNaive [Some (Qc_of_Z 10); None] 2 3 = [None; None; None].
Proof.
  intros values.
  assert (H2 : (1 <= 2)%nat) by lia.
  destruct (seasonalNaive_meets_description values 2 4 H2) as (_ & _ & Hlong).
  destruct (seasonalNaive_meets_description [Some (Qc_of_Z 10); None] 2 3 H2)
    as (_ & Hshort & _).
  split.
  - apply (Hlong ltac:(simpl; lia) 2%nat ltac:(lia)).
  - apply Hshort. simpl. lia.
Defined.

Lemma holtWinters_example_is_random_walk_witness :
  Modeling.holtWinters Modeling.example_series (Modeling.example_smoothing 3)
    !! 1%nat
  = Some (Some (Q2Qc (1331 # 10) + Qc_of_Z 10 * Modeling.num 2)%Qc).
Proof.
  destruct (holtWinters_example_is_random_walk 3) as (_ & _ & _ & _ & Hstep).
  exact (Hstep 2%nat ltac:(lia)).
Defined.

Lemma rollingEval_short_series_witness :
  let H := SampleBuiltins.sample in
  let values := [Some (Qc_of_Z 100); None; Some (Qc_of_Z 110); Some (Qc_of_Z 121)] in
  (Z.of_nat (length (Modeling.clean_of values)) < 1 + 3)%Z /\
  Modeling.rollingEval values 1 (fun _ => None)
  = Some (Modeling.mkDiagnostics None None []).
Proof.
  intros H values.
  assert (Hshort : (Z.of_nat (length (Modeling.clean_of values)) < 1 + 3)%Z)
    by (vm_compute; reflexivity).
  split; [exact Hshort|].
  exact (rollingEval_short_series values 1 (fun _ => None) Hshort).
Defined.

(** ** More on the cache *)

Section CacheFacts.
Import JS Runtime Platform.

Ltac run :=
  repeat first
    [ progress unfold bind, ret, reads, writes, track, Date_now
    | progress cbn [with_mem with_session with_ticks with_fetches with_randoms
                    with_sleeps with_events with_errlog
                    env mem session ticks fetches randoms sleeps events errlog
                    fst snd negb value expires] ].

(** X1. What [set] stores can be read back until it expires: any later [get]
    that finds the entry in the memory tier and reads a clock value below
    the time of the [set] plus the TTL returns the stored value. *)
Theorem set_then_get_returns_value (key : string) (v : JVal) (ttl : Z)
    (w w2 : World) :
  mem w2 !! key = mem (Cache.set key v ttl w).2 !! key ->
  clock (env w2) (ticks w2) < clock (env w) (ticks w) + ttl ->
  (Cache.get key w2).1 = v.
Proof.
  intros Hmem Hlive.
  assert (Hset : mem (Cache.set key v ttl w).2 !! key
                 = Some (mkEntry v (clock (env w) (ticks w) + ttl))).
  { unfold Cache.set. run.
    destruct (session_writes (env w)); run; apply lookup_insert_eq. }
  rewrite Hset in Hmem.
  rewrite (get_memory_hit key w2 _ Hmem); [reflexivity | exact Hlive].
Qed.

(** X2. An entry past its expiry is not served. The memory tier keeps the stale
    entry; the session copy, if it has expired as well, is removed. *)
Theorem get_expired_misses (key : string) (w : World) (e : CacheEntry) :
  mem w !! key = Some e ->
  expires e <= clock (env w) (ticks w) ->
  (forall p, session w !! ("cache:" +:+ key) = Some p ->
             expires p <= clock (env w) (S (ticks w))) ->
  (Cache.get key w).1 = JUndefined /\
  mem (Cache.get key w).2 = mem w /\
  (session_reads (env w) = true ->
   session (Cache.get key w).2 !! ("cache:" +:+ key) = None).
Proof.
  intros Hmem Hold Hsess. unfold Cache.get. run. rewrite Hmem. run.
  replace (clock (env w) (ticks w) <? expires e) with false
    by (symmetry; apply Z.ltb_ge; lia).
  unfold Cache.get_fallback, Cache.get_session. run.
  destruct (session_reads (env w)); run; [|by repeat split].
  destruct (session w !! ("cache:" +:+ key)) as [p|] eqn:Hp; run.
  - replace (clock (env w) (S (ticks w)) <? expires p) with false
      by (symmetry; apply Z.ltb_ge; by apply Hsess).
    run. repeat split; try reflexivity. intros _. apply lookup_delete_eq.
  - repeat split; try reflexivity. by intros _.
Qed.

(** X3. A page reload empties the memory tier but not [sessionStorage]: the
    next [get] before the expiry returns the JSON copy of what [set] stored
    and puts it back into the memory tier. *)
Theorem set_then_reload_returns_json_copy (key : string) (v : JVal) (ttl : Z)
    (w w2 : World) :
  session_writes (env w) = true ->
  session_reads (env w2) = true ->
  mem w2 !! key = None ->
  session w2 !! ("cache:" +:+ key)
    = session (Cache.set key v ttl w).2 !! ("cache:" +:+ key) ->
  clock (env w2) (ticks w2) < clock (env w) (ticks w) + ttl ->
  (Cache.get key w2).1 = json_copy v /\
  mem (Cache.get key w2).2 !! key
    = Some (mkEntry (json_copy v) (clock (env w) (ticks w) + ttl)).
Proof.
  intros Hwr Hrd Hmem Hsess Hlive.
  assert (Hset : session (Cache.set key v ttl w).2 !! ("cache:" +:+ key)
                 = Some (mkEntry (json_copy v) (clock (env w) (ticks w) + ttl))).
  { unfold Cache.set. run. rewrite Hwr. run. apply lookup_insert_eq. }
  rewrite Hset in Hsess.
  unfold Cache.get. run. rewrite Hmem.
  unfold Cache.get_fallback, Cache.get_session. run. rewrite Hrd. run.
  rewrite Hsess. run.
  replace (clock (env w2) (ticks w2) <? clock (env w) (ticks w) + ttl) with true
    by (symmetry; by apply Z.ltb_lt).
  run. split; [reflexivity | apply lookup_insert_eq].
Qed.

(** X4. When [sessionStorage] refuses the write, [set] still fills the memory
    tier and leaves [sessionStorage] as it was. *)
Theorem set_survives_storage_failure (key : string) (v : JVal) (ttl : Z)
    (w : World) :
  session_writes (env w) = false ->
  mem (Cache.set key v ttl w).2 !! key
    = Some (mkEntry v (clock (env w) (ticks w) + ttl)) /\
  session (Cache.set key v ttl w).2 = session w.
Proof.
  intros Hwr. unfold Cache.set. run. rewrite Hwr. run.
  split; [apply lookup_insert_eq | reflexivity].
Qed.

Lemma cache_key_inj (k k' : string) :
  "cache:" +:+ k = "cache:" +:+ k' -> k = k'.
Proof. intros Heq. simpl in Heq. by injection Heq. Qed.

(** X5. After [invalidate(key)] a [get] of that key misses, whatever the tiers
    held and whether or not [sessionStorage] works. *)
Theorem invalidate_then_get_misses (key : string) (w : World) :
  (Cache.get key (CacheAdmin.invalidate key w).2).1 = JUndefined.
Proof.
  unfold CacheAdmin.invalidate. run.
  destruct (session_reads (env w)) eqn:Hrd; run;
    unfold Cache.get; run; rewrite lookup_delete_eq;
    unfold Cache.get_fallback, Cache.get_session; run; rewrite Hrd; run;
    [|reflexivity].
  rewrite lookup_delete_eq. run. reflexivity.
Qed.

(** X6. [invalidate(key)] leaves the entries of every other key in both
    tiers. *)
Theorem invalidate_keeps_other_keys (key other : string) (w : World) :
  other <> key ->
  mem (CacheAdmin.invalidate key w).2 !! other = mem w !! other /\
  session (CacheAdmin.invalidate key w).2 !! ("cache:" +:+ other)
    = session w !! ("cache:" +:+ other).
Proof.
  intros Hne. unfold CacheAdmin.invalidate. run.
  destruct (session_reads (env w)); run;
    (split; [by apply lookup_delete_ne|]); [|reflexivity].
  apply lookup_delete_ne. intros Heq. apply Hne. symmetry.
  by apply cache_key_inj.
Qed.

(** X7. After [clear()] every [get] misses. *)
Theorem clear_then_get_misses (key : string) (w : World) :
  (Cache.get key (CacheAdmin.clear w).2).1 = JUndefined.
Proof.
  unfold CacheAdmin.clear. run.
  destruct (session_reads (env w)) eqn:Hrd; run;
    unfold Cache.get; run; rewrite lookup_empty;
    unfold Cache.get_fallback, Cache.get_session; run; rewrite Hrd; run;
    [|reflexivity].
  rewrite map_lookup_filter_None_2; [run; reflexivity|].
  right. intros x _ Hf. destruct key; vm_compute in Hf; discriminate Hf.
Qed.

End CacheFacts.

(** ** More on the request executor *)

Section FetchCaseFacts.
Import Str JS Runtime Platform Fetchers FetchCases.
Context `{Builtins}.

Ltac run :=
  repeat first
    [ progress unfold bind, ret, reads, writes, track, fetch, sleep, logError,
        Math_random, Date_now, backoff, sleep_before_retry
    | progress cbn [rate_limit_wait flag_retryBaseMs flag_maxRetries
                    with_mem with_session with_ticks with_fetches with_randoms
                    with_sleeps with_events with_errlog
                    env mem session ticks fetches randoms sleeps events errlog
                    fst snd negb] ].

(** What one turn of the [try] block may change, by the way it ends. *)
Lemma try_block_frame w url key ttl rt attempt res w' :
  try_block url key ttl rt attempt w = (res, w') ->
  env w' = env w /\ fetches w' = S (fetches w) /\
  match res with
  | TryReturn _ => sleeps w' = sleeps w
  | TryContinue _ =>
      (exists d, sleeps w' = sleeps w ++ [d]) /\
      mem w' = mem w /\ session w' = session w
  | TryThrow _ =>
      sleeps w' = sleeps w /\ mem w' = mem w /\ session w' = session w /\
      errlog w' = errlog w /\ randoms w' = randoms w
  end.
Proof.
  unfold try_block. run.
  destruct (net (env w) (fetches w) url) as [r|e]; run;
    [|intros [= <- <-]; by repeat split].
  destruct (status r =? 429).
  { destruct (URL_hostname url); run; [intros [= <- <-]; by repeat split|].
    destruct (parseInt10 (header_or_zero (retry_after r))) as [n|]; run;
      [destruct (0 <? n); run|]; intros [= <- <-]; repeat split; eauto. }
  destruct (500 <=? status r).
  { destruct (URL_hostname url); run; intros [= <- <-]; repeat split; eauto. }
  destruct (negb (ok r)).
  { destruct (URL_hostname url); run; intros [= <- <-]; by repeat split. }
  destruct (too_large (content_length r)).
  { destruct (URL_hostname url); run; intros [= <- <-]; by repeat split. }
  destruct (read_body rt r) as [e|d]; run; [intros [= <- <-]; by repeat split|].
  unfold Cache.set. run.
  destruct (session_writes (env w)); run; intros [= <- <-]; by repeat split.
Qed.

(** What the [catch] block may change. *)
Lemma catch_block_frame w url attempt maxRetries ex c w' :
  catch_block url attempt maxRetries ex w = (c, w') ->
  env w' = env w /\ fetches w' = fetches w /\
  mem w' = mem w /\ session w' = session w /\
  match c with
  | Threw _ => sleeps w' = sleeps w
  | Again _ => sleeps w' = sleeps w \/ exists d, sleeps w' = sleeps w ++ [d]
  end.
Proof.
  assert (Htransport : forall w0 (c0 : CatchResult) w0',
    (let* on := reads (fun w : World => online (env w)) in
     if negb on
     then logError (Errors.NetworkError "Offline"
                      (Errors.mkNetOpts (Some url) None None));;
          ret (Threw (ThApp (Errors.NetworkError "Offline"
                               (Errors.mkNetOpts (Some url) None None))))
     else match URL_hostname url with
          | inl t => ret (Threw (ThNative t))
          | inr host => logError (Errors.CorsError host);;
                        ret (Threw (ThApp (Errors.CorsError host)))
          end) w0 = (c0, w0') ->
    env w0' = env w0 /\ fetches w0' = fetches w0 /\
    mem w0' = mem w0 /\ session w0' = session w0 /\
    match c0 with
    | Threw _ => sleeps w0' = sleeps w0
    | Again _ => sleeps w0' = sleeps w0 \/ exists d, sleeps w0' = sleeps w0 ++ [d]
    end).
  { intros w0 c0 w0'. run. destruct (online (env w0)); run.
    - destruct (URL_hostname url); run; intros [= <- <-]; by repeat split.
    - intros [= <- <-]; by repeat split. }
  unfold catch_block. destruct ex as [e|n].
  - destruct (Errors.instanceof e Errors.CPayloadTooLargeError);
      [run; intros [= <- <-]; by repeat split|].
    destruct (_ && _); [apply Htransport|].
    destruct (negb (Errors.retryable e)); run;
      [intros [= <- <-]; by repeat split|].
    destruct (attempt <? maxRetries); run; intros [= <- <-];
      repeat split; eauto.
  - destruct (_ && _); [apply Htransport|]. run.
    destruct (attempt <? maxRetries); run; intros [= <- <-];
      repeat split; eauto.
Qed.

(** The loop issues one request per turn and sleeps at most once per turn;
    when it ends by throwing, the caches are as it found them. *)
Lemma retry_loop_frame fuel url key ttl rt maxRetries :
  forall attempt lastErr w res w',
  retry_loop fuel url key ttl rt maxRetries attempt lastErr w = (res, w') ->
  env w' = env w /\
  (fetches w <= fetches w' <= fetches w + fuel)%nat /\
  (length (sleeps w) <= length (sleeps w') <= length (sleeps w) + fuel)%nat /\
  (forall t, res = inl t -> mem w' = mem w /\ session w' = session w).
Proof.
  induction fuel as [|fuel IH]; intros attempt lastErr w res w'; cbn [retry_loop].
  - intros [= <- <-]. split; [done|]. split; [lia|]. split; [lia|]. done.
  - destruct (attempt <=? maxRetries);
      [|intros [= <- <-]; split; [done|]; split; [lia|]; split; [lia|]; done].
    unfold bind at 1.
    destruct (try_block url key ttl rt attempt w) as [[data|e|ex] w1] eqn:Htry;
      apply try_block_frame in Htry as (Henv1 & Hf1 & Hrest).
    + intros [= <- <-]. rewrite Hrest.
      split; [congruence|]. split; [lia|]. split; [lia|]. discriminate.
    + destruct Hrest as ((d & Hs1) & Hm1 & Hss1). intros Hloop.
      apply IH in Hloop as (Henv & Hf & Hs & Hc).
      rewrite Hs1, length_app in Hs. simpl in Hs.
      split; [congruence|]. split; [lia|]. split; [lia|].
      intros t0 Ht. destruct (Hc t0 Ht). split; congruence.
    + destruct Hrest as (Hs1 & Hm1 & Hss1 & _). unfold bind at 1.
      destruct (catch_block url attempt maxRetries ex w1) as [[t|e] w2] eqn:Hc;
        apply catch_block_frame in Hc as (Henv2 & Hf2 & Hm2 & Hss2 & Hs2).
      * intros [= <- <-]. rewrite Hs2, Hs1.
        split; [congruence|]. split; [lia|]. split; [lia|].
        intros _ _. split; congruence.
      * intros Hloop. apply IH in Hloop as (Henv & Hf & Hs & Hc).
        assert (length (sleeps w) <= length (sleeps w2)
                <= S (length (sleeps w)))%nat as Hlen.
        { destruct Hs2 as [-> | (d & ->)]; rewrite ?length_app, Hs1; simpl; lia. }
        split; [congruence|]. split; [lia|]. split; [lia|].
        intros t0 Ht. destruct (Hc t0 Ht). split; congruence.
Qed.

(** The [catch] block throws an error object, never [undefined]. *)
Lemma catch_block_throws_defined w url attempt maxRetries ex w' :
  catch_block url attempt maxRetries ex w <> (Threw ThUndefined, w').
Proof.
  unfold catch_block.
  destruct ex as [e|n]; cbn [exn_name exn_message];
    repeat first
      [ progress run
      | match goal with
        | |- context [if ?b then _ else _] => destruct b
        | |- context [match URL_hostname ?u with _ => _ end] =>
            destruct (URL_hostname u)
        end ];
    discriminate.
Qed.

(** [undefined] is thrown only when no turn of the loop ran. *)
Lemma retry_loop_throws_defined fuel url key ttl rt maxRetries :
  forall attempt lastErr w w',
  retry_loop fuel url key ttl rt maxRetries attempt lastErr w
  = (inl ThUndefined, w') ->
  lastErr = None /\ (fuel = 0%nat \/ maxRetries < attempt).
Proof.
  induction fuel as [|fuel IH]; intros attempt lastErr w w'; cbn [retry_loop].
  - destruct lastErr; [discriminate|]. intros _. split; [done | by left].
  - destruct (Z.leb_spec attempt maxRetries) as [Hle|Hgt].
    + unfold bind at 1.
      destruct (try_block url key ttl rt attempt w) as [[data|e|ex] w1].
      * discriminate.
      * intros Hloop. apply IH in Hloop as [? _]. discriminate.
      * unfold bind at 1.
        destruct (catch_block url attempt maxRetries ex w1) as [[t|e] w2] eqn:Hc.
        -- intros [= -> <-]. by apply catch_block_throws_defined in Hc.
        -- intros Hloop. apply IH in Hloop as [? _]. discriminate.
    + destruct lastErr; [discriminate|]. intros _. split; [done | right; lia].
Qed.

(** What a call may change, and when it throws [undefined]. *)
Lemma robustFetch_frame url opts w res w' :
  robustFetch url opts w = (res, w') ->
  env w' = env w /\
  (fetches w <= fetches w'
   <= fetches w + Z.to_nat (max_retries opts w + 1))%nat /\
  (length (sleeps w) <= length (sleeps w')
   <= length (sleeps w) + Z.to_nat (max_retries opts w + 1))%nat /\
  (res = inl ThUndefined -> max_retries opts w < 0).
Proof.
  unfold robustFetch, bind, reads.
  destruct (Cache.get (cache_key url opts) w) as [cached w0] eqn:Hget.
  apply get_quiet in Hget as (Henv0 & Hf0 & _ & Hs0 & _).
  assert (Hloop :
    retry_loop (Z.to_nat (max_retries opts w + 1)) url (cache_key url opts)
               (default (30 * 60 * 1000) (cacheTtlMs opts))
               (default "json" (responseType opts))
               (max_retries opts w) 0 None w0 = (res, w') ->
    env w' = env w /\
    (fetches w <= fetches w'
     <= fetches w + Z.to_nat (max_retries opts w + 1))%nat /\
    (length (sleeps w) <= length (sleeps w')
     <= length (sleeps w) + Z.to_nat (max_retries opts w + 1))%nat /\
    (res = inl ThUndefined -> max_retries opts w < 0)).
  { intros Hloop.
    pose proof (retry_loop_frame _ _ _ _ _ _ _ _ _ _ _ Hloop)
      as (Henv & Hf & Hs & _).
    rewrite <- Hf0, <- Hs0, <- Henv0. split; [exact Henv|].
    split; [exact Hf|]. split; [exact Hs|].
    intros ->. apply retry_loop_throws_defined in Hloop as (_ & [Hz|Hlt]); lia. }
  destruct cached; try exact Hloop; intros [= <- <-];
    rewrite Henv0, Hf0, Hs0; (split; [done|]); (split; [lia|]);
    (split; [lia|]); discriminate.
Qed.

(** X8. However the network behaves, [robustFetch] issues at most
    [maxRetries + 1] requests and sleeps at most [maxRetries + 1] times, and
    none at all when the bound is negative. *)
Theorem robustFetch_request_bound url opts w :
  let w' := (robustFetch url opts w).2 in
  let turns := Z.to_nat (max_retries opts w + 1) in
  (fetches w <= fetches w' <= fetches w + turns)%nat /\
  (length (sleeps w) <= length (sleeps w') <= length (sleeps w) + turns)%nat.
Proof.
  destruct (robustFetch url opts w) as [res w'] eqn:Hrun. cbn [snd].
  apply robustFetch_frame in Hrun as (_ & Hf & Hs & _). by split.
Qed.

(** X9. A call that throws stores nothing: both cache tiers are as the initial
    lookup left them. *)
Theorem robustFetch_failure_caches_nothing url opts w t :
  (robustFetch url opts w).1 = inl t ->
  mem (robustFetch url opts w).2 = mem (Cache.get (cache_key url opts) w).2 /\
  session (robustFetch url opts w).2
    = session (Cache.get (cache_key url opts) w).2.
Proof.
  unfold robustFetch, bind, reads.
  destruct (Cache.get (cache_key url opts) w) as [cached w0]. cbn [snd].
  destruct cached; try discriminate.
  destruct (retry_loop _ _ _ _ _ _ _ _ _) as [res w'] eqn:Hloop. cbn [fst snd].
  intros ->. apply retry_loop_frame in Hloop as (_ & _ & _ & Hc).
  by apply (Hc t).
Qed.

(** X10. With a negative retry bound the loop body never runs: after a miss
    [robustFetch] throws [undefined], the initial [lastErr], without any
    request. *)
Theorem robustFetch_negative_bound url opts w :
  max_retries opts w < 0 ->
  cold w (cache_key url opts) ->
  (robustFetch url opts w).1 = inl ThUndefined /\
  fetches (robustFetch url opts w).2 = fetches w /\
  sleeps (robustFetch url opts w).2 = sleeps w.
Proof.
  intros Hneg Hcold.
  destruct (cold_get _ _ Hcold) as (w0 & Hget & (_ & Hf0 & _ & Hs0 & _)).
  rewrite (robustFetch_miss _ _ _ _ Hget).
  rewrite retry_loop_done by lia. cbn [fst snd throw_last]. by repeat split.
Qed.

(** X11. A request that fails in transport while the browser is online is taken
    for a CORS block: [CorsError] is logged and thrown at once, after that
    single request, with no sleep and no retry. *)
Theorem robustFetch_cors_blocked url opts w host e :
  URL_hostname url = inr host ->
  cold w (cache_key url opts) ->
  0 <= max_retries opts w ->
  net (env w) (fetches w) url = Rejects e ->
  transport_failure e = true ->
  online (env w) = true ->
  (robustFetch url opts w).1 = inl (ThApp (Errors.CorsError host)) /\
  fetches (robustFetch url opts w).2 = S (fetches w) /\
  sleeps (robustFetch url opts w).2 = sleeps w /\
  errlog (robustFetch url opts w).2
    = Errors.logError (Errors.CorsError host) (errlog w).
Proof.
  intros Hhost Hcold Hbound Hnet Htr Hon.
  destruct (cold_get _ _ Hcold) as (w0 & Hget & (Henv0 & Hf0 & _ & Hs0 & He0)).
  rewrite (robustFetch_miss _ _ _ _ Hget).
  destruct (Z.to_nat (max_retries opts w + 1)) as [|fuel] eqn:Hfuel; [lia|].
  cbn [retry_loop].
  replace (0 <=? max_retries opts w) with true by (symmetry; apply Z.leb_le; lia).
  rewrite <- Henv0, <- Hf0 in Hnet. rewrite <- Henv0 in Hon.
  unfold try_block. run. rewrite Hnet. run.
  unfold catch_block. unfold transport_failure in Htr.
  cbn [exn_name exn_message]. rewrite Htr. run. rewrite Hon, Hhost. run.
  repeat split; congruence.
Qed.

(** X12. The same failure while the browser is offline: a [NetworkError] with
    the message "Offline" is logged and thrown at once; it is not retried
    although it is marked retryable. *)
Theorem robustFetch_offline url opts w e :
  cold w (cache_key url opts) ->
  0 <= max_retries opts w ->
  net (env w) (fetches w) url = Rejects e ->
  transport_failure e = true ->
  online (env w) = false ->
  exists err,
    (robustFetch url opts w).1 = inl (ThApp err) /\
    err = Errors.NetworkError "Offline" (Errors.mkNetOpts (Some url) None None) /\
    Errors.retryable err = true /\
    fetches (robustFetch url opts w).2 = S (fetches w) /\
    sleeps (robustFetch url opts w).2 = sleeps w /\
    errlog (robustFetch url opts w).2 = Errors.logError err (errlog w).
Proof.
  intros Hcold Hbound Hnet Htr Hoff.
  destruct (cold_get _ _ Hcold) as (w0 & Hget & (Henv0 & Hf0 & _ & Hs0 & He0)).
  rewrite (robustFetch_miss _ _ _ _ Hget).
  destruct (Z.to_nat (max_retries opts w + 1)) as [|fuel] eqn:Hfuel; [lia|].
  cbn [retry_loop].
  replace (0 <=? max_retries opts w) with true by (symmetry; apply Z.leb_le; lia).
  rewrite <- Henv0, <- Hf0 in Hnet. rewrite <- Henv0 in Hoff.
  unfold try_block. run. rewrite Hnet. run.
  unfold catch_block. unfold transport_failure in Htr.
  cbn [exn_name exn_message]. rewrite Htr. run. rewrite Hoff. run.
  eexists. split; [reflexivity|]. repeat split; congruence.
Qed.

(** X13. A successful response that declares more than 10 MiB is refused before
    its body is read: [PayloadTooLargeError] is thrown at once, not logged,
    not retried, and nothing is cached. *)
Theorem robustFetch_payload_too_large url opts w host r :
  URL_hostname url = inr host ->
  cold w (cache_key url opts) ->
  0 <= max_retries opts w ->
  net (env w) (fetches w) url = Responds r ->
  oversized r ->
  (robustFetch url opts w).1 = inl (ThApp (Errors.PayloadTooLargeError host)) /\
  fetches (robustFetch url opts w).2 = S (fetches w) /\
  sleeps (robustFetch url opts w).2 = sleeps w /\
  errlog (robustFetch url opts w).2 = errlog w /\
  mem (robustFetch url opts w).2 = mem (Cache.get (cache_key url opts) w).2.
Proof.
  intros Hhost Hcold Hbound Hnet (Hr & Hok & Hbig).
  destruct (cold_get _ _ Hcold) as (w0 & Hget & (Henv0 & Hf0 & _ & Hs0 & He0)).
  rewrite (robustFetch_miss _ _ _ _ Hget), Hget.
  destruct (Z.to_nat (max_retries opts w + 1)) as [|fuel] eqn:Hfuel; [lia|].
  cbn [retry_loop].
  replace (0 <=? max_retries opts w) with true by (symmetry; apply Z.leb_le; lia).
  rewrite <- Henv0, <- Hf0 in Hnet.
  unfold try_block. run. rewrite Hnet. run.
  unfold retried in Hr. apply orb_false_elim in Hr as [-> ->].
  rewrite Hok, Hbig, Hhost. run.
  unfold catch_block. cbn [Errors.instanceof Errors.PayloadTooLargeError Errors.cls].
  run. repeat split; congruence.
Qed.

(** X14. A 429 answer with a positive [Retry-After] is waited for exactly that
    many seconds, without a random draw, and the next answer is then
    taken. *)
Theorem robustFetch_honours_retry_after url opts w host r r' data n :
  URL_hostname url = inr host ->
  cold w (cache_key url opts) ->
  1 <= max_retries opts w ->
  answers w url [r; r'] ->
  status r = 429 ->
  parseInt10 (header_or_zero (retry_after r)) = Some n ->
  0 < n ->
  delivers (default "json" (responseType opts)) r' data ->
  (robustFetch url opts w).1 = inr data /\
  sleeps (robustFetch url opts w).2 = sleeps w ++ [Qc_of_Z (n * 1000)] /\
  fetches (robustFetch url opts w).2 = (fetches w + 2)%nat.
Proof.
  intros Hhost Hcold Hbound Hans H429 Hparse Hpos Hdel.
  destruct (robustFetch_retries_then_delivers url opts w host [r] r' data
              Hhost Hcold Hans) as (w' & Hrun & Hf & Hs & _).
  { repeat constructor. unfold retried. by rewrite H429. }
  { simpl. lia. }
  { exact Hdel. }
  rewrite Hrun. cbn [fst snd]. split; [reflexivity|]. split; [|simpl in Hf; lia].
  rewrite Hs. cbn [retry_delays]. unfold retry_after_seconds.
  rewrite H429, Hparse. cbn [Z.eqb Pos.eqb].
  replace (0 <? n) with true by (symmetry; by apply Z.ltb_lt). reflexivity.
Qed.

(** One turn that ends in an exception of the platform: the error is
    logged, the loop sleeps only if another turn is left, and goes on. *)
Lemma retry_loop_soft_turn fuel url key ttl rt maxRetries attempt lastErr w o e :
  net (env w) (fetches w) url = o ->
  fails_with rt o e ->
  attempt <= maxRetries ->
  exists w1,
    retry_loop (S fuel) url key ttl rt maxRetries attempt lastErr w
    = retry_loop fuel url key ttl rt maxRetries (attempt + 1)
                 (Some (soft_error url e)) w1 /\
    env w1 = env w /\ fetches w1 = S (fetches w) /\
    sleeps w1 = sleeps w ++
                (if attempt <? maxRetries
                 then [backoff_delay (env w) attempt (randoms w)] else []) /\
    randoms w1 = (randoms w + if (attempt <? maxRetries)%Z then 1%nat else 0%nat)%nat.
Proof.
  intros Hnet (Htr & Ho) Hle. cbn [retry_loop].
  replace (attempt <=? maxRetries) with true by (symmetry; by apply Z.leb_le).
  unfold transport_failure in Htr.
  assert (Hcatch : forall w0,
    exists w1,
      (let* c := catch_block url attempt maxRetries (ExNative e) in
       match c with
       | Threw t => ret (inl t)
       | Again e0 =>
           retry_loop fuel url key ttl rt maxRetries (attempt + 1) (Some e0)
       end) w0
      = retry_loop fuel url key ttl rt maxRetries (attempt + 1)
                   (Some (soft_error url e)) w1 /\
      env w1 = env w0 /\ fetches w1 = fetches w0 /\
      sleeps w1 = sleeps w0 ++
                  (if attempt <? maxRetries
                   then [backoff_delay (env w0) attempt (randoms w0)] else []) /\
      randoms w1 = (randoms w0 + if (attempt <? maxRetries)%Z then 1%nat else 0%nat)%nat).
  { intros w0. unfold catch_block. cbn [exn_name exn_message]. rewrite Htr.
    run. destruct (attempt <? maxRetries); run; eexists;
      (split; [reflexivity|]); repeat split; try reflexivity;
      rewrite ?app_nil_r; try reflexivity; cbn; lia. }
  unfold try_block. run. rewrite Hnet.
  destruct Ho as [-> | (r & -> & Hr & Hok & Hsize & Hbody)]; run.
  - match goal with |- context [catch_block _ _ _ _ ?w0] =>
      destruct (Hcatch w0) as (w1 & Hrun & Hw1) end.
    exists w1. split; [exact Hrun | exact Hw1].
  - unfold retried in Hr. apply orb_false_elim in Hr as [-> ->].
    rewrite Hok, Hsize, Hbody. run.
    match goal with |- context [catch_block _ _ _ _ ?w0] =>
      destruct (Hcatch w0) as (w1 & Hrun & Hw1) end.
    exists w1. split; [exact Hrun | exact Hw1].
Qed.

Lemma replies_head w url o os :
  replies w url (o :: os) -> net (env w) (fetches w) url = o.
Proof.
  intros Hrep. specialize (Hrep 0%nat o eq_refl).
  by rewrite Nat.add_0_r in Hrep.
Qed.

Lemma replies_tail w w' url o os :
  replies w url (o :: os) -> env w' = env w -> fetches w' = S (fetches w) ->
  replies w' url os.
Proof.
  intros Hrep Henv Hf k x Hk. rewrite Henv, Hf.
  replace (S (fetches w) + k)%nat with (fetches w + S k)%nat by lia.
  by apply Hrep.
Qed.

Lemma replies_quiet w w0 url os :
  replies w url os -> quiet w w0 -> replies w0 url os.
Proof.
  intros Hrep (Henv & Hf & _) k o Hk. rewrite Henv, Hf. by apply Hrep.
Qed.

(** Attempts that all end in such exceptions, up to the last turn. *)
Lemma retry_loop_soft_failures url key ttl rt maxRetries os :
  forall es fuel attempt lastErr w,
  replies w url os ->
  Forall2 (fails_with rt) os es ->
  (length os <= fuel)%nat ->
  attempt + Z.of_nat (length os) = maxRetries + 1 ->
  exists w',
    retry_loop fuel url key ttl rt maxRetries attempt lastErr w
    = (inl (throw_last (last_soft_error url es lastErr)), w') /\
    fetches w' = (fetches w + length os)%nat /\
    sleeps w' = sleeps w ++ backoff_delays (env w) (length os - 1) attempt
                                           (randoms w).
Proof.
  induction os as [|o os IH]; intros es fuel attempt lastErr w Hrep Hall Hfuel Hend.
  - inversion Hall; subst. exists w. rewrite retry_loop_done by (simpl in Hend; lia).
    cbn. rewrite app_nil_r. repeat split; lia.
  - inversion Hall as [|? e ? es' Ho Hrest]; subst. cbn [length] in *.
    destruct fuel as [|fuel]; [lia|].
    destruct (retry_loop_soft_turn fuel url key ttl rt maxRetries attempt lastErr
                w o e (replies_head _ _ _ _ Hrep) Ho ltac:(lia))
      as (w1 & -> & Henv1 & Hf1 & Hs1 & Hr1).
    destruct (IH es' fuel (attempt + 1) (Some (soft_error url e)) w1
                (replies_tail _ _ _ _ _ Hrep Henv1 Hf1) Hrest
                ltac:(lia) ltac:(lia))
      as (w' & Hloop & Hf & Hs).
    exists w'. split; [exact Hloop|]. split; [lia|].
    rewrite Hs, Hs1, Henv1, Hr1, <- app_assoc. f_equal.
    destruct os as [|o' os].
    + simpl in Hend.
      replace (attempt <? maxRetries) with false
        by (symmetry; apply Z.ltb_ge; lia).
      reflexivity.
    + replace (attempt <? maxRetries) with true
        by (symmetry; apply Z.ltb_lt; simpl in Hend; lia).
      cbn [length Nat.sub backoff_delays app].
      rewrite Nat.sub_0_r. do 2 f_equal. lia.
Qed.

Lemma last_soft_error_last url es e lastErr :
  last_soft_error url (es ++ [e]) lastErr = Some (soft_error url e).
Proof.
  revert lastErr. induction es as [|x es IH]; intros lastErr; [reflexivity|].
  cbn [app last_soft_error]. apply IH.
Qed.

(** X15. When every attempt ends in an exception of the platform that is not a
    transport failure (a rejected request, a body that cannot be read),
    [robustFetch] makes [maxRetries + 1] requests, sleeps the back-off delay
    between consecutive attempts but not after the last one, and throws a
    [NetworkError] carrying the message of the last exception. *)
Theorem robustFetch_soft_failures_exhaust url opts w os es e :
  cold w (cache_key url opts) ->
  replies w url os ->
  Forall2 (fails_with (default "json" (responseType opts))) os (es ++ [e]) ->
  Z.of_nat (length os) = max_retries opts w + 1 ->
  (robustFetch url opts w).1 = inl (ThApp (soft_error url e)) /\
  fetches (robustFetch url opts w).2 = (fetches w + length os)%nat /\
  sleeps (robustFetch url opts w).2
    = sleeps w ++ backoff_delays (env w) (length os - 1) 0 (randoms w).
Proof.
  intros Hcold Hrep Hall Hlen.
  destruct (cold_get _ _ Hcold) as (w0 & Hget & Hq).
  rewrite (robustFetch_miss _ _ _ _ Hget).
  pose proof (replies_quiet _ _ _ _ Hrep Hq) as Hrep0.
  destruct Hq as (Henv0 & Hf0 & Hr0 & Hs0 & _).
  destruct (retry_loop_soft_failures url (cache_key url opts)
              (default (30 * 60 * 1000) (cacheTtlMs opts))
              (default "json" (responseType opts)) (max_retries opts w) os
              (es ++ [e]) (Z.to_nat (max_retries opts w + 1)) 0 None w0
              Hrep0 Hall ltac:(lia) ltac:(lia))
    as (w' & -> & Hf & Hs).
  rewrite last_soft_error_last. cbn [fst snd throw_last].
  split; [reflexivity|]. split; [lia|]. by rewrite Hs, Hs0, Henv0, Hr0.
Qed.

(** X16. The error [robustFetch] throws for a 4xx answer is shown to the user as
    the offline banner: being a [NetworkError], it takes that branch of
    [errorToBanner]. *)
Theorem client_failure_shows_offline_banner url opts w host r :
  URL_hostname url = inr host ->
  cold w (cache_key url opts) ->
  0 <= max_retries opts w ->
  net (env w) (fetches w) url = Responds r ->
  client_failure r ->
  exists e,
    (robustFetch url opts w).1 = inl (ThApp e) /\
    ErrorBanner.errorToBanner (inl e)
    = ErrorBanner.mkBanner "error"
        "You appear to be offline. Showing pre-fetched WITS data." true.
Proof.
  intros Hhost Hcold Hbound Hnet Hcf.
  destruct (cold_get _ _ Hcold) as (w0 & Hget & Hq).
  rewrite (robustFetch_miss _ _ _ _ Hget).
  destruct Hq as (Henv0 & Hf0 & _).
  destruct (Z.to_nat (max_retries opts w + 1)) as [|fuel] eqn:Hfuel; [lia|].
  cbn [retry_loop].
  replace (0 <=? max_retries opts w) with true by (symmetry; apply Z.leb_le; lia).
  rewrite <- Henv0, <- Hf0 in Hnet.
  destruct (try_block_client_failure w0 url (cache_key url opts)
              (default (30 * 60 * 1000) (cacheTtlMs opts))
              (default "json" (responseType opts)) 0 r host Hnet Hcf Hhost)
    as (w1 & Htry & _).
  unfold bind. rewrite Htry. rewrite catch_block_not_retryable by reflexivity.
  eexists. split; reflexivity.
Qed.

End FetchCaseFacts.

(** ** The capped logs *)

Section LogFacts.
Import JS Runtime Platform.

(** A log that is pushed to and then trimmed by one entry holds the newest
    [cap] entries. *)
Lemma capped_log_newest {A B : Type} (cap : nat) (entry : B -> A)
    (push : B -> list A -> list A) :
  (forall x l, push x l = if (cap <? length (l ++ [entry x]))%nat
                          then tail (l ++ [entry x]) else l ++ [entry x]) ->
  forall xs l, (length l <= cap)%nat ->
  fold_left (fun l x => push x l) xs l
  = drop (length l + length xs - cap) (l ++ map entry xs).
Proof.
  intros Hpush. induction xs as [|x xs IH]; intros l Hl.
  - cbn [fold_left map length]. rewrite app_nil_r.
    by replace (length l + 0 - cap)%nat with 0%nat by lia.
  - cbn [fold_left map length]. rewrite Hpush, length_app. cbn [length].
    destruct (Nat.ltb_spec cap (length l + 1)) as [Hfull|Hroom].
    + destruct l as [|y l].
      * cbn [app tail length] in *. rewrite IH by (cbn; lia).
        assert (cap = 0)%nat as -> by lia. cbn [length app].
        rewrite !Nat.sub_0_r. reflexivity.
      * cbn [app tail length] in *. rewrite IH by (rewrite length_app; cbn; lia).
        rewrite length_app, <- app_assoc. cbn [length app].
        replace (S (length l) + S (length xs) - cap)%nat
          with (S (length l + 1 + length xs - cap)) by lia.
        reflexivity.
    + rewrite IH by (rewrite length_app; cbn; lia).
      rewrite length_app, <- app_assoc. cbn [length app]. f_equal. lia.
Qed.

(** X17. However many events are tracked, the event log of telemetry.js holds
    exactly the newest [MAX_EVENTS] of them (all of them while there are
    fewer), oldest first; in particular it never grows beyond the cap. *)
Theorem track_keeps_newest_events (evs : list Event) (log : list Event) :
  (length log <= MAX_EVENTS)%nat ->
  let log' := fold_left (fun l e => push_event e l) evs log in
  log' = drop (length log + length evs - MAX_EVENTS) (log ++ evs) /\
  length log' = Nat.min MAX_EVENTS (length log + length evs).
Proof.
  intros Hcap log'. subst log'.
  rewrite (capped_log_newest MAX_EVENTS id push_event) by (done || exact Hcap).
  rewrite map_id. split; [reflexivity|].
  rewrite length_drop, length_app. lia.
Qed.

(** X18. The same for the error log of errors.js and its cap [MAX_LOG]: it holds
    the name, message and code of the newest [MAX_LOG] errors. *)
Theorem logError_keeps_newest_errors (errs : list Errors.AppError)
    (log : list Errors.LogEntry) :
  (length log <= Errors.MAX_LOG)%nat ->
  let entry e := Errors.mkLogEntry (Errors.name e) (Errors.message e)
                                   (Errors.code e) in
  let log' := fold_left (fun l e => Errors.logError e l) errs log in
  log' = drop (length log + length errs - Errors.MAX_LOG)
              (log ++ map entry errs) /\
  length log' = Nat.min Errors.MAX_LOG (length log + length errs).
Proof.
  intros Hcap entry log'. subst log'.
  rewrite (capped_log_newest Errors.MAX_LOG entry Errors.logError)
    by (done || exact Hcap).
  split; [reflexivity|].
  rewrite length_drop, length_app, length_map. lia.
Qed.

End LogFacts.

(** ** More on the query planner *)

Section PlannerCaseFacts.
Import Str QueryPlanner.

(** Substituting a year removes the year from the wildcards and leaves the
    other four flags alone. *)
Lemma count_all_with_year params yr :
  count_all (with_year params yr)
  = (count_all params - if is_all params "year" then 1 else 0)%nat.
Proof.
  unfold count_all, DIMS. simpl.
  rewrite (is_all_with_year params yr "reporter"),
    (is_all_with_year params yr "partner"),
    (is_all_with_year params yr "product"),
    (is_all_with_year params yr "indicator") by discriminate.
  rewrite is_all_year_with_year.
  destruct (is_all params "reporter"), (is_all params "year"),
    (is_all params "partner"), (is_all params "product"),
    (is_all params "indicator"); reflexivity.
Qed.

Lemma count_all_le_5 params : (count_all params <= 5)%nat.
Proof.
  unfold count_all, DIMS. simpl.
  destruct (is_all params "reporter"), (is_all params "year"),
    (is_all params "partner"), (is_all params "product"),
    (is_all params "indicator"); simpl; lia.
Qed.

(** X20. Whatever plan [chunk] returns can be sent as it is: the plan is not
    empty, and each of its queries is on the datasource asked for, passes
    [validate], and is the query itself or the query with one year of the
    range substituted. *)
Theorem chunk_plan_sound ds params y0 y1 plan :
  chunk ds params (y0, y1) = inr plan ->
  plan <> [] /\
  Forall (fun q =>
            datasource q = ds /\
            valid (validate (QueryPlanner.params q)) = true /\
            (QueryPlanner.params q = params \/
             exists yr, y0 <= yr <= y1 /\
                        QueryPlanner.params q = with_year params yr)) plan.
Proof.
  destruct (valid (validate params)) eqn:Hv.
  - unfold chunk. rewrite Hv. intros [= <-]. split; [discriminate|].
    constructor; [|constructor]. cbn. split; [reflexivity|].
    split; [exact Hv | by left].
  - rewrite chunk_invalid by exact Hv.
    destruct (legal_sub_queries ds params (years y0 y1)) as [|q qs] eqn:Hl;
      [discriminate|].
    intros [= <-]. split; [discriminate|]. rewrite <- Hl.
    apply Forall_forall. intros x Hx. unfold legal_sub_queries in Hx.
    apply list_elem_of_In, list_elem_of_fmap in Hx as (yr & -> & Hyr).
    apply list_elem_of_In, filter_In in Hyr as [Hin Hok].
    apply list_elem_of_In, elem_of_years in Hin.
    split; [reflexivity|]. split; [exact Hok|]. right. by exists yr.
Qed.

(** X21. Splitting by year rescues a rejected query only when exactly three
    dimensions are ALL and the year is one of them: with another number of
    wildcards, with a specific year, or with an empty year range, [chunk]
    throws [WitsLimitError] with the reason [validate] gave. *)
Theorem chunk_cannot_split_throws ds params y0 y1 :
  valid (validate params) = false ->
  count_all params <> 3%nat \/ is_all params "year" = false \/ y1 < y0 ->
  chunk ds params (y0, y1)
  = inl (Errors.WitsLimitError (default "undefined" (reason (validate params)))).
Proof.
  intros Hv Hcase. rewrite chunk_invalid by exact Hv.
  assert (Hnone : legal_sub_queries ds params (years y0 y1) = []);
    [|by rewrite Hnone].
  destruct (Z.lt_ge_cases y1 y0) as [Hempty|Hrange].
  { by rewrite years_nil. }
  assert (Hsub : forall yr, valid (validate (with_year params yr)) = false).
  { intros yr. rewrite validate_valid in Hv |- *.
    rewrite count_all_with_year.
    rewrite (is_all_with_year params yr "reporter"),
      (is_all_with_year params yr "partner") by discriminate.
    apply andb_false_iff in Hv as [Hv|Hv]; [|by rewrite Hv, andb_false_r].
    apply Nat.leb_gt in Hv. apply andb_false_iff. left. apply Nat.leb_gt.
    destruct Hcase as [Hc|[Hy|Hlt]]; [| |lia].
    - destruct (is_all params "year"); lia.
    - rewrite Hy. lia. }
  unfold legal_sub_queries.
  induction (years y0 y1) as [|y ys IH]; simpl; [reflexivity|].
  by rewrite Hsub.
Qed.

(** X22. [validate] rejects a query for one of two reasons only, and the
    reporter-with-partner reason is given only when at most two dimensions
    are ALL: the third rule of the source (`When 2 dims are ALL, ... must be
    specific`) is never the reason. *)
Theorem validate_two_reasons params :
  valid (validate params) = false ->
  ((2 < count_all params)%nat /\
   reason (validate params)
   = Some (pretty (count_all params) +:+ " dimensions set to ALL; max 2 allowed."))
  \/
  (count_all params = 2%nat /\
   is_all params "reporter" = true /\ is_all params "partner" = true /\
   reason (validate params) = Some "reporter=ALL + partner=ALL is not allowed.").
Proof.
  unfold validate, count_all, DIMS. simpl.
  destruct (is_all params "reporter") eqn:Er, (is_all params "year") eqn:Ey,
    (is_all params "partner") eqn:Ep, (is_all params "product") eqn:Eo,
    (is_all params "indicator") eqn:Ei; simpl;
    rewrite ?Er, ?Ey, ?Ep, ?Eo, ?Ei; simpl; intros Hv;
    try discriminate Hv;
    first [ left; split; [lia | reflexivity]
          | right; repeat split; reflexivity ].
Qed.

End PlannerCaseFacts.

(** ** The WITS client *)

Section WitsClientFacts.
Import Str JS Runtime Platform Fetchers QueryPlanner WitsClient.
Context `{Builtins}.

Ltac run :=
  repeat first
    [ progress unfold bind, ret, reads, writes, track, fetch, sleep, logError,
        Math_random, Date_now, backoff, sleep_before_retry
    | progress cbn [rate_limit_wait flag_retryBaseMs flag_maxRetries
                    with_mem with_session with_ticks with_fetches with_randoms
                    with_sleeps with_events with_errlog
                    env mem session ticks fetches randoms sleeps events errlog
                    fst snd negb] ].

(** The loop settles every query of the plan, whatever the fate of the
    others. *)
Lemma fetch_queries_settles queries :
  forall results w,
  0 <= flag_maxRetries w ->
  exists rs w',
    fetch_queries queries results w = (inr (results ++ rs), w') /\
    map r_url rs
    = map (fun q => json (datasource q) (QueryPlanner.params q)) queries /\
    Forall settled rs /\
    env w' = env w /\
    (fetches w <= fetches w'
     <= fetches w + length queries * Z.to_nat (flag_maxRetries w + 1))%nat.
Proof.
  induction queries as [|q rest IH]; intros results w Hflag.
  - exists [], w. cbn. rewrite app_nil_r. repeat split; (done || lia).
  - cbn [fetch_queries]. run.
    set (url := json (datasource q) (QueryPlanner.params q)).
    match goal with |- context [robustFetch url fetch_opts ?w1] =>
      destruct (robustFetch url fetch_opts w1) as [r w2] eqn:Hrun;
      pose proof (robustFetch_frame _ _ _ _ _ Hrun) as (Henv2 & Hf2 & _ & Hun)
    end.
    unfold max_retries in Hf2, Hun. cbn in Henv2, Hf2, Hun.
    match type of Hun with _ -> flag_maxRetries ?w1 < 0 =>
      change (flag_maxRetries w1) with (flag_maxRetries w) in Hf2, Hun
    end.
    assert (Hnext : forall res w3,
      settled res -> r_url res = url -> env w3 = env w ->
      (fetches w <= fetches w3
       <= fetches w + Z.to_nat (flag_maxRetries w + 1))%nat ->
      exists rs w',
        fetch_queries rest (results ++ [res]) w3 = (inr (results ++ rs), w') /\
        map r_url rs = url :: map (fun q => json (datasource q)
                                               (QueryPlanner.params q)) rest /\
        Forall settled rs /\ env w' = env w /\
        (fetches w <= fetches w'
         <= fetches w + S (length rest) * Z.to_nat (flag_maxRetries w + 1))%nat).
    { intros res w3 Hres Hurl Henv3 Hf3.
      assert (Hflag3 : 0 <= flag_maxRetries w3)
        by (unfold flag_maxRetries in *; by rewrite Henv3).
      destruct (IH (results ++ [res]) w3 Hflag3)
        as (rs & w' & Hrun' & Hurls & Hall & Henv' & Hf').
      exists (res :: rs), w'. rewrite Hrun', <- app_assoc.
      split; [reflexivity|]. split; [cbn; by rewrite Hurl, Hurls|].
      split; [by constructor|]. split; [congruence|].
      assert (flag_maxRetries w3 = flag_maxRetries w) as Hsame
        by (unfold flag_maxRetries; by rewrite Henv3).
      rewrite Hsame in Hf'. cbn [length] in *. lia. }
    destruct r as [[e|n|]|data].
    + unfold failed. run. apply Hnext;
        [right; by repeat split | reflexivity | exact Henv2 | exact Hf2].
    + unfold failed. run. apply Hnext;
        [right; by repeat split | reflexivity | exact Henv2 | exact Hf2].
    + specialize (Hun eq_refl). lia.
    + apply Hnext; [left; by split | reflexivity | exact Henv2 | exact Hf2].
Qed.

(** X23. [fetchWitsData] throws the planner's [WitsLimitError] before anything is
    requested or tracked; otherwise, the retry flag not being negative, it
    never throws: it returns one entry per query of the plan, in the order
    of the plan and with the URL of that query, each one delivered or failed
    with the error's message, a failure not stopping the queries after it;
    and it makes at most [maxRetries + 1] requests per query. *)
Theorem fetchWitsData_one_result_per_query ds params yearRange w :
  0 <= flag_maxRetries w ->
  match chunk ds params yearRange with
  | inl e => fetchWitsData ds params yearRange w = (inl (ThApp e), w)
  | inr plan =>
      exists results,
        (fetchWitsData ds params yearRange w).1 = inr results /\
        map r_url results
        = map (fun q => json (datasource q) (QueryPlanner.params q)) plan /\
        Forall settled results /\
        (fetches w <= fetches (fetchWitsData ds params yearRange w).2
         <= fetches w + length plan * Z.to_nat (flag_maxRetries w + 1))%nat
  end.
Proof.
  intros Hflag. unfold fetchWitsData.
  destruct (chunk ds params yearRange) as [e|plan]; [reflexivity|].
  destruct (fetch_queries_settles plan [] w Hflag)
    as (rs & w' & Hrun & Hurls & Hall & _ & Hf).
  exists rs. rewrite Hrun. cbn [fst snd app].
  split; [reflexivity|]. split; [exact Hurls|]. split; [exact Hall | exact Hf].
Qed.

End WitsClientFacts.

(** ** More on the validators *)

Section ValidatorCaseFacts.
Import JS Validators.
Context `{Builtins}.

(** A field that is [null] passes every check: it is neither [undefined]
    nor empty, and it is falsy. *)
Lemma enum_error_insert_null row k f allowed label :
  enum_error row f allowed label = [] ->
  enum_error (<[k := JNull]> row) f allowed label = [].
Proof.
  unfold enum_error. destruct (decide (k = f)) as [->|Hne].
  - by rewrite field_insert.
  - by rewrite field_insert_ne.
Qed.

Lemma iso3_error_insert_null row k f :
  iso3_error row f = [] -> iso3_error (<[k := JNull]> row) f = [].
Proof.
  unfold iso3_error. destruct (decide (k = f)) as [->|Hne].
  - by rewrite field_insert.
  - by rewrite field_insert_ne.
Qed.

(** X24. Not only the value field may be [null]: overwriting any field of a
    record that passes validation with [null], a required one such as
    [source_id] included, gives a record that still passes. *)
Theorem null_field_keeps_record_valid (trade macro : Row) (f : string) :
  valid (validateTradeFact trade) = true ->
  valid (validateMacroFact macro) = true ->
  valid (validateTradeFact (<[f := JNull]> trade)) = true /\
  valid (validateMacroFact (<[f := JNull]> macro)) = true.
Proof.
  intros Ht Hm.
  apply valid_iff_no_errors_trade in Ht. apply valid_iff_no_errors_macro in Hm.
  rewrite trade_errors in Ht. rewrite macro_errors in Hm.
  apply app_eq_nil in Ht as [Ht0 Ht]. apply app_eq_nil in Ht as [Ht1 Ht].
  apply app_eq_nil in Ht as [Ht2 Ht]. apply app_eq_nil in Ht as [Ht3 Ht].
  apply app_eq_nil in Ht as [Ht4 Ht5]. apply app_eq_nil in Hm as [Hm0 Hm1].
  split.
  - apply valid_iff_no_errors_trade. rewrite trade_errors.
    rewrite (missing_all_insert_null _ _ _ Ht0).
    rewrite (enum_error_insert_null _ _ _ _ _ Ht1),
      (enum_error_insert_null _ _ _ _ _ Ht2),
      (enum_error_insert_null _ _ _ _ _ Ht3),
      (iso3_error_insert_null _ _ _ Ht4), (iso3_error_insert_null _ _ _ Ht5).
    reflexivity.
  - apply valid_iff_no_errors_macro. rewrite macro_errors.
    rewrite (missing_all_insert_null _ _ _ Hm0),
      (iso3_error_insert_null _ _ _ Hm1).
    reflexivity.
Qed.

(** The loop of [validateBatch], in closed form. *)
Lemma batch_loop (validator : Row -> Verdict) rows :
  forall acc : list Row * list (Row * list string),
  fold_left (fun acc row =>
               if valid (validator row)
               then (acc.1 ++ [row], acc.2)
               else (acc.1, acc.2 ++ [(row, errors (validator row))]))
            rows acc
  = (acc.1 ++ List.filter (fun r => valid (validator r)) rows,
     acc.2 ++ map (fun r => (r, errors (validator r)))
                  (List.filter (fun r => negb (valid (validator r))) rows)).
Proof.
  induction rows as [|row rows IH]; intros [v i]; cbn [fold_left List.filter map].
  - cbn. by rewrite !app_nil_r.
  - rewrite IH. destruct (valid (validator row)); cbn [negb fst snd map];
      by rewrite <- ?app_assoc.
Qed.

(** X25. [validateBatch] sorts the rows into the two lists without losing,
    repeating or reordering any: [valid] holds the rows the validator of the
    type accepts (the macro validator for every type but "trade_fact"),
    [invalid] the others with their error lists, the two totals add up to
    the number of rows, and one [SchemaValidationError] carrying the number
    of invalid rows is logged exactly when there is one. *)
Theorem validateBatch_partitions (rows : list Row) (type : string)
    (log : list Errors.LogEntry) :
  let validator :=
    if String.eqb type "trade_fact" then validateTradeFact else validateMacroFact in
  let b := (validateBatch rows type log).1 in
  let log' := (validateBatch rows type log).2 in
  b_valid b = List.filter (fun r => valid (validator r)) rows /\
  b_invalid b = map (fun r => (r, errors (validator r)))
                    (List.filter (fun r => negb (valid (validator r))) rows) /\
  (totalValid b + totalInvalid b)%nat = length rows /\
  totalValid b = length (b_valid b) /\
  totalInvalid b = length (b_invalid b) /\
  log' = if forallb (fun r => valid (validator r)) rows then log
         else Errors.logError
                (Errors.SchemaValidationError type (totalInvalid b)) log.
Proof.
  intros validator b log'. subst b log'. unfold validateBatch. cbv zeta.
  fold validator.
  rewrite (batch_loop validator rows ([], [])). cbn [fst snd app].
  cbn [b_valid b_invalid totalValid totalInvalid].
  split; [reflexivity|]. split; [reflexivity|].
  split.
  { rewrite length_map.
    induction rows as [|r rows IH]; cbn [List.filter length]; [reflexivity|].
    destruct (valid (validator r)); cbn [negb length]; lia. }
  split; [reflexivity|]. split; [reflexivity|].
  rewrite length_map.
  induction rows as [|r rows IH]; cbn [List.filter forallb length]; [reflexivity|].
  destruct (valid (validator r)); cbn [negb andb length]; [exact IH | reflexivity].
Qed.

End ValidatorCaseFacts.

(** ** Normalised WITS rows under validation *)

Section WitsRowFacts.
Import JS Validators Wits.
Context `{Builtins}.

(** A truthy value is neither [undefined] nor the empty string. *)
Lemma truthy_not_missing v :
  truthy v = true -> is_undefined v || is_str v "" = false.
Proof.
  destruct v as [| |b|n|s|l|o|x]; cbn; try discriminate; try reflexivity.
  by destruct (String.eqb s "").
Qed.

(** The fields of the object literal [normaliseWitsResponse] pushes. *)
Lemma row_literal_fields (v1 v2 v3 v4 v5 v6 v7 v8 v9 v10 v11 v12 v13 : JVal) :
  let row : Row := list_to_map
    [("date", v1); ("frequency", v2); ("reporter_iso3", v3);
     ("partner_iso3", v4); ("flow", v5); ("product_level", v6);
     ("product_code", v7); ("product_name", v8); ("value_usd", v9);
     ("unit", v10); ("source_id", v11); ("retrieval_ts", v12);
     ("request_fingerprint", v13)] in
  field row "frequency" = v2 /\ field row "product_level" = v6 /\
  field row "product_code" = v7 /\ field row "value_usd" = v9 /\
  field row "source_id" = v11.
Proof. repeat split; reflexivity. Qed.

(** The row made of an observation whose properties can be read. *)
Lemma normalise_row_literal obs datasource url ts row :
  normalise_row obs datasource url ts = Some row ->
  row = list_to_map
    [("date", or_else (prop_of obs "year")
                      (or_else (prop_of obs "TimePeriod") (JStr "")));
     ("frequency", JStr "A");
     ("reporter_iso3", or_else (prop_of obs "ReporterISO3")
                               (or_else (prop_of obs "reporter") (JStr "")));
     ("partner_iso3", or_else (prop_of obs "PartnerISO3")
                              (or_else (prop_of obs "partner") (JStr "")));
     ("flow", JStr (mapFlow (or_else (prop_of obs "TradeFlowCode")
                                     (or_else (prop_of obs "Indicator")
                                              (JStr "")))));
     ("product_level", JStr (if is_str (prop_of obs "ProductCode") "TOTAL"
                                || is_str (prop_of obs "ProductCode") "999999"
                             then "TOTAL" else "GROUP"));
     ("product_code", or_else (prop_of obs "ProductCode") (JStr "TOTAL"));
     ("product_name", or_else (prop_of obs "ProductDescription")
                              (or_else (prop_of obs "Product") (JStr "")));
     ("value_usd", value_or_null (prop_of obs "Value"));
     ("unit", JStr "USD");
     ("source_id", JStr ("wits:" +:+ datasource));
     ("retrieval_ts", JStr ts);
     ("request_fingerprint", JStr url)].
Proof.
  intros Hrow. unfold normalise_row in Hrow.
  destruct obs; try discriminate Hrow; cbv zeta in Hrow;
    apply (inj Some) in Hrow; symmetry; exact Hrow.
Qed.

(** X26. Whatever the observation holds, the validator never faults the row made
    of it for its frequency, product level, product code, value or source:
    the only reports it can make are a missing date, reporter, partner,
    flow, timestamp or fingerprint, an unknown flow, and a reporter or
    partner code that is not three characters long. *)
Theorem normalised_row_errors obs datasource url ts row :
  normalise_row obs datasource url ts = Some row ->
  errors (validateTradeFact row)
  = missing row "date" ++ missing row "reporter_iso3"
    ++ missing row "partner_iso3" ++ missing row "flow"
    ++ missing row "retrieval_ts" ++ missing row "request_fingerprint"
    ++ enum_error row "flow" VALID_FLOWS "Invalid flow: "
    ++ iso3_error row "reporter_iso3" ++ iso3_error row "partner_iso3".
Proof.
  intros Hrow. rewrite trade_errors.
  assert (Hfields :
    field row "frequency" = JStr "A" /\
    (field row "product_level" = JStr "TOTAL" \/
     field row "product_level" = JStr "GROUP") /\
    truthy (field row "product_code") = true /\
    (field row "value_usd" = JNull \/
     exists n, field row "value_usd" = JNum n) /\
    field row "source_id" = JStr ("wits:" +:+ datasource)).
  { rewrite (normalise_row_literal _ _ _ _ _ Hrow).
    match goal with |- context [list_to_map
        [("date", ?v1); ("frequency", ?v2); ("reporter_iso3", ?v3);
         ("partner_iso3", ?v4); ("flow", ?v5); ("product_level", ?v6);
         ("product_code", ?v7); ("product_name", ?v8); ("value_usd", ?v9);
         ("unit", ?v10); ("source_id", ?v11); ("retrieval_ts", ?v12);
         ("request_fingerprint", ?v13)]] =>
      destruct (row_literal_fields v1 v2 v3 v4 v5 v6 v7 v8 v9 v10 v11 v12 v13)
        as (-> & -> & -> & -> & ->)
    end.
    split; [reflexivity|].
    split; [destruct (is_str _ "TOTAL" || is_str _ "999999"); [by left | by right]|].
    split; [unfold or_else; destruct (truthy (prop_of obs "ProductCode")) eqn:E;
            [exact E | reflexivity]|].
    split; [|reflexivity].
    unfold value_or_null, or_else.
    destruct (truthy (JNum _)); [right; by eexists | by left]. }
  destruct Hfields as (Hfreq & Hlevel & Hcode & Hvalue & Hsource).
  unfold TRADE_FACT_REQUIRED. cbn [flat_map].
  assert (missing row "frequency" = []) as -> by (unfold missing; by rewrite Hfreq).
  assert (missing row "product_level" = []) as ->
    by (unfold missing; destruct Hlevel as [-> | ->]; reflexivity).
  assert (missing row "product_code" = []) as ->
    by (unfold missing; by rewrite truthy_not_missing).
  assert (missing row "value_usd" = []) as ->
    by (unfold missing; destruct Hvalue as [-> | (n & ->)]; reflexivity).
  assert (missing row "source_id" = []) as ->
    by (unfold missing; by rewrite Hsource).
  assert (enum_error row "frequency" VALID_FREQUENCIES "Invalid frequency: " = [])
    as -> by (unfold enum_error; by rewrite Hfreq).
  assert (enum_error row "product_level" VALID_PRODUCT_LEVELS
                     "Invalid product_level: " = []) as ->
    by (unfold enum_error; destruct Hlevel as [-> | ->]; reflexivity).
  cbn [app]. rewrite !app_nil_r, <- !app_assoc. reflexivity.
Qed.

End WitsRowFacts.

(** ** More on the forecasting routines *)

Section ModelingCaseFacts.
Import JS Modeling Metrics.
Open Scope Qc_scope.
Context `{Builtins}.

(** X27. [holtWinters] always returns [horizon] forecasts; with at least two
    seasons of history none of them is [null], whatever gaps the history
    has. *)
Theorem holtWinters_forecast_shape (values : Series) (p : Smoothing) :
  length (holtWinters values p) = horizon p /\
  ((2 * seasonPeriod p <= length values)%nat ->
   Forall is_Some (holtWinters values p)).
Proof.
  unfold holtWinters.
  destruct (Nat.ltb_spec (length values) (2 * seasonPeriod p)) as [Hlt|Hge].
  - split; [apply length_seasonalNaive | lia].
  - unfold push_hw. rewrite fold_left_push, app_nil_l.
    split; [by rewrite length_map, length_seq|].
    intros _. apply Forall_forall. intros x Hx.
    apply list_elem_of_In, list_elem_of_fmap in Hx as (h & -> & _). by eexists.
Qed.

(** X28. The hold-out split of [rollingEval]: with [testSize] observations to
    hold out and at least three more, the forecast function is called once,
    on the history without its [null] entries and without its last
    [testSize] observations; the metrics and the residuals compare its
    forecast with exactly those last observations, one residual each; and an
    exception of the forecast function passes through. *)
Theorem rollingEval_holdout_split (values : Series) (testSize : nat)
    (fcFn : Series -> option Series) :
  (testSize + 3 <= length (clean_of values))%nat ->
  let clean := clean_of values in
  let k := (length clean - testSize)%nat in
  take k clean ++ drop k clean = clean /\
  length (drop k clean) = testSize /\
  rollingEval values (Z.of_nat testSize) fcFn
  = match fcFn (map Some (take k clean)) with
    | None => None
    | Some pred =>
        Some (mkDiagnostics
                (calcRMSE (map Some (drop k clean)) pred)
                (calcMAPE (map Some (drop k clean)) pred)
                (imap (fun i v => v - or_zero (item pred i)) (drop k clean)))
    end /\
  (forall pred d,
     fcFn (map Some (take k clean)) = Some pred ->
     rollingEval values (Z.of_nat testSize) fcFn = Some d ->
     length (residuals d) = testSize).
Proof.
  intros Hlen clean k. fold clean in Hlen.
  assert (Hrun : rollingEval values (Z.of_nat testSize) fcFn
    = match fcFn (map Some (take k clean)) with
      | None => None
      | Some pred =>
          Some (mkDiagnostics
                  (calcRMSE (map Some (drop k clean)) pred)
                  (calcMAPE (map Some (drop k clean)) pred)
                  (imap (fun i v => v - or_zero (item pred i)) (drop k clean)))
      end).
  { unfold rollingEval. fold clean.
    replace (Z.of_nat (length clean) <? Z.of_nat testSize + 3)%Z with false
      by (symmetry; apply Z.ltb_ge; lia).
    assert (Htrain : slice clean 0 (Z.of_nat (length clean) - Z.of_nat testSize)
                     = take k clean).
    { replace (Z.of_nat (length clean) - Z.of_nat testSize)%Z
        with (Z.of_nat k) by lia.
      change (slice clean 0 (Z.of_nat k))
        with (slice clean (Z.of_nat 0) (Z.of_nat k)).
      rewrite (slice_in_range clean 0 k) by lia.
      by rewrite Nat.sub_0_r, drop_0. }
    assert (Htest : slice_from clean (Z.of_nat (length clean) - Z.of_nat testSize)
                    = drop k clean).
    { unfold slice_from.
      replace (Z.of_nat (length clean) - Z.of_nat testSize)%Z
        with (Z.of_nat k) by lia.
      rewrite (slice_in_range clean k (length clean)) by lia.
      apply take_ge. rewrite length_drop. lia. }
    by rewrite Htrain, Htest. }
  split; [apply take_drop|]. split; [rewrite length_drop; lia|].
  split; [exact Hrun|].
  intros pred d Hpred. rewrite Hrun, Hpred. intros [= <-]. cbn [residuals].
  rewrite length_imap, length_drop. lia.
Qed.

Lemma rmse_loop_count (a p : Series) (l : list nat) :
  forall sc : Qc * nat,
  (fold_left (rmse_step a p) l sc).2
  = (sc.2 + length (List.filter (comparable_at a p) l))%nat.
Proof.
  induction l as [|i l IH]; intros sc; cbn [fold_left List.filter length].
  - lia.
  - rewrite IH. unfold rmse_step, comparable_at.
    destruct (item a i), (item p i); cbn [snd length]; lia.
Qed.

(** X29. [calcRMSE] is [null] exactly when no position holds both an actual and
    a predicted value; a prediction array that is too short counts as
    missing from its end on. *)
Theorem calcRMSE_null_iff_no_pair (a p : Series) :
  calcRMSE a p = None <->
  forall i x y, a !! i = Some (Some x) -> p !! i = Some (Some y) -> False.
Proof.
  unfold calcRMSE. rewrite rmse_loop_count. cbn [snd]. rewrite Nat.add_0_l.
  destruct (List.filter (comparable_at a p) (seq 0 (length a))) as [|i l] eqn:Hf.
  - split; [|reflexivity]. intros _ i x y Ha Hp.
    assert (Hin : In i (List.filter (comparable_at a p) (seq 0 (length a)))).
    { apply filter_In. split.
      - apply in_seq. apply lookup_lt_Some in Ha. lia.
      - unfold comparable_at, item. by rewrite Ha, Hp. }
    rewrite Hf in Hin. destruct Hin.
  - split; [discriminate|]. intros Hnone. exfalso.
    assert (Hin : In i (List.filter (comparable_at a p) (seq 0 (length a))))
      by (rewrite Hf; by left).
    apply filter_In in Hin as [_ Hc]. unfold comparable_at, item in Hc.
    destruct (a !! i) as [[x|]|] eqn:Ha; try discriminate Hc.
    destruct (p !! i) as [[y|]|] eqn:Hp; try discriminate Hc.
    exact (Hnone i x y Ha Hp).
Qed.

Lemma Math_abs_0 : Math_abs 0 = 0.
Proof. unfold Math_abs. destruct (Qclt_le_dec 0 0); [|reflexivity]. ring. Qed.

Lemma mape_loop_perfect (a : Series) (l : list nat) :
  forall c : nat,
  fold_left (mape_step a a) l (0, c)
  = (0, (c + length (List.filter (fun i => nonzero (item a i)) l))%nat).
Proof.
  assert (Hstep : forall c i,
    mape_step a a (0, c) i = (0, if nonzero (item a i) then S c else c)).
  { intros c i. unfold mape_step, nonzero.
    destruct (item a i) as [x|]; [|reflexivity].
    destruct (Qc_eq_bool x 0) eqn:E; cbn [negb fst snd]; [reflexivity|].
    assert (x <> 0) as Hx.
    { intros Hx0. unfold Qc_eq_bool in E.
      destruct (Qcanon.Qc_eq_dec x 0) as [_|Hne]; [discriminate E | exact (Hne Hx0)]. }
    f_equal. assert ((x - x) / x = 0) as -> by (field; exact Hx).
    rewrite Math_abs_0. ring. }
  induction l as [|i l IH]; intros c; cbn [fold_left List.filter].
  - cbn [length]. f_equal. lia.
  - rewrite Hstep. destruct (nonzero (item a i)); rewrite IH; cbn [length];
      f_equal; lia.
Qed.

(** X30. A forecast that hits every actual value has a MAPE of exactly 0, unless
    no actual value is a number other than 0: then there is nothing to
    average and the MAPE is [null]. *)
Theorem calcMAPE_perfect_forecast (a : Series) :
  calcMAPE a a = if existsb nonzero a then Some 0 else None.
Proof.
  unfold calcMAPE. rewrite mape_loop_perfect. cbn [fst snd]. rewrite Nat.add_0_l.
  assert (Hcount : forall (l : Series) (k : nat),
    k = length l ->
    List.filter (fun i => nonzero (item (l ++ []) i)) (seq 0 k) = [] <->
    existsb nonzero l = false).
  { intros l k ->. rewrite app_nil_r. split.
    - intros Hnil. apply not_true_is_false. intros Hex.
      apply existsb_exists in Hex as (v & Hin & Hv).
      apply list_elem_of_In, list_elem_of_lookup in Hin as (i & Hi).
      assert (Hin : In i (List.filter (fun i => nonzero (item l i))
                                      (seq 0 (length l)))).
      { apply filter_In. split.
        - apply in_seq. apply lookup_lt_Some in Hi. lia.
        - unfold item. by rewrite Hi. }
      rewrite Hnil in Hin. destruct Hin.
    - intros Hex.
      destruct (List.filter _ _) as [|i r] eqn:Hf; [reflexivity|]. exfalso.
      assert (Hin : In i (List.filter (fun i => nonzero (item l i))
                                      (seq 0 (length l))))
        by (rewrite Hf; by left).
      apply filter_In in Hin as [_ Hv]. unfold item in Hv.
      destruct (l !! i) as [v|] eqn:Hi; [|discriminate Hv].
      assert (existsb nonzero l = true) as Htrue.
      { apply existsb_exists. exists v. split; [|exact Hv].
        apply list_elem_of_In, list_elem_of_lookup. by exists i. }
      congruence. }
  specialize (Hcount a (length a) eq_refl). rewrite app_nil_r in Hcount.
  destruct (List.filter _ _) as [|i r] eqn:Hf.
  - destruct Hcount as [-> _]; reflexivity.
  - destruct (existsb nonzero a) eqn:Hex.
    + cbn [length Nat.ltb Nat.leb]. f_equal; unfold Qcdiv; ring.
    + destruct Hcount as [_ Hback]. specialize (Hback eq_refl). discriminate.
Qed.

End ModelingCaseFacts.

(** ** The properties at sample inputs *)

Section CaseExamples.
Import Str JS Runtime Platform Fetchers FetchCases.

#[local] Existing Instance SampleBuiltins.sample.

Lemma sample_replies (script : list FetchOutcome) :
  replies (scripted script) wits_url script.
Proof.
  intros k o Hk. cbn [scripted env net fetches Nat.add].
  revert k Hk. induction script as [|x xs IH]; intros [|k] Hk;
    try discriminate; simpl in *.
  - by injection Hk as ->.
  - by apply IH.
Qed.

Lemma set_then_get_returns_value_witness :
  (Cache.get "k" (Cache.set "k" (JStr "x") 60000 world_offline).2).1 = JStr "x".
Proof.
  apply (set_then_get_returns_value "k" (JStr "x") 60000 world_offline);
    [reflexivity | vm_compute; reflexivity].
Defined.

Lemma get_expired_misses_witness :
  (Cache.get "k" world_stale).1 = JUndefined /\
  mem (Cache.get "k" world_stale).2 = mem world_stale.
Proof.
  assert (Hmem : mem world_stale !! "k" = Some (mkEntry (JStr "old") 500))
    by (vm_compute; reflexivity).
  assert (Hold : expires (mkEntry (JStr "old") 500)
                 <= clock (env world_stale) (ticks world_stale))
    by (vm_compute; discriminate).
  assert (Hsess : forall p, session world_stale !! ("cache:" +:+ "k") = Some p ->
            expires p <= clock (env world_stale) (S (ticks world_stale)))
    by (intros p Hp; vm_compute in Hp; discriminate Hp).
  destruct (get_expired_misses "k" world_stale _ Hmem Hold Hsess)
    as (Hmiss & Hkept & _).
  split; assumption.
Defined.

Lemma set_then_reload_returns_json_copy_witness :
  let stored := (Cache.set "k" sample_payload 60000 world_offline).2 in
  (Cache.get "k" (with_mem (fun _ => ∅) stored)).1 = json_copy sample_payload.
Proof.
  intros stored.
  apply (set_then_reload_returns_json_copy "k" sample_payload 60000
           world_offline (with_mem (fun _ => ∅) stored)).
  - reflexivity.
  - reflexivity.
  - vm_compute. reflexivity.
  - reflexivity.
  - vm_compute. reflexivity.
Defined.

Lemma set_survives_storage_failure_witness :
  mem (Cache.set "k" (JStr "x") 60000 world_no_storage).2 !! "k"
    = Some (mkEntry (JStr "x") 61000) /\
  session (Cache.set "k" (JStr "x") 60000 world_no_storage).2
    = session world_no_storage.
Proof.
  apply (set_survives_storage_failure "k" (JStr "x") 60000 world_no_storage).
  reflexivity.
Defined.

Lemma invalidate_keeps_other_keys_witness :
  mem (CacheAdmin.invalidate "a" world_stale).2 !! "k" = mem world_stale !! "k".
Proof.
  apply (invalidate_keeps_other_keys "a" "k" world_stale). discriminate.
Defined.

Lemma robustFetch_failure_caches_nothing_witness :
  mem (robustFetch wits_url no_options world_404).2
  = mem (Cache.get (cache_key wits_url no_options) world_404).2.
Proof.
  eapply robustFetch_failure_caches_nothing. vm_compute. reflexivity.
Defined.

Lemma robustFetch_negative_bound_witness :
  let opts := mkOptions None (Some (-1)) None None in
  (robustFetch wits_url opts world_200).1 = inl ThUndefined /\
  fetches (robustFetch wits_url opts world_200).2 = 0%nat.
Proof.
  intros opts.
  destruct (robustFetch_negative_bound wits_url opts world_200)
    as (Hthrown & Hfetches & _).
  - vm_compute. reflexivity.
  - vm_compute. reflexivity.
  - split; [exact Hthrown | exact Hfetches].
Defined.

Lemma robustFetch_cors_blocked_witness :
  (robustFetch wits_url no_options world_blocked).1
  = inl (ThApp (Errors.CorsError "wits.worldbank.org")) /\
  fetches (robustFetch wits_url no_options world_blocked).2 = 1%nat.
Proof.
  destruct (robustFetch_cors_blocked wits_url no_options world_blocked
              "wits.worldbank.org" (mkNativeExn "TypeError" "Failed to fetch"))
    as (Hthrown & Hfetches & _).
  - vm_compute. reflexivity.
  - vm_compute. reflexivity.
  - vm_compute. discriminate.
  - reflexivity.
  - reflexivity.
  - reflexivity.
  - split; [exact Hthrown | exact Hfetches].
Defined.

Lemma robustFetch_offline_witness :
  exists err,
    (robustFetch wits_url no_options world_offline).1 = inl (ThApp err) /\
    Errors.message err = "Offline" /\ Errors.retryable err = true /\
    fetches (robustFetch wits_url no_options world_offline).2 = 1%nat.
Proof.
  destruct (robustFetch_offline wits_url no_options world_offline
              (mkNativeExn "TypeError" "Failed to fetch"))
    as (err & Hthrown & -> & Hretry & Hfetches & _).
  - vm_compute. reflexivity.
  - vm_compute. discriminate.
  - reflexivity.
  - reflexivity.
  - reflexivity.
  - eexists. split; [exact Hthrown|]. split; [reflexivity|].
    split; [exact Hretry | exact Hfetches].
Defined.

Lemma robustFetch_payload_too_large_witness :
  (robustFetch wits_url no_options world_huge).1
  = inl (ThApp (Errors.PayloadTooLargeError "wits.worldbank.org")) /\
  errlog (robustFetch wits_url no_options world_huge).2 = [].
Proof.
  destruct (robustFetch_payload_too_large wits_url no_options world_huge
              "wits.worldbank.org" huge)
    as (Hthrown & _ & _ & Hlog & _).
  - vm_compute. reflexivity.
  - vm_compute. reflexivity.
  - vm_compute. discriminate.
  - reflexivity.
  - repeat split; reflexivity.
  - split; [exact Hthrown | exact Hlog].
Defined.

Lemma robustFetch_honours_retry_after_witness :
  (robustFetch wits_url no_options world_slow_down).1 = inr sample_payload /\
  sleeps (robustFetch wits_url no_options world_slow_down).2 = [Qc_of_Z 7000].
Proof.
  destruct (robustFetch_honours_retry_after wits_url no_options world_slow_down
              "wits.worldbank.org" slow_down (plain 200 sample_payload)
              sample_payload 7)
    as (Hdata & Hsleeps & _).
  - vm_compute. reflexivity.
  - vm_compute. reflexivity.
  - vm_compute. discriminate.
  - apply (sample_answers [slow_down; plain 200 sample_payload]).
  - reflexivity.
  - reflexivity.
  - lia.
  - repeat split; reflexivity.
  - split; [exact Hdata | exact Hsleeps].
Defined.

Lemma robustFetch_soft_failures_exhaust_witness :
  (robustFetch wits_url no_options (scripted html_pages)).1
  = inl (ThApp (soft_error wits_url
                  (mkNativeExn "SyntaxError" "Unexpected token < in JSON"))) /\
  fetches (robustFetch wits_url no_options (scripted html_pages)).2 = 4%nat /\
  length (sleeps (robustFetch wits_url no_options (scripted html_pages)).2)
  = 3%nat.
Proof.
  pose (e := mkNativeExn "SyntaxError" "Unexpected token < in JSON").
  assert (Hfail : fails_with "json" (Responds (unparsable 200)) e).
  { split; [reflexivity|]. right. exists (unparsable 200).
    repeat split; reflexivity. }
  destruct (robustFetch_soft_failures_exhaust wits_url no_options
              (scripted html_pages) html_pages [e; e; e] e)
    as (Hthrown & Hfetches & Hsleeps).
  - vm_compute. reflexivity.
  - apply sample_replies.
  - unfold html_pages. cbn [app].
    do 4 (apply Forall2_cons; [exact Hfail|]). apply Forall2_nil.
  - reflexivity.
  - split; [exact Hthrown|]. split; [exact Hfetches|].
    rewrite Hsleeps. reflexivity.
Defined.

Lemma client_failure_shows_offline_banner_witness :
  exists e,
    (robustFetch wits_url no_options world_404).1 = inl (ThApp e) /\
    ErrorBanner.text (ErrorBanner.errorToBanner (inl e))
    = "You appear to be offline. Showing pre-fetched WITS data.".
Proof.
  destruct (client_failure_shows_offline_banner wits_url no_options world_404
              "wits.worldbank.org" (plain 404 JNull))
    as (e & Hthrown & Hbanner).
  - vm_compute. reflexivity.
  - vm_compute. reflexivity.
  - vm_compute. discriminate.
  - reflexivity.
  - unfold client_failure. simpl. lia.
  - exists e. split; [exact Hthrown|]. by rewrite Hbanner.
Defined.

Lemma track_keeps_newest_events_witness :
  fold_left (fun l e => push_event e l)
            [mkEvent "wits" "fetch" []; mkEvent "cache" "cache_miss" []] []
  = [mkEvent "wits" "fetch" []; mkEvent "cache" "cache_miss" []].
Proof.
  destruct (track_keeps_newest_events
              [mkEvent "wits" "fetch" []; mkEvent "cache" "cache_miss" []] [])
    as [Hlog _].
  - simpl. lia.
  - rewrite Hlog. reflexivity.
Defined.

Lemma logError_keeps_newest_errors_witness :
  length (fold_left (fun l e => Errors.logError e l)
                    [Errors.CorsError "a"; Errors.ServerError "b" 500] [])
  = 2%nat.
Proof.
  destruct (logError_keeps_newest_errors
              [Errors.CorsError "a"; Errors.ServerError "b" 500] [])
    as [_ Hlen].
  - simpl. lia.
  - rewrite Hlen. reflexivity.
Defined.

End CaseExamples.

Section PlannerExamples.
Import Str JS Runtime Platform Fetchers QueryPlanner WitsClient.

#[local] Existing Instance SampleBuiltins.sample.

Lemma chunk_splits_by_year_witness :
  exists plan,
    chunk "tradestats-trade" (<["product" := "ALL"]> ind_chn) (2000, 2002)
    = inr plan /\
    per_year_plan "tradestats-trade" (<["product" := "ALL"]> ind_chn)
                  (2000, 2002) plan.
Proof.
  apply (chunk_splits_by_year "tradestats-trade"
           (<["product" := "ALL"]> ind_chn) 2000 2002).
  - vm_compute. reflexivity.
  - vm_compute. reflexivity.
  - intros [Hr _]. vm_compute in Hr. discriminate Hr.
  - lia.
Defined.

Lemma chunk_plan_sound_witness :
  let params := <["product" := "ALL"]> ind_chn in
  let plan := [mkQuery "tradestats-trade" (with_year params 2000);
               mkQuery "tradestats-trade" (with_year params 2001)] in
  plan <> [] /\
  Forall (fun q =>
            datasource q = "tradestats-trade" /\
            valid (validate (QueryPlanner.params q)) = true /\
            (QueryPlanner.params q = params \/
             exists yr, 2000 <= yr <= 2001 /\
                        QueryPlanner.params q = with_year params yr)) plan.
Proof.
  intros params plan.
  apply (chunk_plan_sound "tradestats-trade" params 2000 2001 plan).
  vm_compute. reflexivity.
Defined.

Lemma chunk_cannot_split_throws_witness :
  chunk "tradestats-trade"
        (<["product" := "all"]> (<["partner" := "all"]> ind_chn)) (2000, 2024)
  = inl (Errors.WitsLimitError "4 dimensions set to ALL; max 2 allowed.").
Proof.
  rewrite (chunk_cannot_split_throws "tradestats-trade"
             (<["product" := "all"]> (<["partner" := "all"]> ind_chn))
             2000 2024).
  - vm_compute. reflexivity.
  - vm_compute. reflexivity.
  - left. vm_compute. discriminate.
Defined.

Lemma validate_two_reasons_witness :
  reason (validate all_all_all)
  = Some "3 dimensions set to ALL; max 2 allowed.".
Proof.
  destruct (validate_two_reasons all_all_all) as [[_ Hr] | (Hc & _)].
  - reflexivity.
  - rewrite Hr. vm_compute. reflexivity.
  - vm_compute in Hc. discriminate Hc.
Defined.

Lemma fetchWitsData_one_result_per_query_witness :
  exists results,
    (fetchWitsData "tradestats-trade" ind_chn (2000, 2024) world_200).1
    = inr results /\
    map r_url results = [json "tradestats-trade" ind_chn] /\
    Forall settled results.
Proof.
  assert (Hflag : 0 <= flag_maxRetries world_200) by (vm_compute; discriminate).
  assert (Hplan : chunk "tradestats-trade" ind_chn (2000, 2024)
                  = inr [mkQuery "tradestats-trade" ind_chn])
    by (vm_compute; reflexivity).
  pose proof (fetchWitsData_one_result_per_query "tradestats-trade" ind_chn
                (2000, 2024) world_200 Hflag) as Hrun.
  rewrite Hplan in Hrun. destruct Hrun as (results & Hres & Hurls & Hall & _).
  exists results. split; [exact Hres|]. split; [exact Hurls | exact Hall].
Defined.

End PlannerExamples.

Section RecordExamples.
Import JS Validators Wits Modeling.

#[local] Existing Instance SampleBuiltins.sample.

Lemma null_field_keeps_record_valid_witness :
  valid (validateTradeFact (<["source_id" := JNull]> sample_trade)) = true /\
  valid (validateMacroFact (<["source_id" := JNull]> sample_macro)) = true.
Proof.
  apply (null_field_keeps_record_valid sample_trade sample_macro "source_id");
    vm_compute; reflexivity.
Defined.

Lemma normalised_row_errors_witness :
  exists row,
    normalise_row (JObj [("year", JStr "2020"); ("Value", JStr "12.5")])
                  "tradestats-trade" "u" "t" = Some row /\
    errors (validateTradeFact row)
    = missing row "date" ++ missing row "reporter_iso3"
      ++ missing row "partner_iso3" ++ missing row "flow"
      ++ missing row "retrieval_ts" ++ missing row "request_fingerprint"
      ++ enum_error row "flow" VALID_FLOWS "Invalid flow: "
      ++ iso3_error row "reporter_iso3" ++ iso3_error row "partner_iso3".
Proof.
  eexists. split; [reflexivity|].
  apply (normalised_row_errors
           (JObj [("year", JStr "2020"); ("Value", JStr "12.5")])
           "tradestats-trade" "u" "t").
  reflexivity.
Defined.

Lemma holtWinters_forecast_shape_witness :
  Forall is_Some (holtWinters example_series default_smoothing).
Proof.
  apply (holtWinters_forecast_shape example_series default_smoothing).
  simpl. lia.
Defined.

Lemma rollingEval_holdout_split_witness :
  exists d,
    rollingEval example_series 1
                (fun train => Some (holtWinters train default_smoothing))
    = Some d /\
    length (residuals d) = 1%nat.
Proof.
  destruct (rollingEval_holdout_split example_series 1
              (fun train => Some (holtWinters train default_smoothing)))
    as (_ & _ & Hrun & Hres).
  - simpl. lia.
  - cbv beta iota in Hrun. eexists. split; [exact Hrun|].
    exact (Hres _ _ eq_refl Hrun).
Defined.

End RecordExamples.
